(** * Credential broker: a shallow embedding of the issuance core

    The development follows the Python sources of the broker:
    - [src/backend/src/acp/acp_server.py]       (class [IntentParser])
    - [src/backend/src/core/audit_logger.py]     (class [AuditLogger])
    - [src/backend/src/core/onepassword_client.py]
    - [src/backend/src/core/token_manager.py]    (class [TokenManager])
    - [src/backend/src/core/credential_manager.py]

    Python [str] values are modelled by [string]: a sequence of 8-bit
    characters read as the code points U+0000..U+00FF.  Python [dict]s with
    string keys are [gmap string _]; exceptions are the left summand of a
    sum type. *)

From Stdlib Require Import ZArith NArith Ascii String List Lia.
From Stdlib.Strings Require Import Byte.
From stdpp Require Import base option list strings gmap pretty.

Set Warnings "-register-all".
Open Scope Z_scope.

(** ** Characters and strings *)

Module Str.

Definition code (a : ascii) : N := N_of_ascii a.

(** [str.lower()] on one code point below U+0100: the ASCII capitals and
    the Latin-1 capitals U+00C0..U+00DE (without the sign U+00D7) move up by
    32, everything else is kept. *)
Definition lower_char (a : ascii) : ascii :=
  let n := code a in
  if ((65 <=? n) && (n <=? 90))%N then ascii_of_N (n + 32)
  else if ((192 <=? n) && (n <=? 222) && negb (n =? 215))%N then ascii_of_N (n + 32)
  else a.

Definition lower (s : list ascii) : list ascii := map lower_char s.

(** The class [\s] of a [str] pattern, restricted to U+0000..U+00FF. *)
Definition is_space (a : ascii) : bool :=
  let n := code a in
  (((9 <=? n) && (n <=? 13)) || ((28 <=? n) && (n <=? 32))
   || (n =? 133) || (n =? 160))%N.

(** The class [\d], restricted to U+0000..U+00FF: the ten ASCII digits. *)
Definition is_digit (a : ascii) : bool :=
  let n := code a in ((48 <=? n) && (n <=? 57))%N.

Definition digit_value (a : ascii) : Z := Z.of_N (code a) - 48.

(** [int(s)] on a string of decimal digits (the only strings the parser
    hands to [int]); the interpreter's limit on the number of digits of such
    a conversion is not modelled. *)
Definition py_int (s : list ascii) : Z :=
  fold_left (fun acc d => 10 * acc + digit_value d) s 0.

Definition of_string (s : string) : list ascii := list_ascii_of_string s.
Definition to_string (l : list ascii) : string := string_of_list_ascii l.

End Str.

(** ** The fragment of Python's [re] used by the intent parser

    A backtracking matcher in continuation-passing style: alternatives are
    tried left to right, repetitions are greedy and give characters back one
    at a time, and group 1 is whatever the successful path captured. *)

Module Re.

Inductive cset : Type :=
| CLit (c : ascii)   (* a literal character, under re.IGNORECASE *)
| CSpace             (* \s *)
| CNonSpace          (* \S *)
| CDigit.            (* \d *)

Inductive regex : Type :=
| Eps
| One (c : cset)
| Seq (r1 r2 : regex)
| Alt (r1 r2 : regex)
| Opt (r : regex)          (* r?  *)
| Star (c : cset)          (* c*  *)
| Plus (c : cset)          (* c+  *)
| Group (r : regex).       (* ( r ), capture group 1 *)

Definition fold_case (a : ascii) : ascii :=
  let n := Str.code a in
  if ((65 <=? n) && (n <=? 90))%N then ascii_of_N (n + 32) else a.

Definition cset_mem (c : cset) (a : ascii) : bool :=
  match c with
  | CLit x => Ascii.eqb (fold_case x) (fold_case a)
  | CSpace => Str.is_space a
  | CNonSpace => negb (Str.is_space a)
  | CDigit => Str.is_digit a
  end.

Section Matcher.
Context {R : Type}.

Definition orelse (x y : option R) : option R :=
  match x with Some r => Some r | None => y end.

(** Greedy [c*]: the longest run first, then shorter ones. *)
Fixpoint star_from (c : cset) (s : list ascii)
    (k : list ascii -> option R) : option R :=
  match s with
  | a :: s' => if cset_mem c a then orelse (star_from c s' k) (k s) else k s
  | [] => k s
  end.

Definition plus_from (c : cset) (s : list ascii)
    (k : list ascii -> option R) : option R :=
  match s with
  | a :: s' => if cset_mem c a then star_from c s' k else None
  | [] => None
  end.

(** [rmatch r s g k]: match [r] at the head of [s]; [g] is the current
    capture of group 1; [k] continues with the rest of the input. *)
Fixpoint rmatch (r : regex) (s : list ascii) (g : option (list ascii))
    (k : list ascii -> option (list ascii) -> option R) : option R :=
  match r with
  | Eps => k s g
  | One c =>
      match s with
      | a :: s' => if cset_mem c a then k s' g else None
      | [] => None
      end
  | Seq r1 r2 => rmatch r1 s g (fun s' g' => rmatch r2 s' g' k)
  | Alt r1 r2 => orelse (rmatch r1 s g k) (rmatch r2 s g k)
  | Opt r1 => orelse (rmatch r1 s g k) (k s g)
  | Star c => star_from c s (fun s' => k s' g)
  | Plus c => plus_from c s (fun s' => k s' g)
  | Group r1 =>
      rmatch r1 s g
        (fun s' _ => k s' (Some (take (length s - length s')%nat s)))
  end.

End Matcher.

(** A successful match object: only [group(1)] is ever read. *)
Definition match_at (r : regex) (s : list ascii) : option (option (list ascii)) :=
  rmatch r s None (fun _ g => Some g).

(** [re.search(pattern, s)]: the leftmost start position that matches. *)
Fixpoint search (r : regex) (s : list ascii) : option (option (list ascii)) :=
  match match_at r s with
  | Some g => Some g
  | None => match s with
            | [] => None
            | _ :: s' => search r s'
            end
  end.

(** [match.group(1)] of a search, for patterns with a group 1 that takes
    part in every match. *)
Definition search_group1 (r : regex) (s : list ascii) : option (list ascii) :=
  match search r s with
  | Some (Some g) => Some g
  | Some None => Some []
  | None => None
  end.

(** Pattern builders. *)
Definition lit (s : string) : regex :=
  fold_right (fun a r => Seq (One (CLit a)) r) Eps (Str.of_string s).

Definition seqs (rs : list regex) : regex := fold_right Seq Eps rs.

Fixpoint alts (rs : list regex) : regex :=
  match rs with
  | [] => Eps
  | [r] => r
  | r :: rs' => Alt r (alts rs')
  end.

Definition ws1 : regex := Plus CSpace.            (* \s+ *)
Definition word : regex := Group (Plus CNonSpace). (* (\S+) *)
Definition opt_s (s : string) : regex :=            (* e.g. credentials? *)
  Seq (lit s) (Opt (One (CLit "s"%char))).

End Re.

(** ** [IntentParser] (acp_server.py) *)

Module IntentParser.
Import Re.

(** [(?:credentials?|creds?|access)] and its variants. *)
Definition cred_words (extra : list regex) : regex :=
  alts ([opt_s "credential"; opt_s "cred"] ++ extra).

(** [IntentParser.PATTERNS["database"]] *)
Definition database_patterns : list regex :=
  [ seqs [lit "database"; ws1; cred_words [lit "access"]; ws1; lit "for"; ws1; word];
    seqs [lit "db"; ws1; cred_words [lit "access"]; ws1; lit "for"; ws1; word];
    seqs [cred_words [lit "access"]; ws1; lit "for"; ws1;
          alts [lit "database"; lit "db"]; ws1; word];
    seqs [lit "need"; ws1; word; ws1; lit "database"];
    seqs [word; ws1; lit "database"; ws1; cred_words []] ].

(** [IntentParser.PATTERNS["api"]] *)
Definition api_patterns : list regex :=
  [ seqs [lit "api"; ws1; cred_words [lit "access"; lit "token"]; ws1; lit "for"; ws1; word];
    seqs [cred_words [lit "access"; lit "token"]; ws1; lit "for"; ws1;
          alts [lit "api"; lit "API"]; ws1; word];
    seqs [lit "need"; ws1; word; ws1; lit "api"];
    seqs [word; ws1; lit "api"; ws1; cred_words [lit "token"]] ].

(** [IntentParser.PATTERNS["ssh"]] *)
Definition ssh_patterns : list regex :=
  [ seqs [lit "ssh"; ws1; cred_words [lit "key"; opt_s "key"; lit "access"]; ws1;
          lit "for"; ws1; word];
    seqs [cred_words [lit "key"; opt_s "key"; lit "access"]; ws1; lit "for"; ws1;
          alts [lit "ssh"; lit "SSH"]; ws1; word];
    seqs [lit "need"; ws1; word; ws1; lit "ssh"];
    seqs [word; ws1; lit "ssh"; ws1; cred_words [lit "key"; opt_s "key"]] ].

(** The dictionary [PATTERNS], in insertion order. *)
Definition PATTERNS : list (string * list regex) :=
  [ ("database", database_patterns); ("api", api_patterns); ("ssh", ssh_patterns) ].

(** The list [generic_patterns] of [parse_intent]. *)
Definition generic_patterns : list regex :=
  [ seqs [opt_s "credential"; ws1; lit "for"; ws1; word];
    seqs [opt_s "cred"; ws1; lit "for"; ws1; word];
    seqs [lit "access"; ws1; lit "to"; ws1; word];
    seqs [lit "secret"; ws1; lit "for"; ws1; word] ].

(** [(\d+)\s*(?:minute|min|minutes|mins)] *)
Definition duration_pattern : regex :=
  seqs [Group (Plus CDigit); Star CSpace;
        alts [lit "minute"; lit "min"; lit "minutes"; lit "mins"]].

Record intent : Type := {
  resource_type : string;
  resource_name : option string;
  duration_minutes : Z;
  original_text : string
}.

(** The inner loop [for pattern in patterns: ... break]. *)
Fixpoint first_match (patterns : list regex) (text_lower : list ascii)
    : option (list ascii) :=
  match patterns with
  | [] => None
  | pattern :: rest =>
      match search_group1 pattern text_lower with
      | Some name => Some name
      | None => first_match rest text_lower
      end
  end.

(** The outer loop [for res_type, patterns in PATTERNS.items(): ...],
    left as soon as [resource_type] is set. *)
Fixpoint typed_match (table : list (string * list regex)) (text_lower : list ascii)
    : option (string * list ascii) :=
  match table with
  | [] => None
  | (res_type, patterns) :: rest =>
      match first_match patterns text_lower with
      | Some name => Some (res_type, name)
      | None => typed_match rest text_lower
      end
  end.

Definition parse_duration (text_lower : list ascii) : Z :=
  match search_group1 duration_pattern text_lower with
  | Some digits => Z.min (Str.py_int digits) 15   (* Cap at 15 minutes *)
  | None => 5                                      (* Default *)
  end.

Definition parse_intent (text : string) : intent :=
  let text_lower := Str.lower (Str.of_string text) in
  let '(rtype, rname) :=
    match typed_match PATTERNS text_lower with
    | Some (res_type, name) => (res_type, Some (Str.to_string name))
    | None =>
        (* Default to generic if no specific type found *)
        ("generic", Str.to_string <$> first_match generic_patterns text_lower)
    end in
  {| resource_type := rtype;
     resource_name := rname;
     duration_minutes := parse_duration text_lower;
     original_text := text |}.

End IntentParser.

(** ** Python values and exceptions *)

Module Py.

Inductive pyval : Type :=
| PNone
| PBool (b : bool)
| PInt (z : Z)
| PStr (s : string)
| PDateTime (us : Z)     (* an aware UTC datetime: microseconds since the epoch *)
| PList (l : list pyval)
| PDict (d : gmap string pyval).

(** Truth value of an object, as tested by [not x], [x or y], [if x]. *)
Definition truthy (v : pyval) : bool :=
  match v with
  | PNone => false
  | PBool b => b
  | PInt z => negb (z =? 0)
  | PStr s => negb (String.eqb s "")
  | PDateTime _ => true
  | PList l => match l with [] => false | _ => true end
  | PDict d => match map_to_list d with [] => false | _ => true end
  end.

(** [d.get(k)]: a missing key reads as [None]. *)
Definition dict_get (d : gmap string pyval) (k : string) : pyval :=
  default PNone (d !! k).

(** A [Dict[str, str]] as an object. *)
Definition str_dict (d : gmap string string) : pyval := PDict (PStr <$> d).

Inductive exn : Type :=
| ValueError (msg : string)
| TypeError (msg : string)
| AttributeError (msg : string)
| OverflowError (msg : string)
| UnicodeDecodeError (msg : string)
| JSONDecodeError (msg : string)
| InvalidToken                        (* cryptography.fernet.InvalidToken *)
| ExpiredSignatureError (msg : string) (* jwt.ExpiredSignatureError *)
| InvalidTokenError (msg : string)     (* any other jwt.InvalidTokenError *)
| Exception (msg : string).

(** A call either raises or returns. *)
Definition result (A : Type) : Type := exn + A.

Definition raise {A} (e : exn) : result A := inl e.

Definition bind {A B} (x : result A) (f : A -> result B) : result B :=
  match x with
  | inl e => inl e
  | inr a => f a
  end.

(** [try: body  except Exception: raise e]. Every constructor of [exn] is a
    subclass of [Exception]. *)
Definition try_except {A} (body : result A) (e : exn) : result A :=
  match body with
  | inl _ => inl e
  | inr a => inr a
  end.

(** [x or y] on an optional integer: [None] and [0] are false. *)
Definition int_or (x : option Z) (y : Z) : Z :=
  match x with
  | Some z => if z =? 0 then y else z
  | None => y
  end.

(** [x or y] on optional strings: [None] and the empty string are false. *)
Definition str_or (x y : option string) : option string :=
  match x with
  | Some s => if String.eqb s "" then y else Some s
  | None => y
  end.

Definition str_truthy (x : option string) : bool :=
  match x with
  | Some s => negb (String.eqb s "")
  | None => false
  end.

Fixpoint str_repeat (s : string) (n : nat) : string :=
  match n with
  | O => ""
  | S n' => s +:+ str_repeat s n'
  end.

(** [v * n] for an integer [n]. *)
Definition mul_int (v : pyval) (n : Z) : result pyval :=
  match v with
  | PInt z => inr (PInt (z * n))
  | PBool b => inr (PInt ((if b then 1 else 0) * n))
  | PStr s => inr (PStr (str_repeat s (Z.to_nat n)))
  | PList l => inr (PList (concat (replicate (Z.to_nat n) l)))
  | _ => raise (TypeError "unsupported operand type(s) for *")
  end.

(** [timedelta(minutes=m)]: the span in microseconds; the day count of a
    [timedelta] is limited to 999999999 in absolute value. *)
Definition timedelta_minutes (m : Z) : result Z :=
  let days := (m * 60) / 86400 in
  if (-999999999 <=? days) && (days <=? 999999999)
  then inr (m * 60 * 1000000)
  else raise (OverflowError "days out of range").

(** [datetime + timedelta]: years 1 to 9999 only. *)
Definition datetime_min : Z := -62135596800 * 1000000.
Definition datetime_max : Z := 253402300799 * 1000000 + 999999.

Definition datetime_add (t delta : Z) : result Z :=
  let r := t + delta in
  if (datetime_min <=? r) && (r <=? datetime_max)
  then inr r
  else raise (OverflowError "date value out of range").

(** [repr] of a list of strings without quotes or backslashes. *)
Definition repr_str_list (l : list string) : string :=
  "[" +:+ String.concat ", " (map (fun s => "'" +:+ s +:+ "'") l) +:+ "]".

End Py.

Notation "'do' x <- e ; k" := (Py.bind e (fun x => k))
  (at level 10, x name, e at level 100, k at level 200).

(** ** The libraries the broker calls

    [json], the text codecs, [cryptography] (PBKDF2, Fernet) and PyJWT are
    not part of the repository.  The broker's code is embedded over an
    arbitrary implementation [Libs] of them; what a theorem needs of their
    documented behaviour is a field of [LibsOk] or [IdealCrypto]. *)

Module Lib.
Import Py.

Abbreviation bytes := (list byte).

#[export] Instance byte_eq_dec : EqDecision byte.
Proof.
  intros x y.
  destruct (decide (ascii_of_byte x = ascii_of_byte y)) as [H | H].
  - left. rewrite <- (byte_of_ascii_of_byte x), <- (byte_of_ascii_of_byte y).
    now rewrite H.
  - right. intros ->. now apply H.
Defined.

Class Libs : Type := {
  (** [str.encode()] and [bytes.decode()] (UTF-8) *)
  str_encode : string -> bytes;
  bytes_decode : bytes -> result string;
  (** [json.dumps], [json.loads] *)
  json_dumps : pyval -> result string;
  json_loads : string -> result pyval;
  (** [PBKDF2HMAC(SHA256, length, salt, iterations).derive(key_material)] *)
  pbkdf2_hmac_sha256 : Z -> bytes -> Z -> bytes -> bytes;
  (** [base64.urlsafe_b64encode] *)
  urlsafe_b64encode : bytes -> bytes;
  (** [Fernet(key).encrypt(data)]: the second argument is the token's
      timestamp and random IV *)
  fernet_encrypt : bytes -> bytes -> bytes -> bytes;
  (** [Fernet(key).decrypt(token)] *)
  fernet_decrypt : bytes -> bytes -> result bytes;
  (** [jwt.encode(payload, key, algorithm)] *)
  jwt_encode : gmap string pyval -> string -> string -> result string;
  (** [jwt.decode(token, key, algorithms, options={"verify_exp": b})],
      called when the clock shows [now] (microseconds since the epoch) *)
  jwt_decode : string -> string -> list string -> bool -> Z -> result (gmap string pyval)
}.

(** PyJWT stores the claims [exp], [iat] and [nbf] as whole seconds: a
    [datetime] is replaced by [timegm(dt.utctimetuple())]. *)
Definition numeric_date (v : pyval) : pyval :=
  match v with
  | PDateTime us => PInt (us / 1000000)
  | _ => v
  end.

Definition jwt_time_claims (payload : gmap string pyval) : gmap string pyval :=
  alter numeric_date "nbf" (alter numeric_date "iat" (alter numeric_date "exp" payload)).

(** The functional contract of the libraries. *)
Class LibsOk (L : Libs) : Prop := {
  decode_encode : forall s : string, bytes_decode (str_encode s) = inr s;
  (** a Fernet token is ASCII text *)
  fernet_token_text : forall key iv data,
    exists t, bytes_decode (fernet_encrypt key iv data) = inr t
              /\ str_encode t = fernet_encrypt key iv data;
  fernet_decrypt_encrypt : forall key iv data,
    fernet_decrypt key (fernet_encrypt key iv data) = inr data;
  (** a dictionary of strings is serialisable and is read back unchanged *)
  json_loads_dumps : forall d : gmap string string,
    exists s, json_dumps (str_dict d) = inr s /\ json_loads s = inr (str_dict d);
  (** a token that [jwt.encode] returned decodes, with the signing key and
      algorithm and without the expiry check, to the claims it was made
      of; PyJWT refuses an [iat] in the future *)
  jwt_decode_encode : forall payload key alg tok now iat,
    jwt_encode payload key alg = inr tok ->
    payload !! "nbf" = None ->
    jwt_time_claims payload !! "iat" = Some (PInt iat) ->
    iat * 1000000 <= now ->
    jwt_decode tok key [alg] false now = inr (jwt_time_claims payload)
}.

(** The idealised security of Fernet: a token made with one key does not
    authenticate under another key.  (With the real cipher the HMAC-SHA256
    tag of the token would have to be its tag under the other signing key
    as well.)  The keys are Fernet keys, the URL-safe base64 text of their
    bytes.  Nothing is assumed of PBKDF2: two master secrets can derive the
    same key. *)
Class IdealCrypto (L : Libs) : Prop := {
  fernet_wrong_key : forall key key' iv data,
    urlsafe_b64encode key <> urlsafe_b64encode key' ->
    fernet_decrypt (urlsafe_b64encode key')
      (fernet_encrypt (urlsafe_b64encode key) iv data) = inl InvalidToken
}.

End Lib.

(** ** [TokenManager] (token_manager.py) *)

Module TokenManager.
Import Py Lib.

Section WithLibs.
Context {L : Libs}.

(** The instance attributes set by [__init__]; [fernet] is the key of the
    Fernet cipher [_initialize_fernet(encryption_key or jwt_secret)]. *)
Record TokenManager : Type := {
  jwt_secret : string;
  jwt_algorithm : string;
  default_ttl_minutes : Z;
  fernet : bytes
}.

(** The default of [__init__]'s parameter [default_ttl_minutes]. *)
Definition DEFAULT_TTL_MINUTES : Z := 5.

Definition salt : bytes :=
  map byte_of_ascii (Str.of_string "1password-broker-salt").

Definition _initialize_fernet (key : string) : bytes :=
  let derived_key :=
    urlsafe_b64encode (pbkdf2_hmac_sha256 32 salt 100000 (str_encode key)) in
  derived_key.

(** [encrypt_payload]: its [except] clause logs and re-raises. *)
Definition encrypt_payload (self : TokenManager) (iv : bytes) (data : pyval)
    : result string :=
  do json_data <- json_dumps data;
  let encrypted_bytes := fernet_encrypt (fernet self) iv (str_encode json_data) in
  do encrypted_str <- bytes_decode encrypted_bytes;
  inr encrypted_str.

(** [x.encode()] on an arbitrary object: only [str] has the method. *)
Definition encode_attr (x : pyval) : result bytes :=
  match x with
  | PStr s => inr (str_encode s)
  | _ => raise (AttributeError "object has no attribute 'encode'")
  end.

Definition decrypt_payload (self : TokenManager) (encrypted_data : pyval)
    : result pyval :=
  try_except
    (do token <- encode_attr encrypted_data;
     do decrypted_bytes <- fernet_decrypt (fernet self) token;
     do json_data <- bytes_decode decrypted_bytes;
     do data <- json_loads json_data;
     inr data)
    (ValueError "Invalid or corrupted encrypted data").

(** The dictionary [payload] built by [generate_jwt]. *)
Definition jwt_payload (agent_id encrypted_creds resource_type resource_name : string)
    (now exp ttl : Z) : gmap string pyval :=
  <["sub" := PStr agent_id]>
  (<["credentials" := PStr encrypted_creds]>
  (<["resource_type" := PStr resource_type]>
  (<["resource_name" := PStr resource_name]>
  (<["iat" := PDateTime now]>
  (<["exp" := PDateTime exp]>
  (<["iss" := PStr "1password-credential-broker"]>
  (<["ttl_minutes" := PInt ttl]> ∅))))))).

(** [generate_jwt]; [now] is the reading of [datetime.now(timezone.utc)]. *)
Definition generate_jwt (self : TokenManager) (agent_id : string)
    (credentials : pyval) (resource_type resource_name : string)
    (ttl_minutes : option Z) (additional_claims : option (gmap string pyval))
    (now : Z) (iv : bytes) : result string :=
  let ttl := int_or ttl_minutes (default_ttl_minutes self) in
  do delta <- timedelta_minutes ttl;
  do exp <- datetime_add now delta;
  do encrypted_creds <- encrypt_payload self iv credentials;
  let payload :=
    jwt_payload agent_id encrypted_creds resource_type resource_name now exp ttl in
  let payload :=
    match additional_claims with
    | Some claims => if truthy (PDict claims) then claims ∪ payload else payload
    | None => payload
    end in
  jwt_encode payload (jwt_secret self) (jwt_algorithm self).

(** [verify_jwt]: both [except] clauses log and re-raise. *)
Definition verify_jwt (self : TokenManager) (token : string) (now : Z)
    : result (gmap string pyval) :=
  jwt_decode token (jwt_secret self) [jwt_algorithm self] true now.

(** The dictionary returned by [verify_and_decrypt]. *)
Record decrypted_token : Type := {
  agent_id : pyval;
  credentials : pyval;
  resource_type : pyval;
  resource_name : pyval;
  issued_at : pyval;
  expires_at : pyval;
  ttl_minutes : pyval
}.

Definition verify_and_decrypt (self : TokenManager) (token : string) (now : Z)
    : result decrypted_token :=
  do payload <- verify_jwt self token now;
  let encrypted_creds := dict_get payload "credentials" in
  if negb (truthy encrypted_creds)
  then raise (ValueError "Token does not contain encrypted credentials")
  else
    do decrypted_creds <- decrypt_payload self encrypted_creds;
    inr {| agent_id := dict_get payload "sub";
           credentials := decrypted_creds;
           resource_type := dict_get payload "resource_type";
           resource_name := dict_get payload "resource_name";
           issued_at := dict_get payload "iat";
           expires_at := dict_get payload "exp";
           ttl_minutes := dict_get payload "ttl_minutes" |}.

End WithLibs.
End TokenManager.

(** ** [OnePasswordClient] (onepassword_client.py) *)

Module OnePasswordClient.
Import Py.

(** The SDK's models, with the attributes the broker reads.  Where the code
    probes an attribute with [hasattr], the attribute is optional: [None]
    stands for "absent" (for [username], [fields] and a field's [value]
    also for the value [None], which the code treats alike). *)
Record Field : Type := {
  Field_label : option string;
  Field_value : option string
}.

Record ItemVault : Type := { ItemVault_id : string }.

Record Item : Type := {
  Item_id : string;
  Item_title : string;
  Item_username : option string;
  Item_fields : option (list Field);
  Item_vault : option ItemVault
}.

(** The Connect server behind [self.client]. *)
Record Connect : Type := {
  client_get_items : string -> result (list Item);
  client_get_item : string -> string -> result Item
}.

Record OnePasswordClient : Type := {
  connect_host : string;
  connect_token : string;
  vault_id : option string;
  client : Connect
}.

(** What reached the vault gateway, oldest call first. *)
Inductive call : Type :=
| CallGetItemByTitle (title : string) (vault : option string)
| CallClientGetItems (vault : string)
| CallClientGetItem (item_id vault : string).

Definition str_lower (s : string) : string :=
  Str.to_string (Str.lower (Str.of_string s)).

Definition get_item (self : OnePasswordClient) (log : list call)
    (item_id : string) (vault : option string) : result Item * list call :=
  let target := str_or vault (vault_id self) in
  if negb (str_truthy target) then (raise (ValueError "vault_id is required"), log)
  else
    let target_vault_id := default "" target in
    (client_get_item (client self) item_id target_vault_id,
     log ++ [CallClientGetItem item_id target_vault_id]).

Definition get_item_by_title (self : OnePasswordClient) (log : list call)
    (title : string) (vault : option string)
    : result (option Item) * list call :=
  let log := log ++ [CallGetItemByTitle title vault] in
  let target := str_or vault (vault_id self) in
  if negb (str_truthy target) then (raise (ValueError "vault_id is required"), log)
  else
    let target_vault_id := default "" target in
    let log := log ++ [CallClientGetItems target_vault_id] in
    match client_get_items (client self) target_vault_id with
    | inl e => (inl e, log)
    | inr items =>
        match find (fun item => String.eqb (str_lower (Item_title item))
                                              (str_lower title)) items with
        | Some item =>
            (* Get full item details (list only returns summaries) *)
            let '(full_item, log) :=
              get_item self log (Item_id item) (Some target_vault_id) in
            (do i <- full_item; inr (Some i), log)
        | None => (inr None, log)
        end
    end.

(** The loop body of [extract_credential_fields]. *)
Definition add_field (credentials : gmap string string) (field : Field)
    : gmap string string :=
  match Field_label field, Field_value field with
  | Some label, Some value =>
      (* Only include non-empty values *)
      if String.eqb value "" then credentials else <[label := value]> credentials
  | _, _ => credentials
  end.

Definition extract_credential_fields (item : Item) : gmap string string :=
  let credentials : gmap string string := ∅ in
  let credentials :=
    match Item_username item with
    | Some u => if String.eqb u "" then credentials
                else <["username" := u]> credentials
    | None => credentials
    end in
  let credentials :=
    match Item_fields item with
    | Some fields => fold_left add_field fields credentials
    | None => credentials
    end in
  let credentials := <["_item_id" := Item_id item]> credentials in
  let credentials := <["_item_title" := Item_title item]> credentials in
  let credentials :=
    <["_vault_id" := match Item_vault item with
                     | Some v => ItemVault_id v
                     | None => "unknown"
                     end]> credentials in
  credentials.

End OnePasswordClient.

(** ** [CredentialManager] (credential_manager.py) *)

Module CredentialManager.
Import Py Lib OnePasswordClient.

Inductive ResourceType : Type := DATABASE | API | SSH | GENERIC.

Definition ResourceType_members : list ResourceType := [DATABASE; API; SSH; GENERIC].

Definition value (t : ResourceType) : string :=
  match t with
  | DATABASE => "database"
  | API => "api"
  | SSH => "ssh"
  | GENERIC => "generic"
  end.

(** [ResourceType(s)]: the member with that value, if any. *)
Definition ResourceType_of (s : string) : option ResourceType :=
  find (fun t => String.eqb (value t) s) ResourceType_members.

Section WithLibs.
Context {L : Libs}.

Record CredentialManager : Type := {
  op_client : OnePasswordClient;
  token_mgr : TokenManager.TokenManager
}.

Definition fetch_credentials (self : CredentialManager) (log : list call)
    (resource_type resource_name : string) (vault : option string)
    : result (gmap string string) * list call :=
  (* Validate resource type *)
  match ResourceType_of resource_type with
  | None =>
      (raise (ValueError ("Invalid resource_type: " +:+ resource_type +:+ ". "
                          +:+ "Must be one of: "
                          +:+ repr_str_list (map value ResourceType_members))),
       log)
  | Some _ =>
      (* Retrieve item from 1Password by title *)
      let '(item, log) :=
        get_item_by_title (op_client self) log resource_name vault in
      match item with
      | inl e => (inl e, log)
      | inr None =>
          (raise (ValueError ("Resource '" +:+ resource_name
                              +:+ "' not found in 1Password vault")), log)
      | inr (Some item) =>
          (* Extract credential fields *)
          (inr (extract_credential_fields item), log)
      end
  end.

(** The dictionary returned by [issue_ephemeral_token]. *)
Record token_data : Type := {
  token : string;
  expires_in : pyval;
  resource : string;
  issued_at : pyval;
  expires_at : pyval;
  ttl_minutes : pyval
}.

(** [issue_ephemeral_token]; the clock is read at [now] when the token is
    generated and at [now'] when it is verified. *)
Definition issue_ephemeral_token (self : CredentialManager) (credentials : pyval)
    (agent_id resource_type resource_name : string) (ttl_minutes : option Z)
    (now now' : Z) (iv : bytes) : result token_data :=
  do token <- TokenManager.generate_jwt (token_mgr self) agent_id credentials
                resource_type resource_name ttl_minutes None now iv;
  do payload <- TokenManager.verify_jwt (token_mgr self) token now';
  let ttl := default (PInt (TokenManager.default_ttl_minutes (token_mgr self)))
                     (payload !! "ttl_minutes") in
  do expires_in <- mul_int ttl 60;
  inr {| token := token;
         expires_in := expires_in;
         resource := resource_type +:+ "/" +:+ resource_name;
         issued_at := dict_get payload "iat";
         expires_at := dict_get payload "exp";
         ttl_minutes := ttl |}.

Definition fetch_and_issue_token (self : CredentialManager) (log : list call)
    (resource_type resource_name agent_id : string) (ttl_minutes : option Z)
    (vault : option string) (now now' : Z) (iv : bytes)
    : result token_data * list call :=
  (* Step 1: Fetch credentials *)
  let '(credentials, log) :=
    fetch_credentials self log resource_type resource_name vault in
  match credentials with
  | inl e => (inl e, log)
  | inr credentials =>
      (* Step 2: Issue token *)
      (issue_ephemeral_token self (str_dict credentials) agent_id
         resource_type resource_name ttl_minutes now now' iv, log)
  end.

End WithLibs.
End CredentialManager.

(** ** [AuditLogger] (audit_logger.py) *)

Module AuditLogger.
Import Py Lib.

(** The dictionary built by [_create_event_payload]; the key [metadata] is
    present only when a non-empty dictionary was passed. *)
Record event : Type := {
  timestamp : string;
  event_type : string;
  protocol : string;
  agent_id : string;
  resource : string;
  outcome : string;
  source : string;
  version : string;
  metadata : option (gmap string pyval)
}.

Definition event_dict (e : event) : gmap string pyval :=
  let d : gmap string pyval :=
    <["timestamp" := PStr (timestamp e)]>
    (<["event_type" := PStr (event_type e)]>
    (<["protocol" := PStr (protocol e)]>
    (<["agent_id" := PStr (agent_id e)]>
    (<["resource" := PStr (resource e)]>
    (<["outcome" := PStr (outcome e)]>
    (<["source" := PStr (source e)]>
    (<["version" := PStr (version e)]> ∅))))))) in
  match metadata e with
  | Some m => <["metadata" := PDict m]> d
  | None => d
  end.

(** What [client.post] does: answer with a status code, or raise. *)
Inductive http_reply : Type :=
| Response (status_code : Z)
| RequestError.

(** The surroundings of the logger: the collector's reply to the n-th
    request of the run, and whether a file can be appended to. *)
Record env : Type := {
  collector : nat -> http_reply;
  writable : string -> bool
}.

(** The observable effects: the lines appended to each file and the
    requests sent to the collector, oldest first. *)
Record world : Type := {
  files : gmap string (list string);
  posts : list (string * event)
}.

Record AuditLogger : Type := {
  events_api_url : option string;
  events_api_token : option string;
  max_retries : Z;
  enable_local_fallback : bool;
  local_log_file : string;
  failed_events_queue : list event;   (* deque(maxlen=1000), oldest first *)
  http_client : bool;                 (* whether the client exists *)
  events_api_enabled : bool
}.

Definition QUEUE_MAXLEN : nat := 1000.

(** [deque.append] on a deque with [maxlen]: when the deque is full, an
    item is discarded from the opposite end. *)
Definition deque_append {A} (maxlen : nat) (q : list A) (x : A) : list A :=
  let q' := q ++ [x] in
  drop (length q' - maxlen)%nat q'.

(** The state after [__init__], for the given arguments (the environment
    variables are taken as already merged into them). *)
Definition init (url token : option string) (retries : Z)
    (local_fallback : bool) (log_file : string) : AuditLogger :=
  {| events_api_url := url;
     events_api_token := token;
     max_retries := retries;
     enable_local_fallback := local_fallback;
     local_log_file := log_file;
     failed_events_queue := [];
     http_client := false;
     events_api_enabled := str_truthy url && str_truthy token |}.

Definition set_queue (self : AuditLogger) (q : list event) : AuditLogger :=
  {| events_api_url := events_api_url self;
     events_api_token := events_api_token self;
     max_retries := max_retries self;
     enable_local_fallback := enable_local_fallback self;
     local_log_file := local_log_file self;
     failed_events_queue := q;
     http_client := http_client self;
     events_api_enabled := events_api_enabled self |}.

Definition _get_http_client (self : AuditLogger) : AuditLogger :=
  {| events_api_url := events_api_url self;
     events_api_token := events_api_token self;
     max_retries := max_retries self;
     enable_local_fallback := enable_local_fallback self;
     local_log_file := local_log_file self;
     failed_events_queue := failed_events_queue self;
     http_client := true;
     events_api_enabled := events_api_enabled self |}.

Definition _create_event_payload (now : string)
    (event_type protocol agent_id resource outcome : string)
    (metadata : option (gmap string pyval)) : event :=
  {| timestamp := now;
     event_type := event_type;
     protocol := protocol;
     agent_id := agent_id;
     resource := resource;
     outcome := outcome;
     source := "1password-credential-broker";
     version := "1.0.0";
     metadata := match metadata with
                 | Some m => if truthy (PDict m) then Some m else None
                 | None => None
                 end |}.

Section WithLibs.
Context {L : Libs}.

(** [_post_event_to_api], by recursion on the retries that are left:
    [remaining = max_retries - retry_count], so that the test
    [retry_count < max_retries] is [remaining > 0].  The sleep between two
    attempts has no effect on the state. *)
Fixpoint post_event (remaining : nat) (self : AuditLogger) (E : env) (w : world)
    (ev : event) : bool * AuditLogger * world :=
  if negb (events_api_enabled self) then (false, self, w)
  else
    let self := _get_http_client self in
    let reply := collector E (length (posts w)) in
    let w := {| files := files w;
                posts := posts w ++ [(default "" (events_api_url self) +:+ "/events", ev)] |} in
    match reply with
    | Response code =>
        (bool_decide (code ∈ [200; 201; 202]), self, w)
    | RequestError =>
        match remaining with
        | S remaining' => post_event remaining' self E w ev
        | O => (false, self, w)
        end
    end.

Definition _post_event_to_api (self : AuditLogger) (E : env) (w : world)
    (ev : event) (retry_count : Z) : bool * AuditLogger * world :=
  post_event (Z.to_nat (max_retries self - retry_count)) self E w ev.

(** [_log_event_locally]: a failure of [json.dumps] or of the write is
    logged and goes no further. *)
Definition _log_event_locally (self : AuditLogger) (E : env) (w : world)
    (ev : event) : world :=
  if negb (enable_local_fallback self) then w
  else
    match json_dumps (PDict (event_dict ev)) with
    | inr line =>
        if writable E (local_log_file self)
        then {| files := <[local_log_file self :=
                             default [] (files w !! local_log_file self)
                             ++ [line +:+ String (ascii_of_nat 10) ""]]> (files w);
                posts := posts w |}
        else w
    | inl _ => w
    end.

(** The common tail of the three logging methods. *)
Definition emit (self : AuditLogger) (E : env) (w : world) (ev : event)
    : AuditLogger * world :=
  (* Log locally first (always) *)
  let w := _log_event_locally self E w ev in
  (* Post to Events API *)
  let '(success, self, w) := _post_event_to_api self E w ev 0 in
  if negb success
  then (set_queue self (deque_append QUEUE_MAXLEN (failed_events_queue self) ev), w)
  else (self, w).

Definition log_credential_access (self : AuditLogger) (E : env) (w : world)
    (now protocol agent_id resource outcome : string)
    (metadata : option (gmap string pyval)) : AuditLogger * world :=
  emit self E w
    (_create_event_payload now "credential_access" protocol agent_id resource
       outcome metadata).

Definition log_token_generation (self : AuditLogger) (E : env) (w : world)
    (now protocol agent_id resource : string) (ttl_minutes : Z)
    (metadata : option (gmap string pyval)) : AuditLogger * world :=
  let event_metadata : gmap string pyval := {[ "ttl_minutes" := PInt ttl_minutes ]} in
  let event_metadata :=
    match metadata with
    | Some m => if truthy (PDict m) then m ∪ event_metadata else event_metadata
    | None => event_metadata
    end in
  emit self E w
    (_create_event_payload now "token_generation" protocol agent_id resource
       "success" (Some event_metadata)).

Definition log_token_validation (self : AuditLogger) (E : env) (w : world)
    (now protocol agent_id : string) (success : bool)
    (metadata : option (gmap string pyval)) : AuditLogger * world :=
  let outcome := if success then "success" else "failure" in
  emit self E w
    (_create_event_payload now "token_validation" protocol agent_id
       "token_validation" outcome metadata).

End WithLibs.
End AuditLogger.

(** ** PBKDF2-HMAC-SHA256

    The key derivation that [_initialize_fernet] asks of [cryptography],
    as FIPS 180-4 (SHA-256), RFC 2104 (HMAC) and RFC 8018 (PBKDF2) define
    it, on lists of bytes. *)

Module Pbkdf2.

Definition byte_to_Z (b : byte) : Z := Z.of_N (Byte.to_N b).

Definition byte_of_Z (z : Z) : byte :=
  default x00 (Byte.of_N (Z.to_N (z mod 256))).

(** Words of 32 bits. *)
Definition w32 (x : Z) : Z := x mod 2 ^ 32.

Definition add32 (x y : Z) : Z := w32 (x + y).

Definition rotr (n x : Z) : Z := Z.lor (Z.shiftr x n) (w32 (Z.shiftl x (32 - n))).

Definition Ch (x y z : Z) : Z :=
  Z.lxor (Z.land x y) (Z.land (Z.lxor x 0xffffffff) z).

Definition Maj (x y z : Z) : Z :=
  Z.lxor (Z.lxor (Z.land x y) (Z.land x z)) (Z.land y z).

Definition Sigma0 (x : Z) : Z := Z.lxor (Z.lxor (rotr 2 x) (rotr 13 x)) (rotr 22 x).
Definition Sigma1 (x : Z) : Z := Z.lxor (Z.lxor (rotr 6 x) (rotr 11 x)) (rotr 25 x).
Definition sigma0 (x : Z) : Z := Z.lxor (Z.lxor (rotr 7 x) (rotr 18 x)) (Z.shiftr x 3).
Definition sigma1 (x : Z) : Z := Z.lxor (Z.lxor (rotr 17 x) (rotr 19 x)) (Z.shiftr x 10).

(** The first [n] primes: [c] is the candidate, [found] holds the primes
    below it, largest first. *)
Fixpoint primes_from (fuel n : nat) (c : Z) (found : list Z) : list Z :=
  match fuel, n with
  | O, _ | _, O => rev found
  | S fuel', S n' =>
      if forallb (fun p => negb (c mod p =? 0)) found
      then primes_from fuel' n' (c + 1) (c :: found)
      else primes_from fuel' n (c + 1) found
  end.

Definition primes (n : nat) : list Z := primes_from 400 n 2 [].

(** The integer cube root, found bit by bit from bit [n - 1] down. *)
Fixpoint cbrt_bits (n : nat) (x r : Z) : Z :=
  match n with
  | O => r
  | S n' =>
      let r' := r + 2 ^ Z.of_nat n' in
      cbrt_bits n' x (if r' * r' * r' <=? x then r' else r)
  end.

(** The round constants: the first 32 bits of the fractional parts of the
    cube roots of the first 64 primes. *)
Definition K256 : list Z :=
  Eval vm_compute in map (fun p => w32 (cbrt_bits 36 (p * 2 ^ 96) 0)) (primes 64).

(** The initial hash value: the same of the square roots of the first 8
    primes. *)
Definition H256 : list Z :=
  Eval vm_compute in map (fun p => w32 (Z.sqrt (p * 2 ^ 64))) (primes 8).

(** Big-endian numbers: [n] bytes of [x], and the number of a list of bytes. *)
Fixpoint be_bytes (n : nat) (x : Z) : list byte :=
  match n with
  | O => []
  | S n' => be_bytes n' (Z.shiftr x 8) ++ [byte_of_Z x]
  end.

Definition be_number (l : list byte) : Z :=
  fold_left (fun acc b => acc * 256 + byte_to_Z b) l 0.

(** The message with its padding: the bit 1, zeros up to 56 modulo 64
    bytes, and the length in bits on 64 bits. *)
Definition pad (m : list byte) : list byte :=
  let n := Z.of_nat (length m) in
  m ++ [x80] ++ replicate (Z.to_nat ((55 - n) mod 64)) x00 ++ be_bytes 8 (8 * n).

(** The list cut into pieces of [n] elements ([fuel] is the number of
    pieces at most). *)
Fixpoint chunks {A} (fuel n : nat) (l : list A) : list (list A) :=
  match fuel, l with
  | O, _ | _, [] => []
  | S fuel', _ => take n l :: chunks fuel' n (drop n l)
  end.

(** The message schedule: [w] holds the words so far, latest first. *)
Fixpoint schedule (n : nat) (w : list Z) : list Z :=
  match n with
  | O => rev w
  | S n' =>
      let x := add32 (add32 (sigma1 (nth 1 w 0)) (nth 6 w 0))
                 (add32 (sigma0 (nth 14 w 0)) (nth 15 w 0)) in
      schedule n' (x :: w)
  end.

(** One round on the working variables [a .. h]. *)
Definition round (s : list Z) (kw : Z * Z) : list Z :=
  match s with
  | [a; b; c; d; e; f; g; h] =>
      let t1 := add32 (add32 (add32 h (Sigma1 e)) (add32 (Ch e f g) kw.1)) kw.2 in
      let t2 := add32 (Sigma0 a) (Maj a b c) in
      [add32 t1 t2; a; b; c; add32 d t1; e; f; g]
  | _ => s
  end.

Definition compress (h : list Z) (block : list byte) : list Z :=
  let w := schedule 48 (rev (map be_number (chunks 16 4 block))) in
  zip_with add32 h (fold_left round (zip K256 w) h).

Definition sha256 (m : list byte) : list byte :=
  let p := pad m in
  flat_map (be_bytes 4) (fold_left compress (chunks (length p) 64 p) H256).

Definition xor_byte (a b : byte) : byte :=
  byte_of_Z (Z.lxor (byte_to_Z a) (byte_to_Z b)).

(** The key of HMAC as a block of 64 bytes: a longer key is hashed first,
    and the key is filled up with zeros. *)
Definition key_block (key : list byte) : list byte :=
  let k := if (64 <? length key)%nat then sha256 key else key in
  k ++ replicate (64 - length k) x00.

(** HMAC with the key block [k0]. *)
Definition hmac_block (k0 m : list byte) : list byte :=
  sha256 (map (xor_byte x5c) k0 ++ sha256 (map (xor_byte x36) k0 ++ m)).

Definition hmac_sha256 (key m : list byte) : list byte :=
  hmac_block (key_block key) m.

(** [U_1 xor ... xor U_c] of PBKDF2, after [u] with [acc] so far and [n]
    more to go. *)
Fixpoint xor_chain (k0 : list byte) (n : nat) (u acc : list byte) : list byte :=
  match n with
  | O => acc
  | S n' =>
      let u' := hmac_block k0 u in
      xor_chain k0 n' u' (zip_with xor_byte acc u')
  end.

(** The block [T_i]. *)
Definition T (k0 salt : list byte) (c : nat) (i : nat) : list byte :=
  let u1 := hmac_block k0 (salt ++ be_bytes 4 (Z.of_nat i)) in
  xor_chain k0 (c - 1) u1 u1.

(** [PBKDF2HMAC(SHA256, length, salt, iterations).derive(key_material)] *)
Definition pbkdf2_hmac_sha256 (len : Z) (salt : list byte) (iterations : Z)
    (key_material : list byte) : list byte :=
  let k0 := key_block key_material in
  let l := Z.to_nat ((len + 31) / 32) in
  take (Z.to_nat len)
    (flat_map (T k0 salt (Z.to_nat iterations)) (seq 1 l)).

(** An ASCII text as bytes. *)
Definition of_text (s : string) : list byte :=
  map byte_of_ascii (list_ascii_of_string s).

End Pbkdf2.

(** ** A small implementation of the libraries

    It makes the model executable and shows that the contracts [LibsOk] and
    [IdealCrypto] can be met together.  Texts are coded one byte per
    character, dictionaries are written in a simple self-delimiting
    notation, and a token carries its key in the clear: the functional
    behaviour of the real libraries, not their secrecy.  In [libs] a derived
    key is the key material itself; [hmac_libs] derives it by
    PBKDF2-HMAC-SHA256. *)

Module RefLibs.
Import Py Lib.

Definition str_encode (s : string) : bytes :=
  map byte_of_ascii (Str.of_string s).

Definition bytes_decode (b : bytes) : result string :=
  inr (Str.to_string (map ascii_of_byte b)).

(** A string in front of [rest]: every character is announced by "c" and
    the string is closed by ".". *)
Fixpoint enc_str (s rest : string) : string :=
  match s with
  | EmptyString => String "." rest
  | String a s' => String "c" (String a (enc_str s' rest))
  end.

Fixpoint dec_str (s : string) : option (string * string) :=
  match s with
  | String "." rest => Some (EmptyString, rest)
  | String "c" (String a s') =>
      match dec_str s' with
      | Some (x, rest) => Some (String a x, rest)
      | None => None
      end
  | _ => None
  end.

Fixpoint pos_to_str (p : positive) : string :=
  match p with
  | xH => ""
  | xO p' => String "0" (pos_to_str p')
  | xI p' => String "1" (pos_to_str p')
  end.

Fixpoint str_to_pos (s : string) : option positive :=
  match s with
  | EmptyString => Some xH
  | String c s' =>
      match str_to_pos s' with
      | Some p => if Ascii.eqb c "0" then Some (xO p)
                  else if Ascii.eqb c "1" then Some (xI p)
                  else None
      | None => None
      end
  end.

Definition z_to_str (z : Z) : string :=
  match z with
  | Z0 => "0"
  | Zpos p => String "+" (pos_to_str p)
  | Zneg p => String "-" (pos_to_str p)
  end.

Definition str_to_z (s : string) : option Z :=
  match s with
  | String "0" EmptyString => Some Z0
  | String "+" s' => Zpos <$> str_to_pos s'
  | String "-" s' => Zneg <$> str_to_pos s'
  | _ => None
  end.

(** The values with a JSON form that the implementation writes. *)
Definition flat : Type := unit + (bool + (Z + string)).

Definition to_flat (v : pyval) : option flat :=
  match v with
  | PNone => Some (inl tt)
  | PBool b => Some (inr (inl b))
  | PInt z => Some (inr (inr (inl z)))
  | PStr s => Some (inr (inr (inr s)))
  | _ => None
  end.

Definition of_flat (f : flat) : pyval :=
  match f with
  | inl _ => PNone
  | inr (inl b) => PBool b
  | inr (inr (inl z)) => PInt z
  | inr (inr (inr s)) => PStr s
  end.

Definition is_flat (v : pyval) : bool :=
  match to_flat v with Some _ => true | None => false end.

Definition flatten (d : gmap string pyval) : option (gmap string flat) :=
  if forallb (fun kv => is_flat kv.2) (map_to_list d)
  then Some (omap to_flat d)
  else None.

Definition ser_flat (v : flat) (rest : string) : string :=
  match v with
  | inl _ => String "n" rest
  | inr (inl true) => String "t" rest
  | inr (inl false) => String "f" rest
  | inr (inr (inl z)) => String "i" (enc_str (z_to_str z) rest)
  | inr (inr (inr s)) => String "s" (enc_str s rest)
  end.

Definition dec_flat (s : string) : option (flat * string) :=
  match s with
  | String "n" rest => Some (inl tt, rest)
  | String "t" rest => Some (inr (inl true), rest)
  | String "f" rest => Some (inr (inl false), rest)
  | String "i" r =>
      match dec_str r with
      | Some (x, rest) =>
          match str_to_z x with
          | Some z => Some (inr (inr (inl z)), rest)
          | None => None
          end
      | None => None
      end
  | String "s" r =>
      match dec_str r with
      | Some (x, rest) => Some (inr (inr (inr x)), rest)
      | None => None
      end
  | _ => None
  end.

Fixpoint ser_entries (l : list (string * flat)) : string :=
  match l with
  | [] => "."
  | (k, v) :: l' => String "k" (enc_str k (ser_flat v (ser_entries l')))
  end.

Fixpoint dec_entries (fuel : nat) (s : string) : option (list (string * flat)) :=
  match fuel with
  | O => None
  | S fuel' =>
      match s with
      | String "." EmptyString => Some []
      | String "k" r =>
          match dec_str r with
          | Some (k, r1) =>
              match dec_flat r1 with
              | Some (v, r2) =>
                  match dec_entries fuel' r2 with
                  | Some l => Some ((k, v) :: l)
                  | None => None
                  end
              | None => None
              end
          | None => None
          end
      | _ => None
      end
  end.

Definition ser_dict (m : gmap string flat) : string := ser_entries (map_to_list m).

Definition dec_dict (s : string) : option (gmap string flat) :=
  list_to_map <$> dec_entries (String.length s) s.

Definition json_dumps (v : pyval) : result string :=
  match v with
  | PDict d =>
      match flatten d with
      | Some m => inr (ser_dict m)
      | None => raise (TypeError "Object is not JSON serializable")
      end
  | _ => raise (TypeError "Object is not JSON serializable")
  end.

Definition json_loads (s : string) : result pyval :=
  match dec_dict s with
  | Some m => inr (PDict (of_flat <$> m))
  | None => raise (JSONDecodeError "Expecting value")
  end.

Definition pbkdf2_hmac_sha256 (len : Z) (salt : bytes) (iterations : Z)
    (key_material : bytes) : bytes := key_material.

Definition urlsafe_b64encode (b : bytes) : bytes := b.

(** Two byte strings in one: every byte of the first is announced by
    [x01], and [x00] starts the second. *)
Definition pair_bytes (k m : bytes) : bytes :=
  flat_map (fun c => [x01; c]) k ++ x00 :: m.

Fixpoint unpair_bytes (l : bytes) : option (bytes * bytes) :=
  match l with
  | x00 :: m => Some ([], m)
  | x01 :: c :: l' =>
      match unpair_bytes l' with
      | Some (k, m) => Some (c :: k, m)
      | None => None
      end
  | _ => None
  end.

Definition fernet_encrypt (key iv data : bytes) : bytes :=
  pair_bytes key (pair_bytes iv data).

Definition fernet_decrypt (key token : bytes) : result bytes :=
  match unpair_bytes token with
  | Some (k, rest) =>
      if bool_decide (k = key)
      then match unpair_bytes rest with
           | Some (_, data) => inr data
           | None => raise InvalidToken
           end
      else raise InvalidToken
  | None => raise InvalidToken
  end.

Definition jwt_encode (payload : gmap string pyval) (key alg : string)
    : result string :=
  match flatten (jwt_time_claims payload) with
  | Some m => inr (enc_str key (enc_str alg (ser_dict m)))
  | None => raise (TypeError "Object is not JSON serializable")
  end.

Definition expired (claims : gmap string pyval) (now : Z) : bool :=
  match claims !! "exp" with
  | Some (PInt e) => e * 1000000 <=? now
  | _ => false
  end.

Definition jwt_decode (token key : string) (algorithms : list string)
    (verify_exp : bool) (now : Z) : result (gmap string pyval) :=
  match dec_str token with
  | Some (k, r1) =>
      match dec_str r1 with
      | Some (alg, r2) =>
          match dec_dict r2 with
          | Some m =>
              if bool_decide (k = key) && bool_decide (alg ∈ algorithms)
              then
                let claims := of_flat <$> m in
                if verify_exp && expired claims now
                then raise (ExpiredSignatureError "Signature has expired")
                else inr claims
              else raise (InvalidTokenError "Signature verification failed")
          | None => raise (InvalidTokenError "Invalid payload string")
          end
      | None => raise (InvalidTokenError "Not enough segments")
      end
  | None => raise (InvalidTokenError "Not enough segments")
  end.

#[export] Instance libs : Libs :=
  {| Lib.str_encode := str_encode;
     Lib.bytes_decode := bytes_decode;
     Lib.json_dumps := json_dumps;
     Lib.json_loads := json_loads;
     Lib.pbkdf2_hmac_sha256 := pbkdf2_hmac_sha256;
     Lib.urlsafe_b64encode := urlsafe_b64encode;
     Lib.fernet_encrypt := fernet_encrypt;
     Lib.fernet_decrypt := fernet_decrypt;
     Lib.jwt_encode := jwt_encode;
     Lib.jwt_decode := jwt_decode |}.

(** The same implementation with the key derivation as it really is. *)
Definition hmac_libs : Libs :=
  {| Lib.str_encode := str_encode;
     Lib.bytes_decode := bytes_decode;
     Lib.json_dumps := json_dumps;
     Lib.json_loads := json_loads;
     Lib.pbkdf2_hmac_sha256 := Pbkdf2.pbkdf2_hmac_sha256;
     Lib.urlsafe_b64encode := urlsafe_b64encode;
     Lib.fernet_encrypt := fernet_encrypt;
     Lib.fernet_decrypt := fernet_decrypt;
     Lib.jwt_encode := jwt_encode;
     Lib.jwt_decode := jwt_decode |}.

End RefLibs.

(** ** A sample installation, to run the model on *)

Module Sample.
Import Py Lib OnePasswordClient.

Definition item_postgres : Item :=
  {| Item_id := "item-1";
     Item_title := "Production-Postgres";
     Item_username := Some "admin";
     Item_fields := Some [ {| Field_label := Some "password"; Field_value := Some "s3cret" |};
                           {| Field_label := Some "port"; Field_value := Some "" |};
                           {| Field_label := Some "host"; Field_value := Some "db.internal" |} ];
     Item_vault := None |}.

Definition connect : Connect :=
  {| client_get_items := fun _ => inr [item_postgres];
     client_get_item := fun _ _ => inr item_postgres |}.

Definition op_client : OnePasswordClient :=
  {| connect_host := "http://localhost:8080";
     connect_token := "connect-token";
     vault_id := Some "vault-1";
     client := connect |}.

Definition secret : string := "test-secret-key-with-at-least-32-characters".

(** The same secret followed by the character U+0000. *)
Definition padded_secret : string := secret +:+ String Ascii.zero "".

(** Token managers whose ciphers are made of the two in [hmac_libs]. *)
Definition hmac_mgr : TokenManager.TokenManager :=
  {| TokenManager.jwt_secret := secret;
     TokenManager.jwt_algorithm := "HS256";
     TokenManager.default_ttl_minutes := TokenManager.DEFAULT_TTL_MINUTES;
     TokenManager.fernet := TokenManager._initialize_fernet (L := RefLibs.hmac_libs) secret |}.

Definition padded_mgr : TokenManager.TokenManager :=
  {| TokenManager.jwt_secret := padded_secret;
     TokenManager.jwt_algorithm := "HS256";
     TokenManager.default_ttl_minutes := TokenManager.DEFAULT_TTL_MINUTES;
     TokenManager.fernet :=
       TokenManager._initialize_fernet (L := RefLibs.hmac_libs) padded_secret |}.

Definition token_mgr : TokenManager.TokenManager :=
  {| TokenManager.jwt_secret := secret;
     TokenManager.jwt_algorithm := "HS256";
     TokenManager.default_ttl_minutes := TokenManager.DEFAULT_TTL_MINUTES;
     TokenManager.fernet := TokenManager._initialize_fernet (L := RefLibs.libs) secret |}.

Definition manager : CredentialManager.CredentialManager :=
  {| CredentialManager.op_client := op_client;
     CredentialManager.token_mgr := token_mgr |}.

Definition credentials : gmap string string :=
  <["username" := "admin"]> (<["password" := "s3cret"]> ∅).

(** 2025-10-23 12:34:56.250000 UTC *)
Definition now : Z := 1761222896250000.

Definition iv : list byte := [x2a].

(** A token issued for ten minutes. *)
Definition token : string :=
  match TokenManager.generate_jwt (L := RefLibs.libs) token_mgr "agent-1"
          (str_dict credentials) "database" "prod-db" (Some 10) None now iv with
  | inr t => t
  | inl _ => ""
  end.

(** What [verify_jwt] makes of it one second later. *)
Definition token_claims : gmap string pyval :=
  match TokenManager.verify_jwt (L := RefLibs.libs) token_mgr token (now + 1000000) with
  | inr claims => claims
  | inl _ => ∅
  end.

(** A signed token without the claim [credentials]. *)
Definition bare_claims : gmap string pyval :=
  <["sub" := PStr "agent-1"]> (<["exp" := PInt 1761223496]> ∅).

Definition bare_token : string :=
  match RefLibs.jwt_encode bare_claims secret "HS256" with
  | inr t => t
  | inl _ => ""
  end.

End Sample.

(** ** Vocabulary of the statements *)

(** Every character of [l] is in the class [c]. *)
Abbreviation all c l := (Forall (fun a => Re.cset_mem c a = true) l).

Section IntentVocabulary.
Import Re IntentParser.

(** The three fields of a parsed intent that the tests look at. *)
Definition parsed (text : string) : string * option string * Z :=
  let i := parse_intent text in (resource_type i, resource_name i, duration_minutes i).

(** The typed patterns in the order in which [parse_intent] tries them. *)
Definition typed_patterns : list (string * regex) :=
  flat_map (fun '(ty, ps) => map (pair ty) ps) PATTERNS.

(** A duration expression at the head of [s]: digits [N], white space
    [ws], and a unit that begins with "min" in either case. *)
Definition duration_expr (s N : list ascii) : Prop :=
  exists ws u suf,
    s = N ++ ws ++ u ++ suf /\ N <> [] /\ all CDigit N /\ all CSpace ws
    /\ map fold_case u = Str.of_string "min".

(** The text [t] contains a duration expression. *)
Definition has_duration_expr (t : list ascii) : Prop :=
  exists pre s N, t = pre ++ s /\ duration_expr s N.

(** [(?:minute|min|minutes|mins)] *)
Definition units : regex :=
  alts [lit "minute"; lit "min"; lit "minutes"; lit "mins"].

(** Every path through [r] goes through the capture group. *)
Fixpoint sets_group (r : regex) : bool :=
  match r with
  | Group _ => true
  | Seq r1 r2 => sets_group r1 || sets_group r2
  | Alt r1 r2 => sets_group r1 && sets_group r2
  | _ => false
  end.

End IntentVocabulary.

Definition metadata_keys : list string := ["_item_id"; "_item_title"; "_vault_id"].

Section AuditVocabulary.
Import Py Lib AuditLogger.
Context {L : Libs}.

(** No request to the collector gets one of the accepted status codes. *)
Definition rejecting (E : env) : Prop :=
  forall n, match collector E n with
            | Response code => code ∉ [200; 201; 202]
            | RequestError => True
            end.

(** The arguments of one call of [log_credential_access]. *)
Record access : Type := {
  a_now : string;
  a_protocol : string;
  a_agent_id : string;
  a_resource : string;
  a_outcome : string;
  a_metadata : option (gmap string pyval)
}.

Definition access_event (a : access) : event :=
  _create_event_payload (a_now a) "credential_access" (a_protocol a)
    (a_agent_id a) (a_resource a) (a_outcome a) (a_metadata a).

(** A run of calls of [log_credential_access], in order. *)
Definition log_all (self : AuditLogger) (E : env) (w : world) (calls : list access)
    : AuditLogger * world :=
  fold_left (fun '(self, w) a =>
               log_credential_access self E w (a_now a) (a_protocol a)
                 (a_agent_id a) (a_resource a) (a_outcome a) (a_metadata a))
            calls (self, w).

End AuditVocabulary.

Section TokenVocabulary.
Import Py TokenManager.

Definition invalid_data : exn := ValueError "Invalid or corrupted encrypted data".

Definition no_payload : exn :=
  ValueError "Token does not contain encrypted credentials".

(** The dictionary that [verify_and_decrypt] returns for the verified
    claims [payload] and the decrypted credentials [creds]. *)
Definition token_context (payload : gmap string pyval) (creds : pyval)
    : decrypted_token :=
  {| agent_id := dict_get payload "sub";
     credentials := creds;
     resource_type := dict_get payload "resource_type";
     resource_name := dict_get payload "resource_name";
     issued_at := dict_get payload "iat";
     expires_at := dict_get payload "exp";
     ttl_minutes := dict_get payload "ttl_minutes" |}.

End TokenVocabulary.

(** ** Further methods of [str] *)

Module Text.

(** [s.lstrip()], [s.rstrip()] and [s.strip()]: white space is what
    [str.isspace] accepts, the class [\s] of the patterns. *)
Fixpoint lstrip (s : list ascii) : list ascii :=
  match s with
  | a :: s' => if Str.is_space a then lstrip s' else s
  | [] => []
  end.

Definition rstrip (s : list ascii) : list ascii := rev (lstrip (rev s)).

Definition strip (s : string) : string :=
  Str.to_string (rstrip (lstrip (Str.of_string s))).

(** [s.split()]: the maximal runs of characters that are not white space;
    [word] is the run that is being read. *)
Fixpoint split_from (s word : list ascii) : list (list ascii) :=
  match s with
  | [] => match word with [] => [] | _ => [word] end
  | a :: s' =>
      if Str.is_space a
      then match word with
           | [] => split_from s' []
           | _ => word :: split_from s' []
           end
      else split_from s' (word ++ [a])
  end.

Definition split (s : string) : list string :=
  map Str.to_string (split_from (Str.of_string s) []).

(** [s[:n]] and [len(s)] *)
Definition slice_to (n : nat) (s : string) : string :=
  Str.to_string (take n (Str.of_string s)).

Definition len (s : string) : nat := length (Str.of_string s).

End Text.

(** ** More of PyJWT and of the arithmetic of [datetime] *)

Module PyJWT.
Import Py Lib.

(** [str(e)] *)
Definition exn_str (e : exn) : string :=
  match e with
  | ValueError msg | TypeError msg | AttributeError msg | OverflowError msg
  | UnicodeDecodeError msg | JSONDecodeError msg | ExpiredSignatureError msg
  | InvalidTokenError msg | Exception msg => msg
  | InvalidToken => ""
  end.

(** The expiry check of [jwt.decode]: with [verify_exp] a token that
    decodes without it and carries a whole number of seconds [e] as [exp]
    is refused from the instant [e] on, and decodes as before until then. *)
Class ExpiryOk (L : Libs) : Prop := {
  jwt_decode_verify_exp : forall tok key algs now claims e,
    jwt_decode tok key algs false now = inr claims ->
    claims !! "exp" = Some (PInt e) ->
    jwt_decode tok key algs true now
    = if e * 1000000 <=? now
      then inl (ExpiredSignatureError "Signature has expired")
      else inr claims
}.

(** A Fernet token is never the empty text. *)
Class FernetOk (L : Libs) : Prop := {
  fernet_token_nonempty : forall key iv data,
    bytes_decode (fernet_encrypt key iv data) <> inr ""
}.

(** [int(td.total_seconds())] for a [timedelta] of [us] microseconds.
    [total_seconds] is a binary floating-point quotient: it is the exact
    quotient rounded to the nearest double, which stays below the next whole
    number as long as the span is shorter than 2^34 seconds. *)
Class Floats : Type := {
  int_total_seconds : Z -> Z
}.

Class FloatsOk (F : Floats) : Prop := {
  int_total_seconds_floor : forall us,
    0 <= us < 2 ^ 34 * 1000000 -> int_total_seconds us = us / 1000000
}.

(** [datetime.fromtimestamp(v, tz=timezone.utc)], in microseconds since the
    epoch: [v] has to be a number, in the years 1 to 9999. *)
Definition fromtimestamp (v : pyval) : result Z :=
  match v with
  | PInt z =>
      if (datetime_min <=? z * 1000000) && (z * 1000000 <=? datetime_max)
      then inr (z * 1000000)
      else raise (ValueError "year is out of range")
  | PBool b => inr (if b then 1000000 else 0)
  | _ => raise (TypeError "an integer is required")
  end.

End PyJWT.

(** ** [TokenManager]: the queries on a token (token_manager.py) *)

Module TokenQueries.
Import Py Lib TokenManager PyJWT.

Section WithLibs.
Context {L : Libs}.

(** [is_token_expired]: the two [except] clauses catch the errors of
    PyJWT's [InvalidTokenError] family; anything else goes through. *)
Definition is_token_expired (self : TokenManager) (token : string) (now : Z)
    : result bool :=
  match verify_jwt self token now with
  | inr _ => inr false
  | inl (ExpiredSignatureError _) => inr true
  | inl (InvalidTokenError _) =>
      (* Invalid token is considered "expired" for safety *)
      inr true
  | inl e => inl e
  end.

(** [get_token_expiration]: the expiry as an aware datetime, or [None];
    [except Exception] turns every failure into [None]. *)
Definition get_token_expiration (self : TokenManager) (token : string) (now : Z)
    : option Z :=
  match jwt_decode token (jwt_secret self) [jwt_algorithm self] false now with
  | inr payload =>
      let exp_timestamp := dict_get payload "exp" in
      if truthy exp_timestamp
      then match fromtimestamp exp_timestamp with
           | inr dt => Some dt
           | inl _ => None
           end
      else None
  | inl _ => None
  end.

(** [get_time_until_expiry], in microseconds; the token is decoded when the
    clock shows [now_decode], and [datetime.now] then returns [now]. *)
Definition get_time_until_expiry (self : TokenManager) (token : string)
    (now_decode now : Z) : option Z :=
  match get_token_expiration self token now_decode with
  | None => None
  | Some exp =>
      if exp <=? now then Some 0   (* Already expired *)
      else Some (exp - now)
  end.

End WithLibs.
End TokenQueries.

(** ** [CredentialManager]: validation of a token (credential_manager.py) *)

Module TokenValidation.
Import Py Lib PyJWT TokenQueries CredentialManager.

Section WithLibs.
Context {L : Libs} {F : Floats}.

(** The dictionary returned by [validate_token]. *)
Record validation : Type := {
  valid : bool;
  agent_id : pyval;
  resource_type : pyval;
  resource_name : pyval;
  issued_at : pyval;
  expires_at : pyval;
  time_remaining : Z
}.

(** [validate_token]; the clock is read three times: by [verify_jwt], by
    the decoding in [get_token_expiration], and by [get_time_until_expiry]. *)
Definition validate_token (self : CredentialManager) (token : string)
    (now1 now2 now3 : Z) : result validation :=
  do payload <- TokenManager.verify_jwt (token_mgr self) token now1;
  let time_remaining := get_time_until_expiry (token_mgr self) token now2 now3 in
  let time_remaining_seconds :=
    match time_remaining with
    | Some td => if td =? 0 then 0 else int_total_seconds td
    | None => 0
    end in
  inr {| valid := true;
         agent_id := dict_get payload "sub";
         resource_type := dict_get payload "resource_type";
         resource_name := dict_get payload "resource_name";
         issued_at := dict_get payload "iat";
         expires_at := dict_get payload "exp";
         time_remaining := time_remaining_seconds |}.

(** [get_credentials_from_token]: its [except] clause logs and re-raises. *)
Definition get_credentials_from_token (self : CredentialManager) (token : string)
    (now : Z) : result TokenManager.decrypted_token :=
  TokenManager.verify_and_decrypt (token_mgr self) token now.

End WithLibs.
End TokenValidation.

(** ** [OnePasswordClient] and [CredentialManager]: vaults and health *)

Module Health.
Import Py Lib PyJWT OnePasswordClient CredentialManager.

(** The SDK's vault model, and the Connect server's answer to
    [client.get_vault]. *)
Record Vault : Type := {
  Vault_id : string;
  Vault_name : string
}.

Definition get_vault (self : OnePasswordClient)
    (client_get_vault : string -> result Vault) (vault : option string)
    : result Vault :=
  let target := str_or vault (vault_id self) in
  if negb (str_truthy target) then raise (ValueError "vault_id is required")
  else client_get_vault (default "" target).

Definition list_items (self : OnePasswordClient) (log : list call)
    (vault : option string) : result (list Item) * list call :=
  let target := str_or vault (vault_id self) in
  if negb (str_truthy target) then (raise (ValueError "vault_id is required"), log)
  else
    let target_vault_id := default "" target in
    (client_get_items (client self) target_vault_id,
     log ++ [CallClientGetItems target_vault_id]).

(** [OnePasswordClient.health_check] *)
Definition op_health_check (self : OnePasswordClient)
    (client_get_vault : string -> result Vault) : gmap string pyval :=
  match get_vault self client_get_vault None with
  | inr vault =>
      <["status" := PStr "healthy"]>
      (<["connected" := PBool true]>
      (<["vault_accessible" := PBool true]>
      (<["vault_name" := PStr (Vault_name vault)]>
      (<["message" := PStr "1Password Connect API is accessible"]> ∅))))
  | inl e =>
      <["status" := PStr "unhealthy"]>
      (<["connected" := PBool false]>
      (<["vault_accessible" := PBool false]>
      (<["error" := PStr (exn_str e)]>
      (<["message" := PStr "Failed to connect to 1Password Connect API"]> ∅))))
  end.

(** [x == s] for a string literal [s] *)
Definition eq_str (x : pyval) (s : string) : bool :=
  match x with
  | PStr y => String.eqb y s
  | _ => false
  end.

(** [CredentialManager.health_check] *)
Definition health_check (self : CredentialManager)
    (client_get_vault : string -> result Vault) : gmap string pyval :=
  (* Check 1Password connection *)
  let op_health := op_health_check (op_client self) client_get_vault in
  (* Check token manager (simple verification) *)
  let token_health : gmap string pyval :=
    <["status" := PStr "healthy"]>
    (<["configured" := PBool true]>
    (<["algorithm" := PStr (TokenManager.jwt_algorithm (token_mgr self))]>
    (<["default_ttl" := PInt (TokenManager.default_ttl_minutes (token_mgr self))]> ∅))) in
  let overall_healthy :=
    eq_str (dict_get op_health "status") "healthy"
    && eq_str (dict_get token_health "status") "healthy" in
  <["status" := PStr (if overall_healthy then "healthy" else "degraded")]>
  (<["components" := PDict (<["onepassword" := PDict op_health]>
                           (<["token_manager" := PDict token_health]> ∅))]> ∅).

End Health.

(** ** [AuditLogger]: the retry queue (audit_logger.py) *)

Module AuditRetry.
Import Py Lib AuditLogger.

(** [close] *)
Definition close (self : AuditLogger) : AuditLogger :=
  if http_client self
  then {| events_api_url := events_api_url self;
          events_api_token := events_api_token self;
          max_retries := max_retries self;
          enable_local_fallback := enable_local_fallback self;
          local_log_file := local_log_file self;
          failed_events_queue := failed_events_queue self;
          http_client := false;
          events_api_enabled := events_api_enabled self |}
  else self.

(** The loop [while self.failed_events_queue: event = popleft(); ...] of
    [retry_failed_events]; [queue] is the deque at the head of the loop. *)
Fixpoint retry_loop (queue : list event) (self : AuditLogger) (E : env) (w : world)
    (successful : Z) (failed_again : list event)
    : Z * list event * AuditLogger * world :=
  match queue with
  | [] => (successful, failed_again, self, w)
  | event :: queue' =>
      let self := set_queue self queue' in
      let '(success, self, w) := _post_event_to_api self E w event 0 in
      if success
      then retry_loop queue' self E w (successful + 1) failed_again
      else retry_loop queue' self E w successful (failed_again ++ [event])
  end.

(** Re-queue events that failed again. *)
Definition requeue (self : AuditLogger) (failed_again : list event) : AuditLogger :=
  fold_left
    (fun self event =>
       set_queue self (deque_append QUEUE_MAXLEN (failed_events_queue self) event))
    failed_again self.

Definition retry_failed_events (self : AuditLogger) (E : env) (w : world)
    : Z * AuditLogger * world :=
  match failed_events_queue self with
  | [] => (0, self, w)
  | _ =>
      let '(successful, failed_again, self, w) :=
        retry_loop (failed_events_queue self) self E w 0 [] in
      (successful, requeue self failed_again, w)
  end.

Definition get_queue_size (self : AuditLogger) : Z :=
  Z.of_nat (length (failed_events_queue self)).

(** The dictionary returned by [get_stats]. *)
Record stats : Type := {
  stats_events_api_enabled : bool;
  failed_queue_size : Z;
  local_fallback_enabled : bool;
  stats_local_log_file : string
}.

Definition get_stats (self : AuditLogger) : stats :=
  {| stats_events_api_enabled := events_api_enabled self;
     failed_queue_size := Z.of_nat (length (failed_events_queue self));
     local_fallback_enabled := enable_local_fallback self;
     stats_local_log_file := local_log_file self |}.

End AuditRetry.

(** ** [SessionManager] (acp_server.py) *)

Module SessionManager.
Import Py.

Record MessagePart : Type := {
  content : string;
  content_type : string
}.

Record Message : Type := {
  parts : list MessagePart;
  role : option string;
  error : option string
}.

Inductive RunStatus : Type := COMPLETED | RUNNING | ERROR | FAILED.

Definition value (s : RunStatus) : string :=
  match s with
  | COMPLETED => "completed"
  | RUNNING => "running"
  | ERROR => "error"
  | FAILED => "failed"
  end.

(** One entry of a session's list [interactions]. *)
Record interaction : Type := {
  timestamp : string;
  run_id : string;
  input_summary : string;
  output_summary : string;
  status : string
}.

(** One value of the dictionary [self.sessions]. *)
Record session : Type := {
  session_id : string;
  created_at : string;
  last_activity : string;
  interactions : list interaction
}.

(** [_extract_summary] *)
Definition _extract_summary (messages : list Message) : string :=
  match messages with
  | [] => ""
  | _ =>
      (* Get first text part from first message *)
      match find (fun part => String.eqb (content_type part) "text/plain"
                               && negb (String.eqb (content part) ""))
                 (flat_map parts messages) with
      | Some part =>
          (* Truncate to 100 chars *)
          let content := Text.strip (content part) in
          if (100 <? Text.len content)%nat
          then Text.slice_to 100 content +:+ "..."
          else content
      | None => "No text content"
      end
  end.

(** [create_session]; [uuid4] is what [uuid.uuid4()] returns when it is
    called, [now1] and [now2] are the two readings of the clock, already in
    ISO format. *)
Definition create_session (sessions : gmap string session)
    (id : option string) (uuid4 now1 now2 : string)
    : string * gmap string session :=
  if str_truthy id && bool_decide (is_Some (sessions !! default "" id))
  then (default "" id, sessions)
  else
    let new_session_id :=
      if str_truthy id then default "" id else "session-" +:+ uuid4 in
    (new_session_id,
     <[new_session_id := {| session_id := new_session_id;
                            created_at := now1;
                            last_activity := now2;
                            interactions := [] |}]> sessions).

(** How [add_interaction] ends: it returns, or the subscript
    [self.sessions[session_id]] raises [KeyError]. *)
Inductive outcome : Type :=
| Returned
| KeyError (key : string).

(** The values that [add_interaction] takes from its surroundings:
    [uuid.uuid4()] and the readings of the clock. *)
Record surroundings : Type := {
  uuid4 : string;
  now_created : string;
  now_activity : string;
  now_interaction : string;
  now_last : string
}.

Definition add_interaction (sessions : gmap string session)
    (id run : string) (input_messages output_messages : list Message)
    (st : RunStatus) (sur : surroundings) : outcome * gmap string session :=
  (* Ensure session exists first *)
  let sessions :=
    if bool_decide (is_Some (sessions !! id)) then sessions
    else (create_session sessions (Some id) (uuid4 sur) (now_created sur)
            (now_activity sur)).2 in
  let i := {| timestamp := now_interaction sur;
              run_id := run;
              input_summary := _extract_summary input_messages;
              output_summary := _extract_summary output_messages;
              status := value st |} in
  match sessions !! id with
  | None => (KeyError id, sessions)
  | Some s =>
      (Returned,
       <[id := {| session_id := session_id s;
                  created_at := created_at s;
                  last_activity := now_last sur;
                  interactions := interactions s ++ [i] |}]> sessions)
  end.

Definition get_session (sessions : gmap string session) (id : string)
    : option session :=
  sessions !! id.

End SessionManager.

(** ** Bearer authentication of the A2A server (a2a_server.py) *)

Module A2A.
Import Py.

(** [BEARER_TOKEN = os.getenv("A2A_BEARER_TOKEN", "dev-token-change-in-production")] *)
Definition BEARER_TOKEN (environ : gmap string string) : string :=
  default "dev-token-change-in-production" (environ !! "A2A_BEARER_TOKEN").

Record HTTPException : Type := {
  status_code : Z;
  detail : string;
  headers : list (string * string)
}.

Definition unauthorized (detail : string) : HTTPException :=
  {| status_code := 401;
     detail := detail;
     headers := [("WWW-Authenticate", "Bearer")] |}.

(** [verify_bearer_token]: whatever goes wrong between [try] and [except]
    (the unpacking of [split()], the two [ValueError]s) becomes the second
    401. *)
Definition verify_bearer_token (environ : gmap string string)
    (authorization : option string) : HTTPException + string :=
  if negb (str_truthy authorization)
  then inl (unauthorized "Missing Authorization header")
  else
    match Text.split (default "" authorization) with
    | [scheme; token] =>
        if negb (String.eqb (OnePasswordClient.str_lower scheme) "bearer")
        then inl (unauthorized "Invalid authentication credentials")
        else if negb (String.eqb token (BEARER_TOKEN environ))
        then inl (unauthorized "Invalid authentication credentials")
        else inr "authenticated-agent"
    | _ => inl (unauthorized "Invalid authentication credentials")
    end.

End A2A.

(** ** The small implementation, continued *)

Module RefFloats.

#[export] Instance floats : PyJWT.Floats :=
  {| PyJWT.int_total_seconds := fun us => us / 1000000 |}.

End RefFloats.

(** ** Vocabulary of the further statements *)

Section IntentVocabulary2.
Import Re.

(** Every capture group of [r] is [(\S+)]. *)
Fixpoint word_groups (r : regex) : bool :=
  match r with
  | Group (Plus CNonSpace) => true
  | Group _ => false
  | Seq r1 r2 | Alt r1 r2 => word_groups r1 && word_groups r2
  | Opt r1 => word_groups r1
  | _ => true
  end.

(** A non-empty run of characters none of which is white space. *)
Definition is_word (w : list ascii) : Prop :=
  w <> [] /\ Forall (fun a => Str.is_space a = false) w.

(** [w] occurs in [s]. *)
Definition occurs_in (w s : list ascii) : Prop :=
  exists pre post, s = pre ++ w ++ post.

End IntentVocabulary2.

Section AuditVocabulary2.
Import Py Lib AuditLogger AuditRetry.
Context {L : Libs}.

(** The address that the events are posted to. *)
Definition events_url (self : AuditLogger) : string :=
  default "" (events_api_url self) +:+ "/events".

(** The state of the logger after a request has been attempted. *)
Definition with_client (self : AuditLogger) : AuditLogger :=
  if events_api_enabled self then _get_http_client self else self.

(** One call of a method of the logger. *)
Inductive audit_call : Type :=
| LogCredentialAccess (now protocol agent_id resource outcome : string)
    (metadata : option (gmap string pyval))
| LogTokenGeneration (now protocol agent_id resource : string) (ttl_minutes : Z)
    (metadata : option (gmap string pyval))
| LogTokenValidation (now protocol agent_id : string) (success : bool)
    (metadata : option (gmap string pyval))
| RetryFailedEvents
| Close.

Definition audit_step (self : AuditLogger) (E : env) (w : world) (c : audit_call)
    : AuditLogger * world :=
  match c with
  | LogCredentialAccess now protocol agent_id resource outcome metadata =>
      log_credential_access self E w now protocol agent_id resource outcome metadata
  | LogTokenGeneration now protocol agent_id resource ttl_minutes metadata =>
      log_token_generation self E w now protocol agent_id resource ttl_minutes metadata
  | LogTokenValidation now protocol agent_id success metadata =>
      log_token_validation self E w now protocol agent_id success metadata
  | RetryFailedEvents =>
      let '(_, self, w) := retry_failed_events self E w in (self, w)
  | Close => (close self, w)
  end.

(** A run of calls, in order. *)
Definition audit_run (self : AuditLogger) (E : env) (w : world)
    (calls : list audit_call) : AuditLogger * world :=
  fold_left (fun '(self, w) c => audit_step self E w c) calls (self, w).

(** The event that a logging call records. *)
Definition call_event (c : audit_call) : option event :=
  match c with
  | LogCredentialAccess now protocol agent_id resource outcome metadata =>
      Some (_create_event_payload now "credential_access" protocol agent_id resource
              outcome metadata)
  | LogTokenGeneration now protocol agent_id resource ttl_minutes metadata =>
      Some (_create_event_payload now "token_generation" protocol agent_id resource
              "success"
              (Some (match metadata with
                     | Some m => if truthy (PDict m)
                                 then m ∪ {[ "ttl_minutes" := PInt ttl_minutes ]}
                                 else {[ "ttl_minutes" := PInt ttl_minutes ]}
                     | None => {[ "ttl_minutes" := PInt ttl_minutes ]}
                     end)))
  | LogTokenValidation now protocol agent_id success metadata =>
      Some (_create_event_payload now "token_validation" protocol agent_id
              "token_validation" (if success then "success" else "failure") metadata)
  | RetryFailedEvents | Close => None
  end.

(** The settings of a logger, which no method changes. *)
Definition same_settings (a b : AuditLogger) : Prop :=
  events_api_url a = events_api_url b
  /\ events_api_token a = events_api_token b
  /\ max_retries a = max_retries b
  /\ enable_local_fallback a = enable_local_fallback b
  /\ local_log_file a = local_log_file b
  /\ events_api_enabled a = events_api_enabled b.

(** The keys of an event without metadata. *)
Definition event_keys : list string :=
  ["timestamp"; "event_type"; "protocol"; "agent_id"; "resource"; "outcome";
   "source"; "version"].

End AuditVocabulary2.

Section TokenVocabulary2.
Import Py Lib TokenManager.

(** The claims of a token that [generate_jwt] issues at [now] for [ttl]
    minutes, as PyJWT stores them; [enc] is the encrypted payload. *)
Definition issued_claims (agent_id enc resource_type resource_name : string)
    (now ttl : Z) : gmap string pyval :=
  jwt_time_claims
    (jwt_payload agent_id enc resource_type resource_name now
       (now + ttl * 60 * 1000000) ttl).

(** The second at which such a token expires. *)
Definition expiry (now ttl : Z) : Z := now / 1000000 + ttl * 60.

End TokenVocabulary2.

Section SessionVocabulary.
Import SessionManager.

(** One call of a method of the session manager that changes the store. *)
Inductive session_call : Type :=
| CreateSession (id : option string) (uuid4 now1 now2 : string)
| AddInteraction (id run : string) (input_messages output_messages : list Message)
    (st : RunStatus) (sur : surroundings).

Definition session_step (sessions : gmap string session) (c : session_call)
    : gmap string session :=
  match c with
  | CreateSession id uuid4 now1 now2 => (create_session sessions id uuid4 now1 now2).2
  | AddInteraction id run input_messages output_messages st sur =>
      (add_interaction sessions id run input_messages output_messages st sur).2
  end.

(** The session id that the call makes up when it is given none. *)
Definition generated_id (c : session_call) : string :=
  match c with
  | CreateSession _ uuid4 _ _ => "session-" +:+ uuid4
  | AddInteraction _ _ _ _ _ sur => "session-" +:+ SessionManager.uuid4 sur
  end.

(** The entry that [add_interaction] appends. *)
Definition new_interaction (run : string) (input_messages output_messages : list Message)
    (st : RunStatus) (sur : surroundings) : interaction :=
  {| timestamp := now_interaction sur;
     run_id := run;
     input_summary := _extract_summary input_messages;
     output_summary := _extract_summary output_messages;
     status := value st |}.

End SessionVocabulary.

(** ** Further samples to run the model on *)

Module Sample2.
Import Py Lib AuditLogger SessionManager.

(** A logger with a collector. *)
Definition logger : AuditLogger :=
  init (Some "https://events.example.com") (Some "events-token") 3 true "logs/audit.log".

Definition event1 : event :=
  _create_event_payload "2025-10-23T12:34:56Z" "credential_access" "MCP" "agent-1"
    "database/prod-db" "success" None.

Definition event2 : event :=
  _create_event_payload "2025-10-23T12:35:10Z" "credential_access" "ACP" "agent-2"
    "api/stripe" "error" None.

(** A collector whose first request fails and whose second is accepted. *)
Definition flaky : env :=
  {| collector := fun n => match n with
                           | O => RequestError
                           | 1%nat => Response 202
                           | _ => Response 500
                           end;
     writable := fun _ => true |}.

(** A collector that is out of service. *)
Definition unavailable : env :=
  {| collector := fun _ => Response 503; writable := fun _ => true |}.

(** A collector that accepts the first request only. *)
Definition once : env :=
  {| collector := fun n => match n with O => Response 200 | _ => Response 500 end;
     writable := fun _ => true |}.

Definition world0 : world := {| files := ∅; posts := [] |}.

(** What [fetch_and_issue_token] returns for the sample installation. *)
Definition issued : result CredentialManager.token_data * list OnePasswordClient.call :=
  CredentialManager.fetch_and_issue_token (L := RefLibs.libs) Sample.manager []
    "database" "production-postgres" "agent-1" (Some 10) None Sample.now
    (Sample.now + 1000000) Sample.iv.

Definition issued_token : string :=
  match issued.1 with
  | inr td => CredentialManager.token td
  | inl _ => ""
  end.

Definition request : Message :=
  {| parts := [ {| content := "{}"; content_type := "application/json" |};
                {| content := "  I need database credentials for prod-db  ";
                   content_type := "text/plain" |} ];
     role := Some "user";
     error := None |}.

Definition session1 : session :=
  {| session_id := "s1"; created_at := "2025-10-23T12:00:00";
     last_activity := "2025-10-23T12:00:00"; interactions := [] |}.

Definition moment : surroundings :=
  {| uuid4 := "123e4567"; now_created := "2025-10-23T12:34:56";
     now_activity := "2025-10-23T12:34:56"; now_interaction := "2025-10-23T12:34:57";
     now_last := "2025-10-23T12:34:58" |}.

End Sample2.

(** * Properties *)

(** ** The model on the inputs of the repository's tests *)

Section Tests.
Import IntentParser.

Example test_parse_database_credentials :
  parsed "I need database credentials for production-postgres"
  = ("database", Some "production-postgres", 5).
Proof. vm_compute. reflexivity. Qed.

Example test_parse_database_credentials_variations :
  map (fun text => (parsed text).1.1)
    ["database credentials for prod-db"; "db creds for test-database";
     "credentials for database my-postgres"; "need my-db database"]
  = ["database"; "database"; "database"; "database"].
Proof. vm_compute. reflexivity. Qed.

Example test_parse_api_credentials :
  parsed "Get API credentials for stripe-api" = ("api", Some "stripe-api", 5).
Proof. vm_compute. reflexivity. Qed.

Example test_parse_ssh_credentials :
  parsed "I need SSH keys for production-server"
  = ("ssh", Some "production-server", 5).
Proof. vm_compute. reflexivity. Qed.

Example test_parse_duration_variations :
  map (fun text => (parsed text).2)
    ["credentials for db for 5 minutes"; "get creds for 15 mins";
     "need access for 1 minute"; "credentials for 10 min"]
  = [5; 15; 1; 10].
Proof. vm_compute. reflexivity. Qed.

Example test_parse_duration_capped_at_15 :
  parsed "Get credentials for 100 minutes" = ("generic", Some "100", 15).
Proof. vm_compute. reflexivity. Qed.

Example test_parse_generic_fallback :
  parsed "credentials for my-secret" = ("generic", Some "my-secret", 5).
Proof. vm_compute. reflexivity. Qed.

Example test_parse_no_resource_name :
  parsed "Hello, how are you?" = ("generic", None, 5).
Proof. vm_compute. reflexivity. Qed.

End Tests.

(** ** The matcher: group 1 takes part in every match *)

Section Group1.
Import Re IntentParser.

Abbreviation captured x := (x <> Some (None : option (list ascii))).

Lemma orelse_captured (x y : option (option (list ascii))) :
  captured x -> captured y -> captured (orelse x y).
Proof. by destruct x. Qed.

Lemma star_from_captured c s (k : list ascii -> option (option (list ascii))) :
  (forall s', captured (k s')) -> captured (star_from c s k).
Proof.
  intros Hk. induction s as [|a s IH]; cbn [star_from]; [done|].
  destruct (cset_mem c a); [by apply orelse_captured | done].
Qed.

Lemma plus_from_captured c s (k : list ascii -> option (option (list ascii))) :
  (forall s', captured (k s')) -> captured (plus_from c s k).
Proof.
  intros Hk. destruct s as [|a s]; cbn [plus_from]; [done|].
  destruct (cset_mem c a); [by apply star_from_captured | done].
Qed.

Lemma rmatch_captured_all r :
  forall k, (forall s g, captured (k s g)) -> forall s g, captured (rmatch r s g k).
Proof.
  induction r as [|c|r1 IH1 r2 IH2|r1 IH1 r2 IH2|r1 IH1|c|c|r1 IH1];
    intros k Hk s g; cbn [rmatch].
  - apply Hk.
  - destruct s as [|a s]; [done|]. destruct (cset_mem c a); [apply Hk | done].
  - apply IH1. intros s' g'. by apply IH2.
  - apply orelse_captured; [by apply IH1 | by apply IH2].
  - apply orelse_captured; [by apply IH1 | apply Hk].
  - apply star_from_captured. intros s'. apply Hk.
  - apply plus_from_captured. intros s'. apply Hk.
  - apply IH1. intros s' g'. apply Hk.
Qed.

Lemma rmatch_captured_keep r :
  forall k, (forall s g, is_Some g -> captured (k s g)) ->
  forall s g, is_Some g -> captured (rmatch r s g k).
Proof.
  induction r as [|c|r1 IH1 r2 IH2|r1 IH1 r2 IH2|r1 IH1|c|c|r1 IH1];
    intros k Hk s g Hg; cbn [rmatch].
  - by apply Hk.
  - destruct s as [|a s]; [done|]. destruct (cset_mem c a); [by apply Hk | done].
  - apply IH1; [|done]. intros s' g' Hg'. by apply IH2.
  - apply orelse_captured; [by apply IH1 | by apply IH2].
  - apply orelse_captured; [by apply IH1 | by apply Hk].
  - apply star_from_captured. intros s'. by apply Hk.
  - apply plus_from_captured. intros s'. by apply Hk.
  - apply rmatch_captured_all. intros s' g'. by apply Hk.
Qed.

Lemma rmatch_captured_set r :
  sets_group r = true ->
  forall k, (forall s g, is_Some g -> captured (k s g)) ->
  forall s g, captured (rmatch r s g k).
Proof.
  induction r as [|c|r1 IH1 r2 IH2|r1 IH1 r2 IH2|r1 IH1|c|c|r1 IH1];
    cbn [sets_group]; try discriminate; intros Hr k Hk s g; cbn [rmatch].
  - destruct (sets_group r1) eqn:H1.
    + apply IH1; [done|]. intros s' g' Hg'. by apply rmatch_captured_keep.
    + apply rmatch_captured_all. intros s' g'. by apply IH2.
  - apply andb_prop in Hr as [H1 H2].
    apply orelse_captured; [by apply IH1 | by apply IH2].
  - apply rmatch_captured_all. intros s' g'. by apply Hk.
Qed.

Lemma search_captured r s : sets_group r = true -> captured (search r s).
Proof.
  intros Hr.
  assert (Hm : forall s', captured (match_at r s')).
  { intros s'. apply rmatch_captured_set; [done|].
    intros _ g [x ->]. discriminate. }
  induction s as [|a s IH]; cbn [search].
  - specialize (Hm []). by destruct (match_at r []).
  - specialize (Hm (a :: s)). by destruct (match_at r (a :: s)).
Qed.

(** The patterns of the parser all capture: [match.group(1)] is never
    [None], and [search_group1] is the group of [search]. *)
Lemma patterns_capture :
  forallb sets_group
    (database_patterns ++ api_patterns ++ ssh_patterns ++ generic_patterns
     ++ [duration_pattern]) = true.
Proof. reflexivity. Qed.

Lemma search_group1_spec r s g :
  sets_group r = true ->
  search_group1 r s = Some g <-> search r s = Some (Some g).
Proof.
  intros Hr. pose proof (search_captured r s Hr) as Hc. unfold search_group1.
  destruct (search r s) as [[x|]|]; [|done|]; split; congruence.
Qed.

End Group1.

(** ** The intent parser: priority of the patterns *)

Section Priority.
Import Re IntentParser.


Lemma first_match_None patterns t :
  (forall p, p ∈ patterns -> search_group1 p t = None) ->
  first_match patterns t = None.
Proof.
  induction patterns as [|p ps IH]; intros H; simpl; [done|].
  rewrite (H p) by left. apply IH. intros q Hq. apply H. by right.
Qed.

Lemma first_match_Some patterns t i p g :
  patterns !! i = Some p ->
  search_group1 p t = Some g ->
  (forall j q, (j < i)%nat -> patterns !! j = Some q -> search_group1 q t = None) ->
  first_match patterns t = Some g.
Proof.
  revert i. induction patterns as [|p0 ps IH]; intros i Hi Hg Hbefore; [done|].
  destruct i as [|i]; simpl in *.
  - injection Hi as ->. by rewrite Hg.
  - rewrite (Hbefore 0%nat p0) by (lia || done).
    apply (IH i); [done..|].
    intros j q Hj Hq. apply (Hbefore (S j) q); [lia | done].
Qed.

Lemma first_match_is_Some patterns t p :
  p ∈ patterns -> is_Some (search_group1 p t) -> is_Some (first_match patterns t).
Proof.
  induction 1 as [p ps | p p0 ps Hin IH]; intros Hm; simpl.
  - destruct Hm as [g ->]. by eexists.
  - destruct (search_group1 p0 t); [by eexists | by apply IH].
Qed.

Lemma typed_match_cons ty ps rest t :
  typed_match ((ty, ps) :: rest) t
  = match first_match ps t with
    | Some name => Some (ty, name)
    | None => typed_match rest t
    end.
Proof. reflexivity. Qed.

Lemma typed_match_first table t i ty p g :
  flat_map (fun '(ty, ps) => map (pair ty) ps) table !! i = Some (ty, p) ->
  search_group1 p t = Some g ->
  (forall j ty' q, (j < i)%nat ->
     flat_map (fun '(ty, ps) => map (pair ty) ps) table !! j = Some (ty', q) ->
     search_group1 q t = None) ->
  typed_match table t = Some (ty, g).
Proof.
  revert i. induction table as [|[rt ps] rest IH]; intros i Hi Hg Hbefore; [done|].
  rewrite typed_match_cons. cbn [flat_map] in Hi, Hbefore.
  destruct (decide (i < length ps)%nat) as [Hlt | Hge].
  - rewrite lookup_app_l in Hi by (by rewrite length_map).
    rewrite list_lookup_fmap in Hi.
    destruct (ps !! i) as [p'|] eqn:Hp; [|done].
    cbn in Hi. injection Hi as -> ->.
    rewrite (first_match_Some ps t i p g); [done..|].
    intros j q Hj Hq. apply (Hbefore j ty q Hj).
    rewrite lookup_app_l by (rewrite length_map; lia).
    by rewrite list_lookup_fmap, Hq.
  - rewrite lookup_app_r in Hi by (rewrite length_map; lia).
    rewrite length_map in Hi.
    rewrite first_match_None.
    + apply (IH (i - length ps)%nat); [done..|].
      intros j ty' q Hj Hq. apply (Hbefore (length ps + j)%nat ty' q); [lia|].
      rewrite lookup_app_r by (rewrite length_map; lia).
      rewrite length_map. by replace (length ps + j - length ps)%nat with j by lia.
    + intros q Hq. apply list_elem_of_lookup in Hq as [j Hj].
      apply (Hbefore j rt q).
      * apply lookup_lt_Some in Hj. lia.
      * rewrite lookup_app_l by (rewrite length_map; by eapply lookup_lt_Some).
        by rewrite list_lookup_fmap, Hj.
Qed.

Lemma parse_intent_typed text ty g :
  typed_match PATTERNS (Str.lower (Str.of_string text)) = Some (ty, g) ->
  resource_type (parse_intent text) = ty
  /\ resource_name (parse_intent text) = Some (Str.to_string g).
Proof.
  intros H. unfold parse_intent. rewrite H. split; reflexivity.
Qed.



End Priority.

(** ** The intent parser: the duration *)

Section Duration.
Import Re IntentParser.



Lemma star_from_sound {R} c s (k : list ascii -> option R) r :
  star_from c s k = Some r ->
  exists l s', s = l ++ s' /\ all c l /\ k s' = Some r.
Proof.
  induction s as [|a s IH]; cbn [star_from].
  - intros H. by exists [], [].
  - destruct (cset_mem c a) eqn:Ha.
    + destruct (star_from c s k) as [r'|] eqn:E; cbn [orelse].
      * intros [= ->]. destruct (IH eq_refl) as (l & s' & -> & Hl & Hk).
        exists (a :: l), s'. split; [done|]. split; [by constructor | done].
      * intros H. by exists [], (a :: s).
    + intros H. by exists [], (a :: s).
Qed.

Lemma plus_from_sound {R} c s (k : list ascii -> option R) r :
  plus_from c s k = Some r ->
  exists l s', s = l ++ s' /\ l <> [] /\ all c l /\ k s' = Some r.
Proof.
  destruct s as [|a s]; cbn [plus_from]; [done|].
  destruct (cset_mem c a) eqn:Ha; [|done].
  intros H. destruct (star_from_sound _ _ _ _ H) as (l & s' & -> & Hl & Hk).
  exists (a :: l), s'. split; [done|]. split; [done|]. split; [by constructor | done].
Qed.

(** Greedy repetition: when the run ends where the class stops and the
    continuation accepts there, that is the match. *)
Lemma star_from_greedy {R} c l s (k : list ascii -> option R) r :
  all c l ->
  match s with a :: _ => cset_mem c a = false | [] => True end ->
  k s = Some r ->
  star_from c (l ++ s) k = Some r.
Proof.
  intros Hl Hs Hk. induction Hl as [|a l Ha _ IH]; cbn [app star_from].
  - destruct s as [|b s]; [done|]. cbn [star_from]. by rewrite Hs.
  - by rewrite Ha, IH.
Qed.

Lemma plus_from_greedy {R} c l s (k : list ascii -> option R) r :
  all c l -> l <> [] ->
  match s with a :: _ => cset_mem c a = false | [] => True end ->
  k s = Some r ->
  plus_from c (l ++ s) k = Some r.
Proof.
  intros Hl Hne Hs Hk. destruct Hl as [|a l Ha Hl]; [done|]. cbn [app plus_from].
  rewrite Ha. by apply star_from_greedy.
Qed.


Lemma match_at_duration s :
  match_at duration_pattern s
  = plus_from CDigit s (fun s1 =>
      star_from CSpace s1 (fun s2 =>
        rmatch units s2 (Some (take (length s - length s1)%nat s))
          (fun _ g => Some g))).
Proof. reflexivity. Qed.

Lemma lit_sound {R} w s g (k : list ascii -> option (list ascii) -> option R) r :
  rmatch (lit w) s g k = Some r ->
  exists u s', s = u ++ s' /\ map fold_case u = map fold_case (Str.of_string w)
               /\ k s' g = Some r.
Proof.
  unfold lit. generalize (Str.of_string w) as l. clear w.
  intros l. revert s. induction l as [|x l IH]; intros s; cbn [fold_right rmatch].
  - intros H. by exists [], s.
  - destruct s as [|a s]; [done|]. cbn [cset_mem].
    destruct (Ascii.eqb (fold_case x) (fold_case a)) eqn:E; [|done].
    apply Ascii.eqb_eq in E.
    intros H. destruct (IH _ H) as (u & s' & -> & Hu & Hk).
    exists (a :: u), s'. split; [done|]. split; [|done].
    cbn [map]. by rewrite Hu, E.
Qed.

Lemma lit_complete {R} w u s g (k : list ascii -> option (list ascii) -> option R) :
  map fold_case u = map fold_case (Str.of_string w) ->
  rmatch (lit w) (u ++ s) g k = k s g.
Proof.
  unfold lit. generalize (Str.of_string w) as l. clear w.
  intros l. revert u. induction l as [|x l IH]; intros u Hu.
  - by destruct u.
  - destruct u as [|a u]; [done|]. cbn [map] in Hu.
    injection Hu as Ha Hu. cbn [fold_right rmatch app cset_mem].
    rewrite <- Ha, Ascii.eqb_refl. by apply IH.
Qed.

Lemma rmatch_Alt {R} r1 r2 s g (k : list ascii -> option (list ascii) -> option R) :
  rmatch (Alt r1 r2) s g k = orelse (rmatch r1 s g k) (rmatch r2 s g k).
Proof. reflexivity. Qed.

Lemma units_eq :
  units = Alt (lit "minute") (Alt (lit "min") (Alt (lit "minutes") (lit "mins"))).
Proof. reflexivity. Qed.

Lemma lit_min_prefix {R} w rest s g
    (k : list ascii -> option (list ascii) -> option R) r :
  map fold_case (Str.of_string w) = Str.of_string "min" ++ rest ->
  rmatch (lit w) s g k = Some r ->
  exists u suf, s = u ++ suf /\ map fold_case u = Str.of_string "min".
Proof.
  intros Hw H. destruct (lit_sound _ _ _ _ _ H) as (u & s' & -> & Hu & _).
  rewrite Hw in Hu. clear Hw H.
  destruct u as [|a [|b [|c u]]]; [discriminate Hu..|].
  exists [a; b; c], (u ++ s'). split; [reflexivity|].
  cbn [map] in *. injection Hu as -> -> -> _. reflexivity.
Qed.

Lemma units_sound {R} s g (k : list ascii -> option (list ascii) -> option R) r :
  rmatch units s g k = Some r ->
  exists u suf, s = u ++ suf /\ map fold_case u = Str.of_string "min".
Proof.
  rewrite units_eq, !rmatch_Alt.
  destruct (rmatch (lit "minute") s g k) eqn:E1.
  { intros _. exact (lit_min_prefix "minute" (Str.of_string "ute") _ _ _ _ eq_refl E1). }
  destruct (rmatch (lit "min") s g k) eqn:E2.
  { intros _. exact (lit_min_prefix "min" [] _ _ _ _ eq_refl E2). }
  destruct (rmatch (lit "minutes") s g k) eqn:E3.
  { intros _. exact (lit_min_prefix "minutes" (Str.of_string "utes") _ _ _ _ eq_refl E3). }
  cbn [orelse]. intros E4.
  exact (lit_min_prefix "mins" (Str.of_string "s") _ _ _ _ eq_refl E4).
Qed.

Lemma units_complete u suf g :
  map fold_case u = Str.of_string "min" ->
  rmatch units (u ++ suf) g (fun _ g' => Some g') = Some g.
Proof.
  intros Hu. rewrite units_eq, !rmatch_Alt.
  destruct (rmatch (lit "minute") (u ++ suf) g (fun _ g' => Some g')) as [x|] eqn:E.
  - destruct (lit_sound _ _ _ _ _ E) as (_ & _ & _ & _ & [= <-]). reflexivity.
  - cbn [orelse]. rewrite (lit_complete "min" u suf g _ Hu). reflexivity.
Qed.

Lemma take_group (N rest : list ascii) :
  take (length (N ++ rest) - length rest)%nat (N ++ rest) = N.
Proof.
  rewrite length_app.
  replace (length N + length rest - length rest)%nat with (length N) by lia.
  apply take_app_length.
Qed.

Lemma match_at_duration_sound s g :
  match_at duration_pattern s = Some g ->
  exists N, g = Some N /\ duration_expr s N.
Proof.
  rewrite match_at_duration. intros H.
  destruct (plus_from_sound _ _ _ _ H) as (N & s1 & -> & HN & HNd & H1).
  destruct (star_from_sound _ _ _ _ H1) as (ws & s2 & -> & Hws & H2).
  destruct (units_sound _ _ _ _ H2) as (u & suf & -> & Hu).
  exists N. split.
  - rewrite (units_complete u suf _ Hu) in H2. injection H2 as <-.
    f_equal. apply take_group.
  - by exists ws, u, suf.
Qed.

Lemma fold_case_m a :
  fold_case a = "m"%char -> Str.is_digit a = false /\ Str.is_space a = false.
Proof.
  destruct a as [[] [] [] [] [] [] [] []]; vm_compute; intros H;
    (split; reflexivity) || discriminate H.
Qed.

Lemma space_not_digit a : Str.is_space a = true -> Str.is_digit a = false.
Proof.
  destruct a as [[] [] [] [] [] [] [] []]; vm_compute; intros H;
    reflexivity || discriminate H.
Qed.

Lemma match_at_duration_complete s N :
  duration_expr s N -> match_at duration_pattern s = Some (Some N).
Proof.
  intros (ws & u & suf & -> & HN & HNd & Hws & Hu).
  rewrite match_at_duration.
  assert (Hm : match u ++ suf with
               | a :: _ => Str.is_digit a = false /\ Str.is_space a = false
               | [] => False
               end).
  { destruct u as [|a u]; [discriminate Hu|]. cbn [map] in Hu.
    injection Hu as Ha _. exact (fold_case_m a Ha). }
  apply plus_from_greedy; [done | done | |].
  - destruct Hws as [|a ws Ha _]; cbn [app].
    + destruct (u ++ suf); [done|]. apply Hm.
    + apply space_not_digit, Ha.
  - apply star_from_greedy; [done | |].
    + destruct (u ++ suf); [done|]. apply Hm.
    + rewrite (units_complete u suf _ Hu). by rewrite take_group.
Qed.

Lemma search_sound r t g :
  search r t = Some g -> exists pre s, t = pre ++ s /\ match_at r s = Some g.
Proof.
  induction t as [|a t IH]; cbn [search].
  - destruct (match_at r []) eqn:E; [|done]. intros [= <-]. by exists [], [].
  - destruct (match_at r (a :: t)) eqn:E.
    + intros [= <-]. by exists [], (a :: t).
    + intros H. destruct (IH H) as (pre & s & -> & Hs). by exists (a :: pre), s.
Qed.

Lemma search_here r s g : match_at r s = Some g -> search r s = Some g.
Proof. intros H. destruct s; cbn [search]; by rewrite H. Qed.

Lemma search_skip_non_digits pre s :
  Forall (fun a => Str.is_digit a = false) pre ->
  search duration_pattern (pre ++ s) = search duration_pattern s.
Proof.
  induction 1 as [|a pre Ha _ IH]; [done|].
  cbn [app search]. rewrite match_at_duration. cbn [plus_from cset_mem].
  by rewrite Ha.
Qed.

Lemma py_int_acc N acc :
  all CDigit N -> 0 <= acc ->
  0 <= fold_left (fun acc d => 10 * acc + Str.digit_value d) N acc.
Proof.
  intros H. revert acc. induction H as [|a N Ha _ IH]; intros acc Hacc; [done|].
  cbn [fold_left]. apply IH.
  assert (0 <= Str.digit_value a); [|lia].
  cbn [cset_mem] in Ha. revert Ha. unfold Str.is_digit, Str.digit_value.
  intros [H1 _]%andb_prop. apply N.leb_le in H1. lia.
Qed.

Lemma py_int_nonneg N : all CDigit N -> 0 <= Str.py_int N.
Proof. intros H. by apply py_int_acc. Qed.

Lemma search_leftmost r pre s g :
  match_at r s = Some g ->
  (forall pre' s', pre ++ s = pre' ++ s' -> (length pre' < length pre)%nat ->
                   match_at r s' = None) ->
  search r (pre ++ s) = Some g.
Proof.
  intros Hs. induction pre as [|a pre IH]; intros Hbefore.
  - by apply search_here.
  - cbn [app search].
    rewrite (Hbefore [] (a :: pre ++ s)) by (done || (cbn [length]; lia)).
    apply IH. intros pre' s' Heq Hlen.
    apply (Hbefore (a :: pre') s'); [cbn [app]; by rewrite Heq | cbn [length]; lia].
Qed.

Lemma duration_minutes_parse text :
  duration_minutes (parse_intent text)
  = parse_duration (Str.lower (Str.of_string text)).
Proof.
  unfold parse_intent.
  by destruct (typed_match PATTERNS _) as [[ty name]|].
Qed.

Lemma parse_duration_match t g :
  search duration_pattern t = Some g ->
  exists pre s N, t = pre ++ s /\ duration_expr s N
                  /\ parse_duration t = Z.min (Str.py_int N) 15.
Proof.
  intros H. destruct (search_sound _ _ _ H) as (pre & s & -> & Hs).
  destruct (match_at_duration_sound _ _ Hs) as (N & -> & HN).
  exists pre, s, N. split; [done|]. split; [done|].
  unfold parse_duration, search_group1. by rewrite H.
Qed.




End Duration.

(** ** The credential manager: fetching *)

Section Fetch.
Import Py Lib OnePasswordClient CredentialManager.

Lemma ResourceType_of_None s :
  s ∉ ["database"; "api"; "ssh"; "generic"] -> ResourceType_of s = None.
Proof.
  intros H. unfold ResourceType_of, ResourceType_members. cbn [find value].
  destruct (String.eqb_spec "database" s) as [<-|_].
  { destruct H. set_solver. }
  destruct (String.eqb_spec "api" s) as [<-|_].
  { destruct H. set_solver. }
  destruct (String.eqb_spec "ssh" s) as [<-|_].
  { destruct H. set_solver. }
  destruct (String.eqb_spec "generic" s) as [<-|_].
  { destruct H. set_solver. }
  reflexivity.
Qed.

(** C6.  For a resource type outside {database, api, ssh, generic},
    [fetch_credentials] raises the [ValueError] that lists the valid types,
    and the log of gateway calls is returned as it was: neither
    [get_item_by_title] nor the Connect client has been called. *)
Theorem fetch_credentials_invalid_type (self : CredentialManager)
    (log : list call) (resource_type resource_name : string) (vault : option string) :
  resource_type ∉ ["database"; "api"; "ssh"; "generic"] ->
  fetch_credentials self log resource_type resource_name vault
  = (inl (ValueError ("Invalid resource_type: " +:+ resource_type
                      +:+ ". Must be one of: ['database', 'api', 'ssh', 'generic']")),
     log).
Proof.
  intros H. unfold fetch_credentials. rewrite (ResourceType_of_None _ H).
  reflexivity.
Qed.

Lemma fetch_credentials_invalid_type_witness :
  ("bogus" ∉ ["database"; "api"; "ssh"; "generic"])
  /\ fetch_credentials Sample.manager [] "bogus" "production-postgres" None
     = (inl (ValueError "Invalid resource_type: bogus. Must be one of: ['database', 'api', 'ssh', 'generic']"),
        []).
Proof.
  assert (H : "bogus" ∉ ["database"; "api"; "ssh"; "generic"]).
  { intros H. repeat (apply elem_of_cons in H as [H|H]; [discriminate H|]).
    by apply elem_of_nil in H. }
  split; [exact H|].
  exact (fetch_credentials_invalid_type Sample.manager [] "bogus" "production-postgres" None H).
Defined.

(** The dictionary after the loop over the fields. *)
Lemma fold_add_field_other fields acc k :
  (forall f, f ∈ fields -> Field_label f <> Some k) ->
  fold_left add_field fields acc !! k = acc !! k.
Proof.
  revert acc. induction fields as [|f fields IH]; intros acc H; [done|].
  cbn [fold_left]. rewrite IH by (intros f' Hf'; apply H; by right).
  unfold add_field. pose proof (H f ltac:(left)) as Hf.
  destruct (Field_label f) as [l|]; [|done].
  destruct (Field_value f) as [v|]; [|done].
  destruct (String.eqb v ""); [done|].
  apply lookup_insert_ne. congruence.
Qed.

Lemma fold_add_field_last pre post acc l v :
  v <> "" ->
  (forall f, f ∈ post -> Field_label f = Some l ->
             Field_value f = None \/ Field_value f = Some "") ->
  fold_left add_field
    (pre ++ {| Field_label := Some l; Field_value := Some v |} :: post) acc !! l
  = Some v.
Proof.
  intros Hv Hpost. rewrite fold_left_app. cbn [fold_left].
  generalize (fold_left add_field pre acc). intros acc'.
  unfold add_field at 2. cbn [Field_label Field_value].
  destruct (String.eqb_spec v "") as [->|_]; [done|].
  assert (Hin : <[l:=v]> acc' !! l = Some v) by apply lookup_insert_eq.
  revert Hin. generalize (<[l:=v]> acc'). clear acc acc' pre.
  induction post as [|f post IH]; intros m Hm; [done|].
  cbn [fold_left]. apply IH.
  - intros f' Hf'. apply Hpost. by right.
  - unfold add_field. pose proof (Hpost f ltac:(left)) as Hf.
    destruct (Field_label f) as [l'|]; [|done].
    destruct (Field_value f) as [v'|]; [|done].
    destruct (String.eqb_spec v' "") as [->|Hne]; [done|].
    destruct (decide (l' = l)) as [->|Hl].
    + destruct (Hf eq_refl) as [?|[= ->]]; done.
    + by rewrite lookup_insert_ne.
Qed.


(** C10.  A successful [fetch_credentials] returns the fields of the item
    that the gateway found, and always the three metadata keys:
    [_item_id], [_item_title] and [_vault_id], the last one being "unknown"
    for an item without a [vault] attribute.  A field pair with a non-empty
    value is in the result under its label unless a later field or a
    metadata key takes the label. *)
Theorem fetch_credentials_metadata (self : CredentialManager) (log log' : list call)
    (resource_type resource_name : string) (vault : option string)
    (creds : gmap string string) :
  fetch_credentials self log resource_type resource_name vault = (inr creds, log') ->
  exists item,
    get_item_by_title (op_client self) log resource_name vault = (inr (Some item), log')
    /\ creds !! "_item_id" = Some (Item_id item)
    /\ creds !! "_item_title" = Some (Item_title item)
    /\ creds !! "_vault_id"
       = Some (match Item_vault item with
               | Some v => ItemVault_id v
               | None => "unknown"
               end)
    /\ (forall pre post l v,
          Item_fields item
            = Some (pre ++ {| Field_label := Some l; Field_value := Some v |} :: post) ->
          v <> "" -> l ∉ metadata_keys ->
          (forall f, f ∈ post -> Field_label f = Some l ->
                     Field_value f = None \/ Field_value f = Some "") ->
          creds !! l = Some v).
Proof.
  unfold fetch_credentials.
  destruct (ResourceType_of resource_type); [|discriminate].
  destruct (get_item_by_title (op_client self) log resource_name vault)
    as [[e | [item|]] log''] eqn:E; [discriminate | | discriminate].
  intros [= <- <-]. exists item. split; [reflexivity|].
  unfold extract_credential_fields.
  split; [|split; [|split]].
  - rewrite lookup_insert_ne by discriminate.
    rewrite lookup_insert_ne by discriminate.
    apply lookup_insert_eq.
  - rewrite lookup_insert_ne by discriminate. apply lookup_insert_eq.
  - apply lookup_insert_eq.
  - intros pre post l v Hfields Hv Hl Hpost.
    assert (l <> "_item_id" /\ l <> "_item_title" /\ l <> "_vault_id") as (H1 & H2 & H3).
    { unfold metadata_keys in Hl. set_solver. }
    rewrite !lookup_insert_ne by congruence.
    rewrite Hfields. by apply fold_add_field_last.
Qed.

Lemma fetch_credentials_metadata_witness :
  exists creds log',
    fetch_credentials Sample.manager [] "database" "production-postgres" None
    = (inr creds, log')
    /\ creds !! "_item_id" = Some "item-1"
    /\ creds !! "_item_title" = Some "Production-Postgres"
    /\ creds !! "_vault_id" = Some "unknown"
    /\ creds !! "password" = Some "s3cret".
Proof.
  set (log' := [CallGetItemByTitle "production-postgres" None;
                CallClientGetItems "vault-1";
                CallClientGetItem "item-1" "vault-1"]).
  assert (E : fetch_credentials Sample.manager [] "database" "production-postgres" None
              = (inr (extract_credential_fields Sample.item_postgres), log'))
    by (vm_compute; reflexivity).
  exists (extract_credential_fields Sample.item_postgres), log'.
  split; [exact E|].
  destruct (fetch_credentials_metadata _ _ _ _ _ _ _ E)
    as (item & Hitem & Hid & Htitle & Hvault & Hfield).
  assert (Hitem' : get_item_by_title (op_client Sample.manager) []
                     "production-postgres" None
                   = (inr (Some Sample.item_postgres), log'))
    by (vm_compute; reflexivity).
  rewrite Hitem' in Hitem. injection Hitem as <-.
  split; [exact Hid|]. split; [exact Htitle|]. split; [exact Hvault|].
  apply (Hfield [] (tail (default [] (Item_fields Sample.item_postgres))) "password" "s3cret").
  - reflexivity.
  - discriminate.
  - unfold metadata_keys. intros H.
    repeat (apply elem_of_cons in H as [H|H]; [discriminate H|]).
    by apply elem_of_nil in H.
  - intros f Hf Hl. cbn in Hf.
    repeat (apply elem_of_cons in Hf as [->|Hf]; [cbn in Hl; discriminate Hl|]).
    by apply elem_of_nil in Hf.
Defined.

End Fetch.

(** ** The audit logger: the retry queue *)

Section Queue.
Import Py Lib AuditLogger.
Context {L : Libs}.


Lemma deque_append_all {A} (maxlen : nat) (q evs : list A) :
  fold_left (deque_append maxlen) evs (drop (length q - maxlen) q)
  = drop (length (q ++ evs) - maxlen) (q ++ evs).
Proof.
  induction evs as [|x evs IH] using rev_ind.
  - by rewrite app_nil_r.
  - rewrite fold_left_app, IH. cbn [fold_left]. unfold deque_append.
    rewrite app_assoc.
    rewrite <- drop_app_le by lia.
    rewrite drop_drop. f_equal.
    rewrite !length_app, length_drop, !length_app. cbn [length]. lia.
Qed.

Lemma post_event_disabled remaining self E w ev :
  events_api_enabled self = false ->
  post_event remaining self E w ev = (false, self, w).
Proof. intros H. destruct remaining; cbn [post_event]; by rewrite H. Qed.

Lemma post_event_rejected remaining self E w ev :
  rejecting E ->
  let '(success, self', _) := post_event remaining self E w ev in
  success = false
  /\ failed_events_queue self' = failed_events_queue self
  /\ events_api_enabled self' = events_api_enabled self.
Proof.
  intros HE. revert self w.
  induction remaining as [|n IH]; intros self w; cbn [post_event];
    (destruct (events_api_enabled self) eqn:Hen; cbn [negb]; [|done]);
    pose proof (HE (length (posts w))) as Hn;
    (destruct (collector E (length (posts w))) as [code|];
     [split; [by apply bool_decide_eq_false | done] |]).
  - done.
  - match goal with |- context [post_event n ?s E ?w' ev] =>
      specialize (IH s w'); destruct (post_event n s E w' ev) as [[b s'] w''] end.
    destruct IH as (-> & -> & ->). done.
Qed.

Lemma emit_failed self E w ev :
  events_api_enabled self = false \/ rejecting E ->
  let '(self', _) := emit self E w ev in
  failed_events_queue self'
  = deque_append QUEUE_MAXLEN (failed_events_queue self) ev
  /\ events_api_enabled self' = events_api_enabled self.
Proof.
  intros H. unfold emit, _post_event_to_api.
  set (w1 := _log_event_locally self E w ev).
  destruct H as [H|H].
  - by rewrite post_event_disabled.
  - pose proof (post_event_rejected (Z.to_nat (max_retries self - 0)) self E w1 ev H) as Hp.
    destruct (post_event _ self E w1 ev) as [[b s'] w''].
    destruct Hp as (-> & Hq & Hen). cbn [negb]. cbn. by rewrite Hq.
Qed.

Lemma log_all_queue self E w calls :
  events_api_enabled self = false \/ rejecting E ->
  failed_events_queue (log_all self E w calls).1
  = fold_left (deque_append QUEUE_MAXLEN) (map access_event calls)
      (failed_events_queue self).
Proof.
  intros H. unfold log_all. revert self w H.
  induction calls as [|a calls IH]; intros self w H; [done|].
  cbn [fold_left map]. unfold log_credential_access at 2.
  pose proof (emit_failed self E w (access_event a) H) as He.
  unfold access_event in He at 1.
  destruct (emit self E w _) as [self' w'].
  destruct He as [Hq Hen]. rewrite IH.
  - by rewrite Hq.
  - destruct H as [H|H]; [left; by rewrite Hen | by right].
Qed.

(** C7.  Every failed event is appended to the queue and, beyond 1000
    events, the oldest is dropped: after 1100 calls whose delivery fails,
    starting from an empty queue, the queue holds exactly the events of the
    last 1000 calls, in order.  Appending is a total function: it neither
    raises nor waits. *)
Theorem retry_queue_bounded (self : AuditLogger) (E : env) (w : world)
    (calls : list access) :
  failed_events_queue self = [] ->
  events_api_enabled self = false \/ rejecting E ->
  let queue := failed_events_queue (log_all self E w calls).1 in
  queue = drop (length calls - 1000) (map access_event calls)
  /\ (length calls = 1100%nat ->
      length queue = 1000%nat /\ queue = map access_event (drop 100 calls)).
Proof.
  intros Hq H queue.
  assert (Hqueue : queue = drop (length calls - 1000) (map access_event calls)).
  { unfold queue. rewrite log_all_queue by done. rewrite Hq.
    pose proof (deque_append_all QUEUE_MAXLEN [] (map access_event calls)) as Hd.
    cbn [length app] in Hd. rewrite drop_nil in Hd.
    rewrite Hd. by rewrite length_map. }
  split; [exact Hqueue|].
  intros Hlen. rewrite Hqueue, Hlen. split.
  - rewrite length_drop, length_map. lia.
  - apply skipn_map.
Qed.

(** ** The audit logger without a collector *)

Lemma emit_unconfigured self E w ev :
  events_api_enabled self = false ->
  emit self E w ev
  = (set_queue self (deque_append QUEUE_MAXLEN (failed_events_queue self) ev),
     _log_event_locally self E w ev).
Proof.
  intros H. unfold emit, _post_event_to_api. by rewrite post_event_disabled.
Qed.

Lemma log_event_locally_posts self E w ev :
  posts (_log_event_locally self E w ev) = posts w.
Proof.
  unfold _log_event_locally.
  destruct (enable_local_fallback self); [|done]. cbn [negb].
  destruct (json_dumps _); [done|].
  by destruct (writable E _).
Qed.

(** C4 (what the code does).  A logger built without a collector sends
    nothing: no request is made and no client is created.  But the event
    does not only go to the local log: it is also appended to the retry
    queue, which is empty before the call and holds the event after it. *)
Theorem log_credential_access_unconfigured (E : env) (w : world)
    (now protocol agent_id resource outcome : string)
    (metadata : option (gmap string pyval)) :
  let self := init None None 3 true "logs/audit.log" in
  let ev := _create_event_payload now "credential_access" protocol agent_id
              resource outcome metadata in
  let '(self', w') :=
    log_credential_access self E w now protocol agent_id resource outcome metadata in
  posts w' = posts w
  /\ http_client self' = false
  /\ failed_events_queue self = []
  /\ failed_events_queue self' = [ev].
Proof.
  intros self ev. unfold log_credential_access. fold ev.
  rewrite emit_unconfigured by reflexivity.
  split; [apply log_event_locally_posts|]. by repeat split.
Qed.

End Queue.

(** ** The key derivation *)

Section KeyDerivation.
Import Pbkdf2.

(** The definitions give the digests of the standards' examples: SHA-256
    of "abc" (FIPS 180-4), HMAC with a short key (RFC 4231, case 2) and
    with a key of 70 bytes, PBKDF2 with two iterations. *)
Lemma sha256_abc :
  be_number (sha256 (of_text "abc"))
  = 0xba7816bf8f01cfea414140de5dae2223b00361a396177a9cb410ff61f20015ad.
Proof. vm_compute. reflexivity. Qed.

Lemma hmac_sha256_short_key :
  be_number (hmac_sha256 (of_text "Jefe") (of_text "what do ya want for nothing?"))
  = 0x5bdcc146bf60754e6a042426089575c75a003f089d2739839dec58b964ec3843.
Proof. vm_compute. reflexivity. Qed.

Lemma hmac_sha256_long_key :
  be_number (hmac_sha256 (replicate 70 (byte_of_ascii "k")) (of_text "msg"))
  = 0x869b65e96f6aff0cfcb55ed40163b7d46e124a4213fa2232d61cca5e4a21256e.
Proof. vm_compute. reflexivity. Qed.

Lemma pbkdf2_two_iterations :
  be_number (pbkdf2_hmac_sha256 32 (of_text "salt") 2 (of_text "password"))
  = 0xae4d0c95af6b46d32d0adff928f06dd02a303f8ef3c251dfd6e2d85a95474c43.
Proof. vm_compute. reflexivity. Qed.

(** HMAC fills a key of less than 64 bytes up with zeros, so one more zero
    at its end makes no difference. *)
Lemma key_block_zero (key : list byte) :
  (length key < 64)%nat -> key_block (key ++ [x00]) = key_block key.
Proof.
  intros Hlen. unfold key_block. rewrite length_app. cbn [length].
  replace (64 <? length key + 1)%nat with false
    by (symmetry; apply Nat.ltb_ge; lia).
  replace (64 <? length key)%nat with false
    by (symmetry; apply Nat.ltb_ge; lia).
  rewrite length_app. cbn [length]. rewrite <- app_assoc. f_equal.
  replace (64 - length key)%nat with (S (64 - (length key + 1))) by lia.
  reflexivity.
Qed.

(** PBKDF2 reads the key material through HMAC only: the two derive the
    same key, whatever the salt, the length and the number of iterations. *)
Lemma pbkdf2_zero_padded (len : Z) (salt : list byte) (iterations : Z)
    (key : list byte) :
  (length key < 64)%nat ->
  pbkdf2_hmac_sha256 len salt iterations (key ++ [x00])
  = pbkdf2_hmac_sha256 len salt iterations key.
Proof.
  intros Hlen. unfold pbkdf2_hmac_sha256. by rewrite key_block_zero.
Qed.

End KeyDerivation.

(** ** The token manager: encryption *)

Section Encryption.
Import Py Lib TokenManager.
Context {L : Libs}.


Lemma try_except_inl {A} (body : result A) e e' :
  try_except body e = inl e' -> e' = e.
Proof. destruct body; cbn; congruence. Qed.

Lemma decrypt_payload_error self x e :
  decrypt_payload self x = inl e -> e = invalid_data.
Proof. apply try_except_inl. Qed.

Lemma str_encode_inj `{!LibsOk L} (s1 s2 : string) :
  str_encode s1 = str_encode s2 -> s1 = s2.
Proof.
  intros H. apply (f_equal bytes_decode) in H.
  rewrite !decode_encode in H. by injection H.
Qed.

Lemma encrypt_payload_str_dict `{!LibsOk L} self iv (C : gmap string string) :
  exists json_data tok,
    json_dumps (str_dict C) = inr json_data
    /\ json_loads json_data = inr (str_dict C)
    /\ bytes_decode (fernet_encrypt (fernet self) iv (str_encode json_data)) = inr tok
    /\ str_encode tok = fernet_encrypt (fernet self) iv (str_encode json_data)
    /\ encrypt_payload self iv (str_dict C) = inr tok.
Proof.
  destruct (json_loads_dumps C) as (json_data & Hd & Hl).
  destruct (fernet_token_text (fernet self) iv (str_encode json_data)) as (tok & Ht & He).
  exists json_data, tok. repeat (split; [done|]).
  unfold encrypt_payload. rewrite Hd. cbn. by rewrite Ht.
Qed.

(** The round trip, with the cipher of any manager that has the key. *)
Lemma decrypt_encrypt_same_key `{!LibsOk L} (self self' : TokenManager)
    (iv : list byte) (C : gmap string string) :
  fernet self' = fernet self ->
  exists tok,
    encrypt_payload self iv (str_dict C) = inr tok
    /\ decrypt_payload self' (PStr tok) = inr (str_dict C).
Proof.
  intros Hkey.
  destruct (encrypt_payload_str_dict self iv C) as (json_data & tok & Hd & Hl & Ht & He & Henc).
  exists tok. split; [exact Henc|].
  unfold decrypt_payload. cbn [encode_attr bind].
  rewrite Hkey, He, fernet_decrypt_encrypt. cbn [bind].
  rewrite decode_encode. cbn [bind]. by rewrite Hl.
Qed.


End Encryption.


(** ** The token manager: the claims of an issued token *)

Section Claims.
Import Py Lib TokenManager.
Context {L : Libs}.

Lemma jwt_payload_lookup agent_id enc rt rn now exp ttl :
  let p := jwt_payload agent_id enc rt rn now exp ttl in
  p !! "nbf" = None
  /\ jwt_time_claims p !! "iat" = Some (PInt (now / 1000000))
  /\ jwt_time_claims p !! "exp" = Some (PInt (exp / 1000000))
  /\ jwt_time_claims p !! "ttl_minutes" = Some (PInt ttl)
  /\ jwt_time_claims p !! "credentials" = Some (PStr enc)
  /\ jwt_time_claims p !! "sub" = Some (PStr agent_id).
Proof.
  intros p. unfold p, jwt_time_claims, jwt_payload.
  split; [|split; [|split; [|split; [|split]]]].
  - rewrite !lookup_insert_ne by discriminate. apply lookup_empty.
  - rewrite lookup_alter_ne by discriminate. rewrite lookup_alter_eq.
    rewrite lookup_alter_ne by discriminate.
    rewrite !lookup_insert_ne by discriminate. by rewrite lookup_insert_eq.
  - rewrite !lookup_alter_ne by discriminate. rewrite lookup_alter_eq.
    rewrite !lookup_insert_ne by discriminate. by rewrite lookup_insert_eq.
  - rewrite !lookup_alter_ne by discriminate.
    rewrite !lookup_insert_ne by discriminate. by rewrite lookup_insert_eq.
  - rewrite !lookup_alter_ne by discriminate.
    rewrite !lookup_insert_ne by discriminate. by rewrite lookup_insert_eq.
  - rewrite !lookup_alter_ne by discriminate. by rewrite lookup_insert_eq.
Qed.

Lemma timedelta_minutes_inr m delta :
  timedelta_minutes m = inr delta -> delta = m * 60 * 1000000.
Proof.
  unfold timedelta_minutes. destruct (_ && _); [|discriminate]. by intros [= <-].
Qed.

Lemma datetime_add_inr t delta r : datetime_add t delta = inr r -> r = t + delta.
Proof.
  unfold datetime_add. destruct (_ && _); [|discriminate]. by intros [= <-].
Qed.

(** What a token minted by [generate_jwt] without additional claims
    decodes to, at any time [now'] from the minting on. *)
Lemma generate_jwt_claims `{!LibsOk L} self agent_id creds rt rn ttl_minutes
    now iv tok now' :
  generate_jwt self agent_id creds rt rn ttl_minutes None now iv = inr tok ->
  now <= now' ->
  let ttl := int_or ttl_minutes (default_ttl_minutes self) in
  exists claims,
    jwt_decode tok (jwt_secret self) [jwt_algorithm self] false now' = inr claims
    /\ claims !! "iat" = Some (PInt (now / 1000000))
    /\ claims !! "exp" = Some (PInt (now / 1000000 + ttl * 60))
    /\ claims !! "ttl_minutes" = Some (PInt ttl).
Proof.
  intros Hgen Hnow ttl. unfold generate_jwt in Hgen. fold ttl in Hgen.
  destruct (timedelta_minutes ttl) as [|delta] eqn:Hd; [discriminate|].
  apply timedelta_minutes_inr in Hd. cbn [bind] in Hgen.
  destruct (datetime_add now delta) as [|exp] eqn:He; [discriminate|].
  apply datetime_add_inr in He. cbn [bind] in Hgen.
  destruct (encrypt_payload self iv creds) as [|enc]; [discriminate|].
  cbn [bind] in Hgen.
  destruct (jwt_payload_lookup agent_id enc rt rn now exp ttl)
    as (Hnbf & Hiat & Hexp & Httl & _).
  exists (jwt_time_claims (jwt_payload agent_id enc rt rn now exp ttl)).
  split; [|split; [exact Hiat | split; [|exact Httl]]].
  - apply (jwt_decode_encode _ _ _ _ _ (now / 1000000) Hgen Hnbf Hiat).
    pose proof (Z.mul_div_le now 1000000 ltac:(lia)). lia.
  - rewrite Hexp, He, Hd. do 2 f_equal.
    rewrite <- Z.mul_assoc. replace (ttl * (60 * 1000000)) with (ttl * 60 * 1000000) by lia.
    apply Z.div_add. lia.
Qed.

(** C2.  The claims of a token issued by [generate_jwt] satisfy
    [exp = iat + 60 * ttl_minutes] (in seconds), where [ttl_minutes] is the
    claim of that token. *)
Theorem generate_jwt_expiry `{!LibsOk L} (self : TokenManager)
    (agent_id : string) (creds : pyval) (resource_type resource_name : string)
    (ttl_minutes : option Z) (now now' : Z) (iv : list byte) (tok : string) :
  generate_jwt self agent_id creds resource_type resource_name ttl_minutes None now iv
  = inr tok ->
  now <= now' ->
  exists claims iat exp ttl,
    jwt_decode tok (jwt_secret self) [jwt_algorithm self] false now' = inr claims
    /\ claims !! "iat" = Some (PInt iat)
    /\ claims !! "exp" = Some (PInt exp)
    /\ claims !! "ttl_minutes" = Some (PInt ttl)
    /\ exp = iat + 60 * ttl.
Proof.
  intros Hgen Hnow.
  destruct (generate_jwt_claims _ _ _ _ _ _ _ _ _ _ Hgen Hnow)
    as (claims & Hdec & Hiat & Hexp & Httl).
  exists claims, (now / 1000000),
    (now / 1000000 + int_or ttl_minutes (default_ttl_minutes self) * 60),
    (int_or ttl_minutes (default_ttl_minutes self)).
  repeat (split; [done|]). lia.
Qed.

(** C9.  [ttl_minutes = 0] is read as "not provided": the three issuing
    functions return for it what they return for [None], and the token
    carries the manager's default TTL, so that it expires
    [60 * default_ttl_minutes] seconds after it was issued: 300 seconds
    for the constructor's default of 5 minutes.  The parser does produce
    the duration 0 for a "0 minutes" phrase. *)
Theorem zero_ttl_is_default `{!LibsOk L} (self : TokenManager)
    (cm : CredentialManager.CredentialManager) (log : list OnePasswordClient.call)
    (agent_id : string) (creds : pyval) (resource_type resource_name : string)
    (vault : option string) (now now' : Z) (iv : list byte) :
  generate_jwt self agent_id creds resource_type resource_name (Some 0) None now iv
  = generate_jwt self agent_id creds resource_type resource_name None None now iv
  /\ CredentialManager.issue_ephemeral_token cm creds agent_id resource_type
       resource_name (Some 0) now now' iv
     = CredentialManager.issue_ephemeral_token cm creds agent_id resource_type
         resource_name None now now' iv
  /\ CredentialManager.fetch_and_issue_token cm log resource_type resource_name
       agent_id (Some 0) vault now now' iv
     = CredentialManager.fetch_and_issue_token cm log resource_type resource_name
         agent_id None vault now now' iv
  /\ (forall tok,
        generate_jwt self agent_id creds resource_type resource_name (Some 0) None now iv
        = inr tok ->
        now <= now' ->
        exists claims iat,
          jwt_decode tok (jwt_secret self) [jwt_algorithm self] false now' = inr claims
          /\ claims !! "ttl_minutes" = Some (PInt (default_ttl_minutes self))
          /\ claims !! "iat" = Some (PInt iat)
          /\ claims !! "exp" = Some (PInt (iat + 60 * default_ttl_minutes self))
          /\ (default_ttl_minutes self = DEFAULT_TTL_MINUTES ->
              claims !! "ttl_minutes" = Some (PInt 5)
              /\ claims !! "exp" = Some (PInt (iat + 300))))
  /\ IntentParser.duration_minutes
       (IntentParser.parse_intent "need my-db database for 0 minutes") = 0.
Proof.
  split; [reflexivity|]. split; [reflexivity|]. split; [reflexivity|].
  split; [|vm_compute; reflexivity].
  intros tok Hgen Hnow.
  destruct (generate_jwt_claims _ _ _ _ _ _ _ _ _ _ Hgen Hnow)
    as (claims & Hdec & Hiat & Hexp & Httl).
  cbn [int_or Z.eqb] in Hexp, Httl.
  exists claims, (now / 1000000). split; [exact Hdec|]. split; [exact Httl|].
  split; [exact Hiat|].
  replace (60 * default_ttl_minutes self) with (default_ttl_minutes self * 60) by lia.
  split; [exact Hexp|].
  intros Hdef. rewrite Httl, Hexp, Hdef. split; [reflexivity|].
  unfold DEFAULT_TTL_MINUTES. do 2 f_equal.
Qed.

End Claims.

(** ** The token manager: verification followed by decryption *)

Section VerifyAndDecrypt.
Import Py Lib TokenManager.
Context {L : Libs}.


(** C8.  A token that [verify_jwt] refuses is refused by
    [verify_and_decrypt] with the same error.  For a verified token
    without the claim [credentials], or with a false one (such as the
    empty string), [verify_and_decrypt] raises the "no encrypted
    credentials" [ValueError]; with the claim, it is [decrypt_payload] of
    the claim: its error, or its result together with the other claims. *)
Theorem verify_and_decrypt_composes (self : TokenManager) (token : string) (now : Z) :
  (forall e, verify_jwt self token now = inl e ->
             verify_and_decrypt self token now = inl e)
  /\ (forall payload,
        verify_jwt self token now = inr payload ->
        payload !! "credentials" = None \/ payload !! "credentials" = Some (PStr "") ->
        verify_and_decrypt self token now = inl no_payload)
  /\ (forall payload v,
        verify_jwt self token now = inr payload ->
        payload !! "credentials" = Some v ->
        verify_and_decrypt self token now
        = if truthy v
          then match decrypt_payload self v with
               | inl e => inl e
               | inr creds => inr (token_context payload creds)
               end
          else inl no_payload).
Proof.
  unfold verify_and_decrypt. split; [|split].
  - by intros e ->.
  - intros payload -> H. cbn [bind].
    assert (dict_get payload "credentials" = PNone
            \/ dict_get payload "credentials" = PStr "") as [-> | ->];
      [|reflexivity..].
    unfold dict_get. destruct H as [-> | ->]; [by left | by right].
  - intros payload v -> Hv. cbn [bind].
    assert (dict_get payload "credentials" = v) as ->
      by (unfold dict_get; by rewrite Hv).
    destruct (truthy v); [|reflexivity]. cbn [negb].
    by destruct (decrypt_payload self v).
Qed.

End VerifyAndDecrypt.

(** ** The intent parser: what it hands to the credential manager *)

Section IntentResult.
Import Re IntentParser.

Lemma first_match_elem patterns t n :
  first_match patterns t = Some n ->
  exists p, p ∈ patterns /\ search_group1 p t = Some n.
Proof.
  induction patterns as [|p ps IH]; cbn [first_match]; [done|].
  destruct (search_group1 p t) as [m|] eqn:E.
  - intros [= ->]. exists p. split; [left | done].
  - intros H. destruct (IH H) as (q & Hq & Hm). exists q. split; [by right | done].
Qed.

Lemma typed_match_elem table t ty n :
  typed_match table t = Some (ty, n) ->
  exists ps p, (ty, ps) ∈ table /\ p ∈ ps /\ search_group1 p t = Some n.
Proof.
  induction table as [|[ty' ps] rest IH]; [done|].
  rewrite typed_match_cons. destruct (first_match ps t) as [m|] eqn:E.
  - intros [= -> ->]. destruct (first_match_elem _ _ _ E) as (p & Hp & Hm).
    exists ps, p. split; [left | done].
  - intros H. destruct (IH H) as (ps' & p & Hin & Hp & Hm).
    exists ps', p. split; [by right | done].
Qed.

(** Where a pattern whose groups are all [(\S+)] captures, it captures a
    word of the input. *)
Lemma rmatch_word {R} r :
  word_groups r = true ->
  forall s g (k : list ascii -> option (list ascii) -> option R) res,
    rmatch r s g k = Some res ->
    exists l s' g',
      s = l ++ s' /\ k s' g' = Some res
      /\ (g' = g \/ exists w, g' = Some w /\ is_word w /\ occurs_in w l).
Proof.
  induction r as [|c|r1 IH1 r2 IH2|r1 IH1 r2 IH2|r1 IH1|c|c|r1 IH1];
    cbn [word_groups]; intros Hr s g k res; cbn [rmatch].
  - intros H. exists [], s, g. by eauto.
  - destruct s as [|a s]; [done|]. destruct (cset_mem c a); [|done].
    intros H. exists [a], s, g. by eauto.
  - apply andb_prop in Hr as [H1 H2]. intros H.
    destruct (IH1 H1 _ _ _ _ H) as (l1 & s1 & g1 & -> & Hk1 & Hg1).
    destruct (IH2 H2 _ _ _ _ Hk1) as (l2 & s2 & g2 & -> & Hk2 & Hg2).
    exists (l1 ++ l2), s2, g2. split; [by rewrite app_assoc|]. split; [done|].
    destruct Hg2 as [-> | (w & -> & Hw & pre & post & ->)].
    + destruct Hg1 as [-> | (w & -> & Hw & pre & post & ->)]; [by left|].
      right. exists w. split; [done|]. split; [done|].
      exists pre, (post ++ l2). by rewrite <- !app_assoc.
    + right. exists w. split; [done|]. split; [done|].
      exists (l1 ++ pre), post. by rewrite <- !app_assoc.
  - apply andb_prop in Hr as [H1 H2].
    destruct (rmatch r1 s g k) as [x|] eqn:E; cbn [orelse].
    + intros [= ->]. by apply (IH1 H1 _ _ _ _ E).
    + intros H. by apply (IH2 H2 _ _ _ _ H).
  - destruct (rmatch r1 s g k) as [x|] eqn:E; cbn [orelse].
    + intros [= ->]. by apply (IH1 Hr _ _ _ _ E).
    + intros H. exists [], s, g. by eauto.
  - intros H. destruct (star_from_sound _ _ _ _ H) as (l & s' & -> & _ & Hk).
    exists l, s', g. by eauto.
  - intros H. destruct (plus_from_sound _ _ _ _ H) as (l & s' & -> & _ & _ & Hk).
    exists l, s', g. by eauto.
  - destruct r1 as [| | | | | |c|]; try discriminate.
    destruct c; try discriminate. cbn [rmatch].
    intros H. destruct (plus_from_sound _ _ _ _ H) as (l & s' & -> & Hne & Hl & Hk).
    rewrite length_app in Hk.
    replace (length l + length s' - length s')%nat with (length l) in Hk by lia.
    rewrite take_app_length in Hk.
    exists l, s', (Some l). split; [done|]. split; [done|]. right.
    exists l. split; [done|]. split.
    + split; [done|]. eapply Forall_impl; [exact Hl|].
      intros a Ha. cbn in Ha. by destruct (Str.is_space a).
    + exists [], []. by rewrite app_nil_r.
Qed.

Lemma search_word r t w :
  word_groups r = true -> search r t = Some (Some w) ->
  is_word w /\ occurs_in w t.
Proof.
  intros Hr. induction t as [|a t IH]; cbn [search].
  - destruct (match_at r []) as [g|] eqn:E; [|done]. intros [= ->].
    destruct (rmatch_word r Hr _ _ _ _ E) as (l & s' & g' & Hs & [= ->] & Hg).
    destruct Hg as [[=] | (w' & [= <-] & Hw & pre & post & ->)].
    split; [done|]. exists pre, (post ++ s'). by rewrite Hs, <- !app_assoc.
  - destruct (match_at r (a :: t)) as [g|] eqn:E.
    + intros [= ->].
      destruct (rmatch_word r Hr _ _ _ _ E) as (l & s' & g' & Hs & [= ->] & Hg).
      destruct Hg as [[=] | (w' & [= <-] & Hw & pre & post & ->)].
      split; [done|]. exists pre, (post ++ s'). by rewrite Hs, <- !app_assoc.
    + intros H. destruct (IH H) as (Hw & pre & post & ->).
      split; [done|]. by exists (a :: pre), post.
Qed.

Lemma patterns_word_groups :
  forallb (fun r => word_groups r && sets_group r)
    (database_patterns ++ api_patterns ++ ssh_patterns ++ generic_patterns) = true.
Proof. reflexivity. Qed.

Lemma pattern_word p t n :
  p ∈ database_patterns ++ api_patterns ++ ssh_patterns ++ generic_patterns ->
  search_group1 p t = Some n -> is_word n /\ occurs_in n t.
Proof.
  intros Hp Hn. pose proof patterns_word_groups as H.
  rewrite forallb_forall in H. apply list_elem_of_In, H in Hp.
  apply andb_prop in Hp as [Hw Hs].
  apply (search_word p t n Hw). by apply search_group1_spec.
Qed.

Lemma lower_char_idemp a : Str.lower_char (Str.lower_char a) = Str.lower_char a.
Proof. destruct a as [[] [] [] [] [] [] [] []]; reflexivity. Qed.

Lemma lower_idemp s : Str.lower (Str.lower s) = Str.lower s.
Proof.
  unfold Str.lower. rewrite map_map. apply map_ext. intros a. apply lower_char_idemp.
Qed.

Lemma of_to_string l : Str.of_string (Str.to_string l) = l.
Proof. apply list_ascii_of_string_of_list_ascii. Qed.

Lemma to_of_string s : Str.to_string (Str.of_string s) = s.
Proof. apply string_of_list_ascii_of_string. Qed.

(** The name that the patterns find, if they find one. *)
Lemma parse_intent_name_pattern text n :
  resource_name (parse_intent text) = Some n ->
  exists p,
    p ∈ database_patterns ++ api_patterns ++ ssh_patterns ++ generic_patterns
    /\ search_group1 p (Str.lower (Str.of_string text)) = Some (Str.of_string n).
Proof.
  unfold parse_intent. set (t := Str.lower (Str.of_string text)).
  destruct (typed_match PATTERNS t) as [[ty g]|] eqn:E; cbn [resource_name].
  - intros [= <-]. rewrite of_to_string.
    destruct (typed_match_elem _ _ _ _ E) as (ps & p & Hin & Hp & Hm).
    exists p. split; [|done]. unfold PATTERNS in Hin.
    rewrite !elem_of_app.
    apply elem_of_cons in Hin as [[= -> ->] | Hin]; [by left|].
    apply elem_of_cons in Hin as [[= -> ->] | Hin]; [right; by left|].
    apply elem_of_cons in Hin as [[= -> ->] | Hin]; [right; right; by left|].
    by apply elem_of_nil in Hin.
  - destruct (first_match generic_patterns t) as [g|] eqn:E'; [|done].
    cbn [fmap option_fmap option_map]. intros [= <-]. rewrite of_to_string.
    destruct (first_match_elem _ _ _ E') as (p & Hp & Hm).
    exists p. split; [|done]. rewrite !elem_of_app. do 3 right. exact Hp.
Qed.

Lemma get_item_by_title_log self log title vault :
  exists rest,
    (OnePasswordClient.get_item_by_title self log title vault).2
    = log ++ OnePasswordClient.CallGetItemByTitle title vault :: rest.
Proof.
  unfold OnePasswordClient.get_item_by_title.
  destruct (negb (Py.str_truthy (Py.str_or vault (OnePasswordClient.vault_id self)))).
  { by exists []. }
  destruct (OnePasswordClient.client_get_items _ _) as [e|items].
  { eexists. cbn [snd]. by rewrite <- app_assoc. }
  destruct (find _ items) as [item|].
  - unfold OnePasswordClient.get_item.
    destruct (negb (Py.str_truthy (Py.str_or _ (OnePasswordClient.vault_id self)))).
    + eexists. cbn [snd]. by rewrite <- app_assoc.
    + eexists. cbn [snd]. by rewrite <- !app_assoc.
  - eexists. cbn [snd]. by rewrite <- app_assoc.
Qed.


(** X2.  When [parse_intent] returns a resource name, the name is a
    non-empty piece of the lower-cased text without white space in it, and
    it is in lower case itself. *)
Theorem parse_intent_resource_name (text n : string) :
  resource_name (parse_intent text) = Some n ->
  n <> ""
  /\ Forall (fun a => Str.is_space a = false) (Str.of_string n)
  /\ occurs_in (Str.of_string n) (Str.lower (Str.of_string text))
  /\ OnePasswordClient.str_lower n = n.
Proof.
  intros H. destruct (parse_intent_name_pattern _ _ H) as (p & Hp & Hm).
  destruct (pattern_word _ _ _ Hp Hm) as [[Hne Hw] Hocc].
  split; [by intros ->|]. split; [exact Hw|]. split; [exact Hocc|].
  destruct Hocc as (pre & post & Heq).
  unfold OnePasswordClient.str_lower.
  rewrite <- (to_of_string n) at 2. f_equal.
  assert (Hl : Str.lower (pre ++ Str.of_string n ++ post) = pre ++ Str.of_string n ++ post).
  { rewrite <- Heq. apply lower_idemp. }
  unfold Str.lower in Hl. rewrite !map_app in Hl.
  apply app_inj_1 in Hl as [_ Hl]; [|by rewrite length_map].
  apply app_inj_1 in Hl as [Hl _]; [|by rewrite length_map].
  exact Hl.
Qed.

End IntentResult.

(** ** The vault client: looking an item up *)

Section Lookup.
Import Py Lib OnePasswordClient Health.

Lemma find_first {A} (P : A -> bool) pre x post :
  Forall (fun y => P y = false) pre -> P x = true ->
  find P (pre ++ x :: post) = Some x.
Proof.
  intros Hpre Hx. induction Hpre as [|y pre Hy _ IH]; cbn [app find].
  - by rewrite Hx.
  - by rewrite Hy.
Qed.

Lemma find_none {A} (P : A -> bool) l :
  Forall (fun y => P y = false) l -> find P l = None.
Proof.
  induction 1 as [|y l Hy _ IH]; cbn [find]; [done|]. by rewrite Hy.
Qed.

(** What [get_item_by_title] finds in the list of the vault. *)
Lemma get_item_by_title_spec (self : OnePasswordClient) (log : list call)
    (title : string) (vault : option string) (v : string) (items : list Item) :
  str_or vault (vault_id self) = Some v -> v <> "" ->
  client_get_items (client self) v = inr items ->
  let same i := String.eqb (str_lower (Item_title i)) (str_lower title) in
  (forall pre item post,
     items = pre ++ item :: post ->
     Forall (fun i => same i = false) pre -> same item = true ->
     get_item_by_title self log title vault
     = (match client_get_item (client self) (Item_id item) v with
        | inl e => inl e
        | inr full_item => inr (Some full_item)
        end,
        log ++ [CallGetItemByTitle title vault; CallClientGetItems v;
                CallClientGetItem (Item_id item) v]))
  /\ (Forall (fun i => same i = false) items ->
      get_item_by_title self log title vault
      = (inr None, log ++ [CallGetItemByTitle title vault; CallClientGetItems v]))
  /\ (forall title',
        str_lower title' = str_lower title ->
        (get_item_by_title self log title' vault).1
        = (get_item_by_title self log title vault).1).
Proof.
  intros Hv Hne Hitems same.
  assert (Hv' : String.eqb v "" = false) by (by apply String.eqb_neq).
  split; [|split].
  - intros pre item post -> Hpre Hitem.
    unfold get_item_by_title. rewrite Hv. cbn [str_truthy from_option id]. rewrite Hv'.
    cbn [negb]. rewrite Hitems. fold same. rewrite (find_first same) by done.
    unfold get_item. cbn [str_or]. rewrite Hv'. cbn [str_truthy]. rewrite Hv'.
    cbn [negb from_option id].
    rewrite <- !app_assoc. cbn [app]. by destruct (client_get_item _ _ _).
  - intros Hnone.
    unfold get_item_by_title. rewrite Hv. cbn [str_truthy from_option id]. rewrite Hv'.
    cbn [negb]. rewrite Hitems. fold same. rewrite (find_none same) by done.
    by rewrite <- !app_assoc.
  - intros title' Heq.
    unfold get_item_by_title. rewrite Hv. cbn [str_truthy from_option id]. rewrite Hv'.
    cbn [negb]. rewrite Hitems, Heq.
    destruct (find _ items) as [item|]; [|done].
    unfold get_item. cbn [str_or]. rewrite Hv'. cbn [str_truthy]. rewrite Hv'.
    cbn [negb from_option id].
    reflexivity.
Qed.

(** X3.  [get_item_by_title] compares titles without regard to case; of
    the items that the vault lists, the first one with the title decides,
    and what is returned is that item as [client.get_item] delivers it by
    its id.  When no listed item has the title the result is [None], after
    the one request for the list. *)
Theorem get_item_by_title_first_match (self : OnePasswordClient) (log : list call)
    (title : string) (vault : option string) (v : string) (items : list Item) :
  str_or vault (vault_id self) = Some v -> v <> "" ->
  client_get_items (client self) v = inr items ->
  let same i := String.eqb (str_lower (Item_title i)) (str_lower title) in
  (forall pre item post,
     items = pre ++ item :: post ->
     Forall (fun i => same i = false) pre -> same item = true ->
     get_item_by_title self log title vault
     = (match client_get_item (client self) (Item_id item) v with
        | inl e => inl e
        | inr full_item => inr (Some full_item)
        end,
        log ++ [CallGetItemByTitle title vault; CallClientGetItems v;
                CallClientGetItem (Item_id item) v]))
  /\ (Forall (fun i => same i = false) items ->
      get_item_by_title self log title vault
      = (inr None, log ++ [CallGetItemByTitle title vault; CallClientGetItems v]))
  /\ (forall title',
        str_lower title' = str_lower title ->
        (get_item_by_title self log title' vault).1
        = (get_item_by_title self log title vault).1).
Proof. exact (get_item_by_title_spec self log title vault v items). Qed.

(** X4.  The four methods that take a vault id share one rule: an id that
    is given and not empty is used, whatever the default; without one, and
    without a default, the method raises "vault_id is required" and the
    Connect server is not asked.  The health check then reports
    "unhealthy" with that message. *)
Theorem vault_id_required (self : OnePasswordClient) (log : list call)
    (item_id title : string) (vault : option string)
    (client_get_vault : string -> result Vault) :
  (forall v, v <> "" ->
     get_item self log item_id (Some v)
     = (client_get_item (client self) item_id v, log ++ [CallClientGetItem item_id v])
     /\ list_items self log (Some v)
        = (client_get_items (client self) v, log ++ [CallClientGetItems v])
     /\ get_vault self client_get_vault (Some v) = client_get_vault v)
  /\ (str_truthy vault = false -> str_truthy (vault_id self) = false ->
      let e := ValueError "vault_id is required" in
      get_item self log item_id vault = (inl e, log)
      /\ get_item_by_title self log title vault
         = (inl e, log ++ [CallGetItemByTitle title vault])
      /\ list_items self log vault = (inl e, log)
      /\ get_vault self client_get_vault vault = inl e
      /\ op_health_check self client_get_vault !! "status" = Some (PStr "unhealthy")
      /\ op_health_check self client_get_vault !! "error"
         = Some (PStr "vault_id is required")).
Proof.
  split.
  - intros v Hne. apply String.eqb_neq in Hne.
    unfold get_item, list_items, get_vault. cbn [str_or]. rewrite Hne.
    cbn [str_truthy]. rewrite Hne. cbn [negb from_option id]. done.
  - intros Hvault Hdef e.
    assert (Ht : forall x, str_truthy x = false -> str_truthy (str_or x (vault_id self)) = false).
    { intros [s|] Hx; cbn [str_or]; [|done]. cbn in Hx.
      destruct (String.eqb s ""); [done | discriminate]. }
    unfold get_item, get_item_by_title, list_items, op_health_check, get_vault.
    rewrite (Ht vault Hvault), (Ht None eq_refl). cbn [negb]. done.
Qed.

End Lookup.

(** ** The vault client: the credential dictionary *)

Section Extract.
Import Py Lib OnePasswordClient.

Lemma fold_add_field_sound fields acc k v :
  fold_left add_field fields acc !! k = Some v ->
  acc !! k = Some v
  \/ exists f, f ∈ fields /\ Field_label f = Some k /\ Field_value f = Some v /\ v <> "".
Proof.
  revert acc. induction fields as [|f fields IH]; intros acc; cbn [fold_left]; [by left|].
  intros H. destruct (IH _ H) as [Hacc | (f' & Hin & Hl & Hv & Hne)].
  - unfold add_field in Hacc.
    destruct (Field_label f) as [l|] eqn:El; [|by left].
    destruct (Field_value f) as [x|] eqn:Ex; [|by left].
    destruct (String.eqb_spec x "") as [->|Hx]; [by left|].
    destruct (decide (l = k)) as [->|Hlk].
    + rewrite lookup_insert_eq in Hacc. injection Hacc as ->.
      right. exists f. split; [left | done].
    + rewrite lookup_insert_ne in Hacc by done. by left.
  - right. exists f'. split; [by right | done].
Qed.

(** X5.  Apart from the three metadata keys, every entry of the dictionary
    that [extract_credential_fields] builds comes from the item and has a
    value that is not empty: it is the item's user name under "username",
    or the value of one of the item's fields under the field's label. *)
Theorem extract_credential_fields_sound (item : Item) (k v : string) :
  extract_credential_fields item !! k = Some v ->
  k ∉ metadata_keys ->
  v <> ""
  /\ ((k = "username" /\ Item_username item = Some v)
      \/ exists fields f,
           Item_fields item = Some fields /\ f ∈ fields
           /\ Field_label f = Some k /\ Field_value f = Some v).
Proof.
  intros H Hk.
  assert (k <> "_item_id" /\ k <> "_item_title" /\ k <> "_vault_id") as (H1 & H2 & H3).
  { unfold metadata_keys in Hk. set_solver. }
  unfold extract_credential_fields in H.
  rewrite !lookup_insert_ne in H by congruence.
  assert (Huser : forall m : gmap string string,
            m = match Item_username item with
                | Some u => if String.eqb u "" then ∅ else <["username" := u]> ∅
                | None => ∅
                end ->
            m !! k = Some v ->
            v <> "" /\ k = "username" /\ Item_username item = Some v).
  { intros m -> Hm. destruct (Item_username item) as [u|]; [|by rewrite lookup_empty in Hm].
    destruct (String.eqb u "") eqn:Hu; [by rewrite lookup_empty in Hm|].
    apply String.eqb_neq in Hu.
    destruct (decide (k = "username")) as [->|Hne].
    - rewrite lookup_insert_eq in Hm. injection Hm as <-. done.
    - rewrite lookup_insert_ne in Hm by done. by rewrite lookup_empty in Hm. }
  destruct (Item_fields item) as [fields|] eqn:Ef.
  - apply fold_add_field_sound in H as [H | (f & Hin & Hl & Hv & Hne)].
    + destruct (Huser _ eq_refl H) as (? & ? & ?). split; [done|]. by left.
    + split; [done|]. right. by exists fields, f.
  - destruct (Huser _ eq_refl H) as (? & ? & ?). split; [done|]. by left.
Qed.

End Extract.

(** ** The audit logger: requests, local log and retries *)

Section Delivery.
Import Py Lib AuditLogger AuditRetry.
Context {L : Libs}.

Lemma with_client_fields self :
  failed_events_queue (with_client self) = failed_events_queue self
  /\ events_api_enabled (with_client self) = events_api_enabled self
  /\ events_api_url (with_client self) = events_api_url self
  /\ max_retries (with_client self) = max_retries self
  /\ enable_local_fallback (with_client self) = enable_local_fallback self
  /\ local_log_file (with_client self) = local_log_file self
  /\ with_client (with_client self) = with_client self.
Proof.
  unfold with_client. destruct (events_api_enabled self) eqn:E; cbn; rewrite ?E; done.
Qed.

(** The requests of one [_post_event_to_api], for a configured logger. *)
Lemma post_event_enabled remaining self E w ev :
  events_api_enabled self = true ->
  exists (n : nat) (ok : bool),
    post_event remaining self E w ev
    = (ok, _get_http_client self,
       {| files := files w; posts := posts w ++ replicate n (events_url self, ev) |})
    /\ (1 <= n <= remaining + 1)%nat
    /\ (forall i, (i < n - 1)%nat -> collector E (length (posts w) + i) = RequestError)
    /\ match collector E (length (posts w) + (n - 1)) with
       | Response code => ok = bool_decide (code ∈ [200; 201; 202])
       | RequestError => ok = false /\ n = (remaining + 1)%nat
       end.
Proof.
  revert self w. induction remaining as [|rem IH]; intros self w Hen.
  - exists 1%nat. cbn [post_event]. rewrite Hen. cbn [negb].
    destruct (collector E (length (posts w))) as [code|] eqn:Hc.
    + exists (bool_decide (code ∈ [200; 201; 202])).
      split; [reflexivity|]. split; [lia|]. split; [intros i Hi; lia|].
      replace (length (posts w) + (1 - 1))%nat with (length (posts w)) by lia.
      by rewrite Hc.
    + exists false. split; [reflexivity|]. split; [lia|]. split; [intros i Hi; lia|].
      replace (length (posts w) + (1 - 1))%nat with (length (posts w)) by lia.
      by rewrite Hc.
  - cbn [post_event]. rewrite Hen. cbn [negb].
    destruct (collector E (length (posts w))) as [code|] eqn:Hc.
    + exists 1%nat, (bool_decide (code ∈ [200; 201; 202])).
      split; [reflexivity|]. split; [lia|]. split; [intros i Hi; lia|].
      replace (length (posts w) + (1 - 1))%nat with (length (posts w)) by lia.
      by rewrite Hc.
    + match goal with |- context [post_event rem ?s E ?w' ev] =>
        destruct (IH s w' Hen) as (n & ok & Heq & Hn & Hbefore & Hlast)
      end.
      exists (S n), ok. split.
      { rewrite Heq. cbn [files posts replicate]. do 2 f_equal.
        by rewrite <- app_assoc. }
      split; [lia|]. cbn [posts] in Hbefore, Hlast.
      rewrite length_app in Hbefore, Hlast. cbn [length] in Hbefore, Hlast.
      split.
      * intros i Hi. destruct i as [|i].
        -- by rewrite Nat.add_0_r.
        -- replace (length (posts w) + S i)%nat with (length (posts w) + 1 + i)%nat by lia.
           apply Hbefore. lia.
      * replace (length (posts w) + (S n - 1))%nat
          with (length (posts w) + 1 + (n - 1))%nat by lia.
        destruct (collector E (length (posts w) + 1 + (n - 1))%nat) as [c|];
          [exact Hlast|].
        destruct Hlast as [-> ->]. split; [done | lia].
Qed.

(** What [_post_event_to_api] does, request by request. *)
Lemma post_event_to_api_spec (self : AuditLogger) (E : env) (w : world)
    (ev : event) (retry_count : Z) :
  exists (n : nat) (ok : bool),
    _post_event_to_api self E w ev retry_count
    = (ok, with_client self,
       {| files := files w; posts := posts w ++ replicate n (events_url self, ev) |})
    /\ (events_api_enabled self = false -> n = 0%nat /\ ok = false)
    /\ (events_api_enabled self = true ->
        (1 <= n <= Z.to_nat (max_retries self - retry_count) + 1)%nat
        /\ (forall i, (i < n - 1)%nat ->
                      collector E (length (posts w) + i) = RequestError)
        /\ match collector E (length (posts w) + (n - 1)) with
           | Response code => ok = bool_decide (code ∈ [200; 201; 202])
           | RequestError =>
               ok = false /\ n = (Z.to_nat (max_retries self - retry_count) + 1)%nat
           end).
Proof.
  unfold _post_event_to_api, with_client.
  destruct (events_api_enabled self) eqn:Hen.
  - destruct (post_event_enabled (Z.to_nat (max_retries self - retry_count))
                self E w ev Hen) as (n & ok & Heq & Hrest).
    exists n, ok. split; [exact Heq|]. split; [discriminate | by intros _].
  - exists 0%nat, false. rewrite post_event_disabled by done.
    cbn [replicate]. rewrite app_nil_r. split; [by destruct w|].
    split; [done | discriminate].
Qed.

(** X6.  [_post_event_to_api] of a configured logger sends the event to
    [<url>/events] at least once and at most [max_retries - retry_count + 1]
    times: an attempt is repeated only after a request that raised; the
    first answer of the collector, whatever its status, ends the attempts,
    and the result is [True] exactly for the statuses 200, 201 and 202.
    An unconfigured logger sends nothing.  Neither the retry queue nor the
    local files are touched. *)
Theorem post_event_to_api_attempts (self : AuditLogger) (E : env) (w : world)
    (ev : event) (retry_count : Z) :
  exists (n : nat) (ok : bool),
    _post_event_to_api self E w ev retry_count
    = (ok, with_client self,
       {| files := files w; posts := posts w ++ replicate n (events_url self, ev) |})
    /\ (events_api_enabled self = false -> n = 0%nat /\ ok = false)
    /\ (events_api_enabled self = true ->
        (1 <= n <= Z.to_nat (max_retries self - retry_count) + 1)%nat
        /\ (forall i, (i < n - 1)%nat ->
                      collector E (length (posts w) + i) = RequestError)
        /\ match collector E (length (posts w) + (n - 1)) with
           | Response code => ok = bool_decide (code ∈ [200; 201; 202])
           | RequestError =>
               ok = false /\ n = (Z.to_nat (max_retries self - retry_count) + 1)%nat
           end).
Proof. exact (post_event_to_api_spec self E w ev retry_count). Qed.

(** What one logging call does, in terms of the delivery. *)
Lemma emit_delivery self E w ev :
  exists (n : nat) (ok : bool),
    emit self E w ev
    = (if ok then with_client self
       else set_queue (with_client self)
              (deque_append QUEUE_MAXLEN (failed_events_queue self) ev),
       {| files := files (_log_event_locally self E w ev);
          posts := posts w ++ replicate n (events_url self, ev) |})
    /\ (events_api_enabled self = false -> n = 0%nat /\ ok = false)
    /\ (events_api_enabled self = true ->
        (1 <= n)%nat
        /\ (forall code, collector E (length (posts w)) = Response code ->
              n = 1%nat /\ ok = bool_decide (code ∈ [200; 201; 202]))).
Proof.
  unfold emit.
  destruct (post_event_to_api_spec self E (_log_event_locally self E w ev) ev 0)
    as (n & ok & Heq & Hdis & Hen).
  exists n, ok. rewrite Heq. rewrite log_event_locally_posts in *.
  destruct (with_client_fields self) as (Hq & _).
  split; [destruct ok; cbn [negb]; by rewrite ?Hq|].
  split; [exact Hdis|].
  intros H. destruct (Hen H) as (Hn & Hbefore & Hlast). split; [lia|].
  intros code Hc.
  destruct (decide (n = 1%nat)) as [->|Hne].
  - replace (length (posts w) + (1 - 1))%nat with (length (posts w)) in Hlast by lia.
    rewrite Hc in Hlast. done.
  - specialize (Hbefore 0%nat ltac:(lia)). rewrite Nat.add_0_r in Hbefore. congruence.
Qed.


(** X8.  A configured logger whose first request is answered does not try
    again, whatever the status of the answer: the event is queued for retry
    exactly when the status is not 200, 201 or 202, and one request has been
    sent either way. *)
Theorem log_credential_access_answered (self : AuditLogger) (E : env) (w : world)
    (now protocol agent_id resource outcome : string)
    (metadata : option (gmap string pyval)) (code : Z) :
  events_api_enabled self = true ->
  collector E (length (posts w)) = Response code ->
  let ev := _create_event_payload now "credential_access" protocol agent_id resource
              outcome metadata in
  let '(self', w') :=
    log_credential_access self E w now protocol agent_id resource outcome metadata in
  posts w' = posts w ++ [(events_url self, ev)]
  /\ http_client self' = true
  /\ failed_events_queue self'
     = if bool_decide (code ∈ [200; 201; 202])
       then failed_events_queue self
       else deque_append QUEUE_MAXLEN (failed_events_queue self) ev.
Proof.
  intros Hen Hc ev. unfold log_credential_access. fold ev.
  destruct (emit_delivery self E w ev) as (n & ok & -> & _ & H).
  destruct (H Hen) as (_ & Hcode). destruct (Hcode code Hc) as [-> ->].
  cbn [posts replicate]. split; [done|].
  unfold with_client. rewrite Hen.
  by destruct (bool_decide _).
Qed.

End Delivery.

Section Retry.
Import Py Lib AuditLogger AuditRetry.
Context {L : Libs}.

Lemma same_settings_refl self : same_settings self self.
Proof. by repeat split. Qed.

Lemma same_settings_trans a b c :
  same_settings a b -> same_settings b c -> same_settings a c.
Proof.
  intros (?&?&?&?&?&?) (?&?&?&?&?&?). repeat split; congruence.
Qed.

Lemma same_settings_with_client self : same_settings self (with_client self).
Proof. unfold with_client. destruct (events_api_enabled self) eqn:E; by repeat split. Qed.

Lemma same_settings_set_queue self q : same_settings self (set_queue self q).
Proof. by repeat split. Qed.

Lemma length_deque_append {A} (q : list A) x :
  (length (deque_append QUEUE_MAXLEN q x) <= 1000)%nat.
Proof.
  unfold deque_append, QUEUE_MAXLEN. rewrite length_drop, length_app. cbn [length]. lia.
Qed.

Lemma deque_append_room {A} (q : list A) x :
  (length q < 1000)%nat -> deque_append QUEUE_MAXLEN q x = q ++ [x].
Proof.
  intros H. unfold deque_append, QUEUE_MAXLEN. rewrite length_app. cbn [length].
  by replace (length q + 1 - 1000)%nat with 0%nat by lia.
Qed.

Lemma requeue_queue self failed_again :
  failed_events_queue (requeue self failed_again)
  = fold_left (deque_append QUEUE_MAXLEN) failed_again (failed_events_queue self)
  /\ same_settings self (requeue self failed_again)
  /\ http_client (requeue self failed_again) = http_client self.
Proof.
  unfold requeue. revert self.
  induction failed_again as [|ev evs IH]; intros self; cbn [fold_left].
  - split; [done|]. split; [apply same_settings_refl | done].
  - destruct (IH (set_queue self (deque_append QUEUE_MAXLEN (failed_events_queue self) ev)))
      as (Hq & Hs & Hc).
    split; [exact Hq|]. split; [|exact Hc].
    eapply same_settings_trans; [apply same_settings_set_queue | exact Hs].
Qed.

Lemma fold_deque_append_room {A} (evs q : list A) :
  (length q + length evs <= 1000)%nat ->
  fold_left (deque_append QUEUE_MAXLEN) evs q = q ++ evs.
Proof.
  revert q. induction evs as [|x evs IH]; intros q H; cbn [fold_left].
  - by rewrite app_nil_r.
  - cbn [length] in H. rewrite deque_append_room by lia.
    rewrite IH by (rewrite length_app; cbn [length]; lia).
    by rewrite <- app_assoc.
Qed.

Lemma accepted_first self E w ev :
  events_api_enabled self = true ->
  (forall i, exists code, collector E i = Response code /\ code ∈ [200; 201; 202]) ->
  exists n, _post_event_to_api self E w ev 0
            = (true, with_client self,
               {| files := files w; posts := posts w ++ replicate n (events_url self, ev) |}).
Proof.
  intros Hen Hacc.
  destruct (post_event_to_api_spec self E w ev 0) as (n & ok & Heq & _ & H).
  destruct (H Hen) as (_ & _ & Hlast).
  destruct (Hacc (length (posts w) + (n - 1))%nat) as (code & Hc & Hcode).
  rewrite Hc in Hlast. exists n. rewrite Heq, Hlast. by rewrite bool_decide_eq_true_2.
Qed.

Lemma rejected_all self E w ev :
  rejecting E ->
  exists n, _post_event_to_api self E w ev 0
            = (false, with_client self,
               {| files := files w; posts := posts w ++ replicate n (events_url self, ev) |}).
Proof.
  intros Hrej.
  destruct (post_event_to_api_spec self E w ev 0) as (n & ok & Heq & Hdis & H).
  exists n. rewrite Heq. do 2 f_equal.
  destruct (events_api_enabled self) eqn:Hen.
  - destruct (H eq_refl) as (_ & _ & Hlast).
    pose proof (Hrej (length (posts w) + (n - 1))%nat) as Hr.
    destruct (collector E _) as [code|]; [|by destruct Hlast].
    rewrite Hlast. by apply bool_decide_eq_false.
  - by destruct (Hdis eq_refl).
Qed.

(** The loop of [retry_failed_events]. *)
Lemma retry_loop_spec queue self E w successful failed_again :
  failed_events_queue self = queue ->
  let '(successful', failed_again', self', w') :=
    retry_loop queue self E w successful failed_again in
  exists kept,
    failed_again' = failed_again ++ kept
    /\ sublist kept queue
    /\ successful' = successful + Z.of_nat (length queue - length kept)
    /\ files w' = files w
    /\ same_settings self self'
    /\ failed_events_queue self' = []
    /\ (events_api_enabled self = false ->
        kept = queue /\ posts w' = posts w /\ http_client self' = http_client self)
    /\ (rejecting E -> kept = queue)
    /\ (events_api_enabled self = true ->
        (forall i, exists code,
            collector E i = Response code /\ code ∈ [200; 201; 202]) ->
        kept = []).
Proof.
  revert self w successful failed_again.
  induction queue as [|ev queue IH]; intros self w successful failed_again Hqueue;
    cbn [retry_loop].
  - exists []. rewrite app_nil_r. split; [done|]. split; [done|].
    split; [cbn; lia|]. split; [done|]. split; [apply same_settings_refl|].
    by repeat split.
  - set (self0 := set_queue self queue).
    set (self1 := with_client self0).
    assert (Hs1 : same_settings self self1).
    { eapply same_settings_trans;
        [apply same_settings_set_queue | apply same_settings_with_client]. }
    assert (Hq1 : failed_events_queue self1 = queue).
    { unfold self1. by destruct (with_client_fields self0) as (-> & _). }
    assert (Hen1 : events_api_enabled self1 = events_api_enabled self).
    { symmetry. apply Hs1. }
    destruct (post_event_to_api_spec self0 E w ev 0)
      as (n & ok & Heq & Hdis & Hen).
    rewrite Heq. fold self1.
    set (w1 := {| files := files w;
                  posts := posts w ++ replicate n (events_url self0, ev) |}).
    destruct ok.
    + specialize (IH self1 w1 (successful + 1) failed_again Hq1).
      destruct (retry_loop queue self1 E w1 (successful + 1) failed_again)
        as [[[s' fa'] self'] w'].
      destruct IH as (kept & -> & Hsub & -> & Hf & Hs & Hq & Hd & Hr & Ha).
      exists kept. split; [done|]. split; [by apply sublist_cons|].
      pose proof (sublist_length _ _ Hsub) as Hle.
      split; [cbn [length]; lia|]. split; [done|].
      split; [by eapply same_settings_trans|]. split; [done|].
      split; [|split].
      * intros Hoff. by destruct (Hdis Hoff).
      * intros Hrej. destruct (rejected_all self0 E w ev Hrej) as (n' & Heq').
        rewrite Heq in Heq'. discriminate Heq'.
      * intros Hon Hacc. apply Ha; [by rewrite Hen1 | done].
    + specialize (IH self1 w1 successful (failed_again ++ [ev]) Hq1).
      destruct (retry_loop queue self1 E w1 successful (failed_again ++ [ev]))
        as [[[s' fa'] self'] w'].
      destruct IH as (kept & -> & Hsub & -> & Hf & Hs & Hq & Hd & Hr & Ha).
      exists (ev :: kept). split; [by rewrite <- app_assoc|].
      split; [by apply sublist_skip|].
      split; [cbn [length]; lia|]. split; [done|].
      split; [by eapply same_settings_trans|]. split; [done|].
      split; [|split].
      * intros Hoff. destruct (Hdis Hoff) as [-> _].
        destruct (Hd ltac:(by rewrite Hen1)) as (-> & -> & ->).
        split; [done|]. split.
        -- unfold w1. cbn [posts replicate]. by rewrite app_nil_r.
        -- unfold self1, self0, with_client. cbn [events_api_enabled set_queue].
           by rewrite Hoff.
      * intros Hrej. by rewrite (Hr Hrej).
      * intros Hon Hacc. destruct (accepted_first self0 E w ev Hon Hacc) as (n' & Heq').
        rewrite Heq in Heq'. discriminate Heq'.
Qed.

(** What [retry_failed_events] does to a queue within its bound. *)
Lemma retry_failed_events_spec (self : AuditLogger) (E : env) (w : world) :
  (length (failed_events_queue self) <= 1000)%nat ->
  let '(successful, self', w') := retry_failed_events self E w in
  sublist (failed_events_queue self') (failed_events_queue self)
  /\ successful
     = Z.of_nat (length (failed_events_queue self) - length (failed_events_queue self'))
  /\ files w' = files w
  /\ same_settings self self'
  /\ (events_api_enabled self = false ->
      successful = 0 /\ failed_events_queue self' = failed_events_queue self
      /\ posts w' = posts w /\ http_client self' = http_client self)
  /\ (rejecting E ->
      successful = 0 /\ failed_events_queue self' = failed_events_queue self)
  /\ (events_api_enabled self = true ->
      (forall i, exists code, collector E i = Response code /\ code ∈ [200; 201; 202]) ->
      successful = Z.of_nat (length (failed_events_queue self))
      /\ failed_events_queue self' = []).
Proof.
  intros Hlen. unfold retry_failed_events.
  destruct (failed_events_queue self) as [|ev0 q0] eqn:Hq.
  { rewrite Hq. split; [done|]. split; [done|]. split; [done|].
    split; [apply same_settings_refl|]. by repeat split. }
  rewrite <- Hq in *.
  pose proof (retry_loop_spec (failed_events_queue self) self E w 0 [] eq_refl) as H.
  destruct (retry_loop (failed_events_queue self) self E w 0 [])
    as [[[s' fa'] self1] w'].
  destruct H as (kept & -> & Hsub & -> & Hf & Hs & Hq1 & Hd & Hr & Ha).
  cbn [app].
  destruct (requeue_queue self1 kept) as (Hrq & Hrs & Hrc).
  pose proof (sublist_length _ _ Hsub) as Hle.
  assert (Hkept : failed_events_queue (requeue self1 kept) = kept).
  { rewrite Hrq, Hq1. rewrite fold_deque_append_room; [done|]. cbn [length]. lia. }
  rewrite Hkept.
  split; [done|]. split; [lia|]. split; [done|].
  split; [by eapply same_settings_trans|].
  split; [|split].
  - intros Hoff. destruct (Hd Hoff) as (-> & -> & Hc).
    split; [lia|]. split; [done|]. split; [done|]. by rewrite Hrc.
  - intros Hrej. rewrite (Hr Hrej). split; [lia | done].
  - intros Hon Hacc. rewrite (Ha Hon Hacc). cbn [length]. split; [f_equal; lia | done].
Qed.

(** X9.  [retry_failed_events] loses no event and invents none: what is
    left in the queue is a sub-sequence of what was there, in the same
    order, and the number returned is the number of events that left it.
    No local file is written and no setting changes.  Without a collector,
    or with one that never accepts, nothing leaves the queue; with one that
    accepts every request the queue is emptied. *)
Theorem retry_failed_events_conserves (self : AuditLogger) (E : env) (w : world) :
  (length (failed_events_queue self) <= 1000)%nat ->
  let '(successful, self', w') := retry_failed_events self E w in
  sublist (failed_events_queue self') (failed_events_queue self)
  /\ successful
     = Z.of_nat (length (failed_events_queue self) - length (failed_events_queue self'))
  /\ files w' = files w
  /\ same_settings self self'
  /\ (events_api_enabled self = false ->
      successful = 0 /\ failed_events_queue self' = failed_events_queue self
      /\ posts w' = posts w /\ http_client self' = http_client self)
  /\ (rejecting E ->
      successful = 0 /\ failed_events_queue self' = failed_events_queue self)
  /\ (events_api_enabled self = true ->
      (forall i, exists code, collector E i = Response code /\ code ∈ [200; 201; 202]) ->
      successful = Z.of_nat (length (failed_events_queue self))
      /\ failed_events_queue self' = []).
Proof. exact (retry_failed_events_spec self E w). Qed.

End Retry.

(** ** The audit logger over a run of calls *)

Section Runs.
Import Py Lib AuditLogger AuditRetry.
Context {L : Libs}.

Lemma emit_bounded self E w ev :
  (length (failed_events_queue (emit self E w ev).1) <= 1000)%nat
  \/ failed_events_queue (emit self E w ev).1 = failed_events_queue self.
Proof.
  destruct (emit_delivery self E w ev) as (n & ok & -> & _).
  destruct (with_client_fields self) as (Hq & _).
  destruct ok; cbn [fst]; [by right|]. left. apply length_deque_append.
Qed.

Lemma emit_settings self E w ev : same_settings self (emit self E w ev).1.
Proof.
  destruct (emit_delivery self E w ev) as (n & ok & -> & _).
  destruct ok; cbn [fst].
  - apply same_settings_with_client.
  - eapply same_settings_trans;
      [apply same_settings_with_client | apply same_settings_set_queue].
Qed.

Lemma call_event_emit self E w c ev :
  call_event c = Some ev -> audit_step self E w c = emit self E w ev.
Proof. destruct c; cbn [call_event]; intros [= <-]; reflexivity. Qed.

Lemma audit_step_bounded self E w c :
  (length (failed_events_queue self) <= 1000)%nat ->
  (length (failed_events_queue (audit_step self E w c).1) <= 1000)%nat
  /\ same_settings self (audit_step self E w c).1.
Proof.
  intros Hlen. destruct (call_event c) as [ev|] eqn:Hc.
  - rewrite (call_event_emit _ _ _ _ _ Hc). split; [|apply emit_settings].
    destruct (emit_bounded self E w ev) as [H | ->]; done.
  - destruct c; try discriminate; cbn [audit_step].
    + pose proof (retry_failed_events_spec self E w Hlen) as H.
      destruct (retry_failed_events self E w) as [[k self'] w'].
      destruct H as (Hsub & _ & _ & Hs & _). cbn [fst]. split; [|done].
      apply sublist_length in Hsub. lia.
    + cbn [fst]. unfold close. destruct (http_client self); [|by split; [|apply same_settings_refl]].
      split; [done | by repeat split].
Qed.

Lemma audit_run_bounded self E w calls :
  (length (failed_events_queue self) <= 1000)%nat ->
  (length (failed_events_queue (audit_run self E w calls).1) <= 1000)%nat
  /\ same_settings self (audit_run self E w calls).1.
Proof.
  unfold audit_run. revert self w.
  induction calls as [|c calls IH]; intros self w Hlen; cbn [fold_left].
  - split; [done | apply same_settings_refl].
  - destruct (audit_step_bounded self E w c Hlen) as [Hb Hs].
    destruct (audit_step self E w c) as [self1 w1]. cbn [fst] in Hb, Hs.
    destruct (IH self1 w1 Hb) as [Hb' Hs']. split; [done|].
    by eapply same_settings_trans.
Qed.

(** X10.  Whatever is called on a logger after its construction, and in
    whatever order (the three logging methods, [retry_failed_events],
    [close]), the retry queue never holds more than 1000 events;
    [get_queue_size] and [get_stats] report its length, and the settings
    that [get_stats] reports are those of the construction. *)
Theorem queue_size_bounded (url token : option string) (retries : Z)
    (local_fallback : bool) (log_file : string) (E : env) (w : world)
    (calls : list audit_call) :
  let self' := (audit_run (init url token retries local_fallback log_file) E w calls).1 in
  0 <= get_queue_size self' <= 1000
  /\ failed_queue_size (get_stats self') = get_queue_size self'
  /\ stats_events_api_enabled (get_stats self') = str_truthy url && str_truthy token
  /\ local_fallback_enabled (get_stats self') = local_fallback
  /\ stats_local_log_file (get_stats self') = log_file.
Proof.
  intros self'.
  destruct (audit_run_bounded (init url token retries local_fallback log_file) E w calls)
    as (Hb & Hs); [cbn; lia|].
  fold self' in Hb, Hs. destruct Hs as (_ & _ & _ & Hfb & Hfile & Hen).
  unfold get_queue_size. split; [lia|]. split; [reflexivity|].
  unfold get_stats. cbn [stats_events_api_enabled local_fallback_enabled stats_local_log_file].
  rewrite <- Hfb, <- Hfile, <- Hen. done.
Qed.

(** One call on a logger without collector and without client. *)
Lemma audit_step_unconfigured self E w c :
  events_api_enabled self = false -> http_client self = false ->
  (length (failed_events_queue self) <= 1000)%nat ->
  let '(self', w') := audit_step self E w c in
  events_api_enabled self' = false /\ http_client self' = false
  /\ posts w' = posts w
  /\ failed_events_queue self'
     = match call_event c with
       | Some ev => deque_append QUEUE_MAXLEN (failed_events_queue self) ev
       | None => failed_events_queue self
       end.
Proof.
  intros Hoff Hc Hlen. destruct (call_event c) as [ev|] eqn:Hev.
  - rewrite (call_event_emit _ _ _ _ _ Hev), emit_unconfigured by done.
    by rewrite log_event_locally_posts.
  - destruct c; try discriminate; cbn [audit_step].
    + pose proof (retry_failed_events_spec self E w Hlen) as H.
      destruct (retry_failed_events self E w) as [[k self'] w'].
      destruct H as (_ & _ & _ & Hs & Hd & _).
      destruct (Hd Hoff) as (_ & -> & -> & ->).
      split; [|done]. rewrite <- Hoff. symmetry. apply Hs.
    + unfold close. by rewrite Hc.
Qed.

(** X11.  A logger constructed without the URL or without the token of
    the collector never sends a request and never creates an HTTP client,
    whatever is called on it; every event that is logged goes to the retry
    queue, which therefore holds the last 1000 of them, and
    [retry_failed_events] leaves it as it is. *)
Theorem unconfigured_never_sends (url token : option string) (retries : Z)
    (local_fallback : bool) (log_file : string) (E : env) (w : world)
    (calls : list audit_call) :
  str_truthy url && str_truthy token = false ->
  let '(self', w') := audit_run (init url token retries local_fallback log_file) E w calls in
  let events := omap call_event calls in
  posts w' = posts w
  /\ http_client self' = false
  /\ failed_events_queue self' = drop (length events - 1000) events.
Proof.
  intros Hoff.
  assert (H : forall calls self w,
            events_api_enabled self = false -> http_client self = false ->
            (length (failed_events_queue self) <= 1000)%nat ->
            let '(self', w') := audit_run self E w calls in
            posts w' = posts w /\ http_client self' = false
            /\ failed_events_queue self'
               = fold_left (deque_append QUEUE_MAXLEN) (omap call_event calls)
                   (failed_events_queue self)).
  { clear. unfold audit_run. induction calls as [|c calls IH]; intros self w Hoff Hc Hlen;
      cbn [fold_left omap list_omap]; [done|].
    pose proof (audit_step_unconfigured self E w c Hoff Hc Hlen) as Hstep.
    pose proof (audit_step_bounded self E w c Hlen) as [Hb _].
    destruct (audit_step self E w c) as [self1 w1]. cbn [fst] in Hb.
    destruct Hstep as (Hoff1 & Hc1 & Hp1 & Hq1).
    specialize (IH self1 w1 Hoff1 Hc1 Hb).
    destruct (fold_left _ calls (self1, w1)) as [self' w'].
    destruct IH as (-> & -> & ->). split; [done|]. split; [done|].
    rewrite Hq1. by destruct (call_event c). }
  specialize (H calls (init url token retries local_fallback log_file) w Hoff eq_refl
                ltac:(cbn; lia)).
  destruct (audit_run _ E w calls) as [self' w'].
  destruct H as (-> & -> & ->). split; [done|]. split; [done|].
  cbn [init failed_events_queue].
  pose proof (deque_append_all QUEUE_MAXLEN [] (omap call_event calls)) as Hd.
  cbn [length app] in Hd. by rewrite drop_nil in Hd.
Qed.

End Runs.

(** ** Issued tokens: lifetime, validation and the way back to the credentials *)

Section Issued.
Import Py Lib PyJWT TokenManager TokenQueries TokenValidation.
Context {L : Libs}.

Lemma generate_jwt_inv self agent_id creds rt rn ttl_minutes now iv tok :
  generate_jwt self agent_id creds rt rn ttl_minutes None now iv = inr tok ->
  let ttl := int_or ttl_minutes (default_ttl_minutes self) in
  exists enc,
    encrypt_payload self iv creds = inr enc
    /\ datetime_min <= now + ttl * 60 * 1000000 <= datetime_max
    /\ jwt_encode (jwt_payload agent_id enc rt rn now (now + ttl * 60 * 1000000) ttl)
         (jwt_secret self) (jwt_algorithm self) = inr tok.
Proof.
  intros Hgen ttl. unfold generate_jwt in Hgen. fold ttl in Hgen.
  destruct (timedelta_minutes ttl) as [|delta] eqn:Hd; [discriminate|].
  apply timedelta_minutes_inr in Hd. subst delta. cbn [bind] in Hgen.
  unfold datetime_add in Hgen.
  destruct ((datetime_min <=? now + ttl * 60 * 1000000)
            && (now + ttl * 60 * 1000000 <=? datetime_max)) eqn:Hr; [|discriminate].
  apply andb_prop in Hr as [H1 H2]. apply Z.leb_le in H1, H2. cbn [bind] in Hgen.
  destruct (encrypt_payload self iv creds) as [|enc]; [discriminate|].
  cbn [bind] in Hgen. exists enc. split; [done|]. split; [lia | done].
Qed.

Lemma issued_claims_lookup agent_id enc rt rn now ttl :
  let c := issued_claims agent_id enc rt rn now ttl in
  c !! "iat" = Some (PInt (now / 1000000))
  /\ c !! "exp" = Some (PInt (expiry now ttl))
  /\ c !! "ttl_minutes" = Some (PInt ttl)
  /\ c !! "credentials" = Some (PStr enc)
  /\ c !! "sub" = Some (PStr agent_id)
  /\ c !! "resource_type" = Some (PStr rt)
  /\ c !! "resource_name" = Some (PStr rn).
Proof.
  intros c. unfold c, issued_claims.
  destruct (jwt_payload_lookup agent_id enc rt rn now (now + ttl * 60 * 1000000) ttl)
    as (_ & Hiat & Hexp & Httl & Hcred & Hsub).
  split; [done|]. split.
  { rewrite Hexp. unfold expiry. do 2 f_equal.
    apply Z.div_add. lia. }
  split; [done|]. split; [done|]. split; [done|].
  unfold jwt_time_claims, jwt_payload.
  split; rewrite !lookup_alter_ne by discriminate;
    rewrite !lookup_insert_ne by discriminate; by rewrite lookup_insert_eq.
Qed.

(** An issued token decodes to its claims; with the expiry check, until
    the second of its expiry. *)
Lemma issued_token_decodes `{!LibsOk L} self agent_id creds rt rn ttl_minutes
    now iv tok :
  generate_jwt self agent_id creds rt rn ttl_minutes None now iv = inr tok ->
  let ttl := int_or ttl_minutes (default_ttl_minutes self) in
  exists enc,
    encrypt_payload self iv creds = inr enc
    /\ forall now', now <= now' ->
         jwt_decode tok (jwt_secret self) [jwt_algorithm self] false now'
         = inr (issued_claims agent_id enc rt rn now ttl).
Proof.
  intros Hgen ttl.
  destruct (generate_jwt_inv _ _ _ _ _ _ _ _ _ Hgen) as (enc & Henc & _ & Htok).
  exists enc. split; [done|]. intros now' Hnow.
  destruct (jwt_payload_lookup agent_id enc rt rn now (now + ttl * 60 * 1000000) ttl)
    as (Hnbf & Hiat & _).
  apply (jwt_decode_encode _ _ _ _ _ (now / 1000000) Htok Hnbf Hiat).
  pose proof (Z.mul_div_le now 1000000 ltac:(lia)). lia.
Qed.

Lemma issued_token_verifies `{!LibsOk L} `{!ExpiryOk L} self agent_id creds rt rn
    ttl_minutes now iv tok :
  generate_jwt self agent_id creds rt rn ttl_minutes None now iv = inr tok ->
  let ttl := int_or ttl_minutes (default_ttl_minutes self) in
  exists enc,
    encrypt_payload self iv creds = inr enc
    /\ forall now', now <= now' ->
         verify_jwt self tok now'
         = if expiry now ttl * 1000000 <=? now'
           then inl (ExpiredSignatureError "Signature has expired")
           else inr (issued_claims agent_id enc rt rn now ttl).
Proof.
  intros Hgen ttl.
  destruct (issued_token_decodes _ _ _ _ _ _ _ _ _ Hgen) as (enc & Henc & Hdec).
  exists enc. split; [done|]. intros now' Hnow. unfold verify_jwt.
  apply (jwt_decode_verify_exp _ _ _ _ _ _ (Hdec now' Hnow)).
  apply issued_claims_lookup.
Qed.

Lemma decrypt_encrypt_payload `{!LibsOk L} self iv (C : gmap string string) enc :
  encrypt_payload self iv (str_dict C) = inr enc ->
  decrypt_payload self (PStr enc) = inr (str_dict C).
Proof.
  destruct (encrypt_payload_str_dict self iv C)
    as (json_data & tok & Hd & Hl & Ht & He & Henc).
  rewrite Henc. intros [= <-].
  unfold decrypt_payload. cbn [encode_attr bind].
  rewrite He, fernet_decrypt_encrypt. cbn [bind].
  rewrite decode_encode. cbn [bind]. by rewrite Hl.
Qed.

(** X12.  A token that [generate_jwt] issued at [now] for [ttl] minutes is
    reported as not expired by [is_token_expired] until the whole second
    [iat + 60 * ttl], and as expired from then on.  Since [iat] is [now]
    cut to whole seconds, the token lives for at most [ttl] minutes and for
    more than [ttl] minutes less one second. *)
Theorem issued_token_lifetime `{!LibsOk L} `{!ExpiryOk L} (self : TokenManager)
    (agent_id : string) (creds : pyval) (resource_type resource_name : string)
    (ttl_minutes : option Z) (now : Z) (iv : list byte) (tok : string) :
  generate_jwt self agent_id creds resource_type resource_name ttl_minutes None now iv
  = inr tok ->
  let ttl := int_or ttl_minutes (default_ttl_minutes self) in
  let expires := expiry now ttl * 1000000 in
  (forall now', now <= now' ->
     is_token_expired self tok now' = inr (bool_decide (expires <= now')))
  /\ now + ttl * 60 * 1000000 - 1000000 < expires <= now + ttl * 60 * 1000000.
Proof.
  intros Hgen ttl expires.
  destruct (issued_token_verifies _ _ _ _ _ _ _ _ _ Hgen) as (enc & _ & Hver).
  split.
  - intros now' Hnow. unfold is_token_expired. rewrite (Hver now' Hnow).
    fold ttl. fold expires.
    destruct (Z.leb_spec expires now').
    + by rewrite bool_decide_eq_true_2.
    + by rewrite bool_decide_eq_false_2 by lia.
  - unfold expires, expiry.
    pose proof (Z.mul_div_le now 1000000 ltac:(lia)).
    pose proof (Z.mod_pos_bound now 1000000 ltac:(lia)).
    pose proof (Z.div_mod now 1000000 ltac:(lia)). lia.
Qed.

Lemma time_until_expiry_issued `{!LibsOk L} self token now_decode now
    agent_id creds rt rn ttl_minutes issued iv :
  generate_jwt self agent_id creds rt rn ttl_minutes None issued iv = inr token ->
  issued <= now_decode ->
  expiry issued (int_or ttl_minutes (default_ttl_minutes self)) <> 0 ->
  get_time_until_expiry self token now_decode now
  = Some (Z.max 0 (expiry issued (int_or ttl_minutes (default_ttl_minutes self))
                   * 1000000 - now)).
Proof.
  intros Hgen Hnow Hne. set (ttl := int_or ttl_minutes (default_ttl_minutes self)) in *.
  destruct (generate_jwt_inv _ _ _ _ _ _ _ _ _ Hgen) as (_ & _ & Hrange & _).
  destruct (issued_token_decodes _ _ _ _ _ _ _ _ _ Hgen) as (enc & _ & Hdec).
  unfold get_time_until_expiry, get_token_expiration.
  rewrite (Hdec now_decode Hnow). fold ttl in Hrange |- *.
  destruct (issued_claims_lookup agent_id enc rt rn issued ttl) as (_ & Hexp & _).
  unfold dict_get. rewrite Hexp. cbn [default from_option id truthy].
  destruct (Z.eqb_spec (expiry issued ttl) 0) as [|_]; [done|]. cbn [negb fromtimestamp].
  assert (Hin : datetime_min <= expiry issued ttl * 1000000 <= datetime_max).
  { unfold expiry.
    pose proof (Z.mul_div_le issued 1000000 ltac:(lia)).
    pose proof (Z.mod_pos_bound issued 1000000 ltac:(lia)).
    pose proof (Z.div_mod issued 1000000 ltac:(lia)).
    unfold datetime_min, datetime_max in *. lia. }
  destruct Hin as [H1 H2]. apply Z.leb_le in H1, H2. rewrite H1, H2. cbn [andb].
  destruct (Z.leb_spec (expiry issued ttl * 1000000) now); f_equal; lia.
Qed.

(** X13.  [get_time_until_expiry] never returns a negative span, whatever
    the token.  For an issued token it is the time from the clock reading
    to the second of expiry, and zero once that second is reached; unlike
    [verify_jwt] it still answers for a token that has expired. *)
Theorem time_until_expiry_nonneg `{!LibsOk L} (self : TokenManager) (token : string)
    (now_decode now : Z) :
  (forall td, get_time_until_expiry self token now_decode now = Some td -> 0 <= td)
  /\ (forall agent_id creds resource_type resource_name ttl_minutes issued iv,
        generate_jwt self agent_id creds resource_type resource_name ttl_minutes None
          issued iv = inr token ->
        issued <= now_decode ->
        let ttl := int_or ttl_minutes (default_ttl_minutes self) in
        expiry issued ttl <> 0 ->
        get_time_until_expiry self token now_decode now
        = Some (Z.max 0 (expiry issued ttl * 1000000 - now))).
Proof.
  split.
  - intros td. unfold get_time_until_expiry.
    destruct (get_token_expiration self token now_decode) as [exp|]; [|done].
    destruct (Z.leb_spec exp now); intros [= <-]; lia.
  - intros agent_id creds rt rn ttl_minutes issued iv Hgen Hnow ttl Hne.
    by apply (time_until_expiry_issued self token now_decode now agent_id creds rt rn
                ttl_minutes issued iv).
Qed.

End Issued.
(** ** Issued tokens: validation and the way back to the credentials *)

Section Validation.
Import Py Lib PyJWT TokenManager TokenQueries TokenValidation.
Context {L : Libs} {F : Floats}.

Lemma expiry_bounds now ttl :
  now + ttl * 60 * 1000000 - 1000000 < expiry now ttl * 1000000
  <= now + ttl * 60 * 1000000.
Proof.
  unfold expiry.
  pose proof (Z.mul_div_le now 1000000 ltac:(lia)).
  pose proof (Z.mod_pos_bound now 1000000 ltac:(lia)).
  pose proof (Z.div_mod now 1000000 ltac:(lia)). lia.
Qed.

(** X14.  For a token issued at [issued] for [ttl] minutes and a clock that
    does not run backwards, [validate_token] raises
    [ExpiredSignatureError] from the second of expiry on; before, it
    returns the claims of the token with [valid = True], and a
    [time_remaining] in whole seconds that is never negative and never
    more than [60 * ttl]. *)
Theorem validate_token_issued `{!LibsOk L} `{!ExpiryOk L} `{!FloatsOk F}
    (self : CredentialManager.CredentialManager) (agent : string) (creds : pyval)
    (rtype rname : string) (ttl_minutes : option Z) (issued : Z) (iv : list byte)
    (tok : string) (now1 now2 now3 : Z) :
  generate_jwt (CredentialManager.token_mgr self) agent creds rtype rname ttl_minutes
    None issued iv = inr tok ->
  0 <= issued <= now1 -> now1 <= now2 <= now3 ->
  let ttl := int_or ttl_minutes (default_ttl_minutes (CredentialManager.token_mgr self)) in
  ttl * 60 < 2 ^ 34 ->
  let remaining := Z.max 0 (expiry issued ttl * 1000000 - now3) / 1000000 in
  validate_token self tok now1 now2 now3
  = (if expiry issued ttl * 1000000 <=? now1
     then inl (ExpiredSignatureError "Signature has expired")
     else inr {| valid := true;
                 agent_id := PStr agent;
                 resource_type := PStr rtype;
                 resource_name := PStr rname;
                 issued_at := PInt (issued / 1000000);
                 expires_at := PInt (expiry issued ttl);
                 time_remaining := remaining |})
  /\ (forall v, validate_token self tok now1 now2 now3 = inr v ->
        0 <= time_remaining v <= 60 * ttl).
Proof.
  intros Hgen [Hpos Hn1] [Hn2 Hn3] ttl Hbig remaining.
  destruct (issued_token_verifies _ _ _ _ _ _ _ _ _ Hgen) as (enc & _ & Hver).
  pose proof (expiry_bounds issued ttl) as Hexp. fold ttl in Hver.
  assert (Heq : validate_token self tok now1 now2 now3
                = (if expiry issued ttl * 1000000 <=? now1
                   then inl (ExpiredSignatureError "Signature has expired")
                   else inr {| valid := true;
                               agent_id := PStr agent;
                               resource_type := PStr rtype;
                               resource_name := PStr rname;
                               issued_at := PInt (issued / 1000000);
                               expires_at := PInt (expiry issued ttl);
                               time_remaining := remaining |})).
  { unfold validate_token. rewrite (Hver now1 Hn1).
    destruct (Z.leb_spec (expiry issued ttl * 1000000) now1) as [Hdead | Hlive]; [done|].
    cbn [bind].
    destruct (issued_claims_lookup agent enc rtype rname issued ttl)
      as (Hiat & Hexpc & _ & _ & Hsub & Hrt & Hrn).
    unfold dict_get. rewrite Hiat, Hexpc, Hsub, Hrt, Hrn. cbn [default from_option id].
    do 2 f_equal.
    pose proof (time_until_expiry_issued (CredentialManager.token_mgr self) tok now2 now3
                  agent creds rtype rname ttl_minutes issued iv Hgen ltac:(lia)
                  ltac:(fold ttl; lia)) as Htd.
    fold ttl in Htd. rewrite Htd. unfold remaining.
    destruct (Z.eqb_spec (Z.max 0 (expiry issued ttl * 1000000 - now3)) 0) as [->|Hne];
      [done|].
    apply int_total_seconds_floor. lia. }
  split; [exact Heq|].
  intros v. rewrite Heq.
  destruct (Z.leb_spec (expiry issued ttl * 1000000) now1) as [Hdead | Hlive];
    [discriminate|].
  intros [= <-]. cbn [time_remaining]. unfold remaining. split.
  - apply Z.div_pos; lia.
  - apply Z.div_le_upper_bound; lia.
Qed.

End Validation.

Section RoundTrip.
Import Py Lib PyJWT TokenManager TokenQueries.
Context {L : Libs}.

(** What [issue_ephemeral_token] returns, by the time of the
    verification. *)
Lemma issue_ephemeral_token_spec `{!LibsOk L} `{!ExpiryOk L}
    (self : CredentialManager.CredentialManager) creds agent rtype rname
    ttl_minutes now now' iv tok :
  generate_jwt (CredentialManager.token_mgr self) agent creds rtype rname ttl_minutes
    None now iv = inr tok ->
  now <= now' ->
  let ttl := int_or ttl_minutes (default_ttl_minutes (CredentialManager.token_mgr self)) in
  CredentialManager.issue_ephemeral_token self creds agent rtype rname ttl_minutes
    now now' iv
  = if expiry now ttl * 1000000 <=? now'
    then inl (ExpiredSignatureError "Signature has expired")
    else inr {| CredentialManager.token := tok;
                CredentialManager.expires_in := PInt (ttl * 60);
                CredentialManager.resource := rtype +:+ "/" +:+ rname;
                CredentialManager.issued_at := PInt (now / 1000000);
                CredentialManager.expires_at := PInt (expiry now ttl);
                CredentialManager.ttl_minutes := PInt ttl |}.
Proof.
  intros Hgen Hnow ttl.
  destruct (issued_token_verifies _ _ _ _ _ _ _ _ _ Hgen) as (enc & _ & Hver).
  unfold CredentialManager.issue_ephemeral_token. rewrite Hgen. cbn [bind].
  rewrite (Hver now' Hnow). fold ttl.
  destruct (expiry now ttl * 1000000 <=? now'); [done|]. cbn [bind].
  destruct (issued_claims_lookup agent enc rtype rname now ttl)
    as (Hiat & Hexp & Httl & _).
  unfold dict_get. rewrite Hiat, Hexp, Httl. reflexivity.
Qed.

(** X15.  The dictionary that [issue_ephemeral_token] returns agrees with
    the token in it: [expires_in] is [60 * ttl_minutes], [expires_at] is
    [issued_at + expires_in], and [ttl_minutes] is the TTL asked for, or
    the default for [None] and 0; the token has not expired when the
    method returns.  For a negative TTL the method returns nothing: it
    raises. *)
Theorem issue_ephemeral_token_fields `{!LibsOk L} `{!ExpiryOk L}
    (self : CredentialManager.CredentialManager) (creds : pyval)
    (agent rtype rname : string) (ttl_minutes : option Z) (now now' : Z)
    (iv : list byte) :
  now <= now' ->
  let ttl := int_or ttl_minutes (default_ttl_minutes (CredentialManager.token_mgr self)) in
  (forall td,
     CredentialManager.issue_ephemeral_token self creds agent rtype rname ttl_minutes
       now now' iv = inr td ->
     exists iat,
       CredentialManager.issued_at td = PInt iat
       /\ CredentialManager.expires_in td = PInt (60 * ttl)
       /\ CredentialManager.expires_at td = PInt (iat + 60 * ttl)
       /\ CredentialManager.ttl_minutes td = PInt ttl
       /\ CredentialManager.resource td = rtype +:+ "/" +:+ rname
       /\ now' < (iat + 60 * ttl) * 1000000)
  /\ (ttl <= -1 ->
      forall td,
        CredentialManager.issue_ephemeral_token self creds agent rtype rname
          ttl_minutes now now' iv <> inr td).
Proof.
  intros Hnow ttl.
  assert (Hcases :
    (exists e, generate_jwt (CredentialManager.token_mgr self) agent creds rtype rname
                 ttl_minutes None now iv = inl e
               /\ CredentialManager.issue_ephemeral_token self creds agent rtype rname
                    ttl_minutes now now' iv = inl e)
    \/ exists tok, generate_jwt (CredentialManager.token_mgr self) agent creds rtype rname
                     ttl_minutes None now iv = inr tok).
  { destruct (generate_jwt _ agent creds rtype rname ttl_minutes None now iv)
      as [e|tok] eqn:Hgen; [left | right; by exists tok].
    exists e. split; [done|]. unfold CredentialManager.issue_ephemeral_token.
    by rewrite Hgen. }
  split.
  - intros td Htd. destruct Hcases as [(e & _ & He) | (tok & Hgen)]; [congruence|].
    rewrite (issue_ephemeral_token_spec self _ _ _ _ _ _ _ _ _ Hgen Hnow) in Htd.
    fold ttl in Htd.
    destruct (Z.leb_spec (expiry now ttl * 1000000) now') as [|Hlive]; [discriminate|].
    injection Htd as <-. exists (now / 1000000).
    cbn. unfold expiry in *.
    replace (ttl * 60) with (60 * ttl) in * by lia. done.
  - intros Hneg td Htd. destruct Hcases as [(e & _ & He) | (tok & Hgen)]; [congruence|].
    rewrite (issue_ephemeral_token_spec self _ _ _ _ _ _ _ _ _ Hgen Hnow) in Htd.
    fold ttl in Htd. pose proof (expiry_bounds now ttl).
    destruct (Z.leb_spec (expiry now ttl * 1000000) now'); [discriminate | lia].
Qed.

(** X16.  From the vault to the agent and back: when
    [fetch_and_issue_token] returns a token, [get_credentials_from_token]
    gives for that token, until the second of its expiry, exactly the
    credentials that [fetch_credentials] read, together with the agent, the
    resource and the times of the token; from that second on it raises
    [ExpiredSignatureError]. *)
Theorem issued_token_round_trip `{!LibsOk L} `{!ExpiryOk L} `{!FernetOk L}
    (self : CredentialManager.CredentialManager) (log log' : list OnePasswordClient.call)
    (rtype rname agent : string) (ttl_minutes : option Z) (vault : option string)
    (now now' : Z) (iv : list byte) (td : CredentialManager.token_data) :
  CredentialManager.fetch_and_issue_token self log rtype rname agent ttl_minutes vault
    now now' iv = (inr td, log') ->
  now <= now' ->
  let ttl := int_or ttl_minutes (default_ttl_minutes (CredentialManager.token_mgr self)) in
  exists creds,
    CredentialManager.fetch_credentials self log rtype rname vault = (inr creds, log')
    /\ forall t, now <= t ->
         TokenValidation.get_credentials_from_token self (CredentialManager.token td) t
         = if expiry now ttl * 1000000 <=? t
           then inl (ExpiredSignatureError "Signature has expired")
           else inr {| agent_id := PStr agent;
                       credentials := str_dict creds;
                       resource_type := PStr rtype;
                       resource_name := PStr rname;
                       issued_at := PInt (now / 1000000);
                       expires_at := PInt (expiry now ttl);
                       ttl_minutes := PInt ttl |}.
Proof.
  intros Hret Hnow ttl. unfold CredentialManager.fetch_and_issue_token in Hret.
  destruct (CredentialManager.fetch_credentials self log rtype rname vault)
    as [[e|creds] log1]; [discriminate|].
  injection Hret as Hissue <-. exists creds. split; [done|].
  destruct (generate_jwt (CredentialManager.token_mgr self) agent (str_dict creds) rtype
              rname ttl_minutes None now iv) as [e|tok] eqn:Hgen.
  { unfold CredentialManager.issue_ephemeral_token in Hissue. by rewrite Hgen in Hissue. }
  rewrite (issue_ephemeral_token_spec self _ _ _ _ _ _ _ _ _ Hgen Hnow) in Hissue.
  fold ttl in Hissue.
  destruct (expiry now ttl * 1000000 <=? now'); [discriminate|].
  injection Hissue as <-. cbn [CredentialManager.token].
  destruct (issued_token_verifies _ _ _ _ _ _ _ _ _ Hgen) as (enc & Henc & Hver).
  intros t Ht. unfold TokenValidation.get_credentials_from_token, verify_and_decrypt.
  rewrite (Hver t Ht). fold ttl.
  destruct (expiry now ttl * 1000000 <=? t); [done|]. cbn [bind].
  destruct (issued_claims_lookup agent enc rtype rname now ttl)
    as (Hiat & Hexp & Httl & Hcred & Hsub & Hrt & Hrn).
  unfold dict_get. rewrite Hiat, Hexp, Httl, Hcred, Hsub, Hrt, Hrn.
  cbn [default from_option id truthy].
  assert (Hne : String.eqb enc "" = false).
  { apply String.eqb_neq. intros ->.
    unfold encrypt_payload in Henc.
    destruct (json_dumps (str_dict creds)) as [|js]; [discriminate|]. cbn [bind] in Henc.
    destruct (bytes_decode _) as [|s] eqn:Hb; [discriminate|]. cbn [bind] in Henc.
    injection Henc as ->. by apply fernet_token_nonempty in Hb. }
  rewrite Hne. cbn [negb].
  by rewrite (decrypt_encrypt_payload _ _ _ _ Henc).
Qed.

End RoundTrip.

(** ** The session manager *)

Section Sessions.
Import Py SessionManager.

Lemma len_to_string l : Text.len (Str.to_string l) = length l.
Proof. unfold Text.len, Str.of_string, Str.to_string.
       by rewrite list_ascii_of_string_of_list_ascii. Qed.

Lemma len_append a b : Text.len (a +:+ b) = (Text.len a + Text.len b)%nat.
Proof.
  unfold Text.len, Str.of_string. induction a as [|c a IH]; [done|].
  cbn [append list_ascii_of_string length Nat.add]. by rewrite <- IH.
Qed.

(** X17.  A summary is never longer than 103 characters: it is the first
    non-empty plain-text part of the messages without the white space
    around it, cut to 100 characters and marked with "..." when it was
    longer; it is empty for no messages, and "No text content" for
    messages without such a part. *)
Theorem extract_summary_bounded (messages : list Message) :
  (Text.len (_extract_summary messages) <= 103)%nat
  /\ (messages = [] -> _extract_summary messages = "")
  /\ (messages <> [] ->
      Forall (fun part => content_type part <> "text/plain" \/ content part = "")
        (flat_map parts messages) ->
      _extract_summary messages = "No text content")
  /\ (forall pre part post,
        flat_map parts messages = pre ++ part :: post ->
        Forall (fun part => content_type part <> "text/plain" \/ content part = "") pre ->
        content_type part = "text/plain" -> content part <> "" ->
        let text := Text.strip (content part) in
        _extract_summary messages
        = if (100 <? Text.len text)%nat then Text.slice_to 100 text +:+ "..." else text).
Proof.
  set (P := fun part => String.eqb (content_type part) "text/plain"
                        && negb (String.eqb (content part) "")).
  assert (HP : forall l,
            Forall (fun part => content_type part <> "text/plain" \/ content part = "") l ->
            Forall (fun part => P part = false) l).
  { intros l Hl. eapply Forall_impl; [exact Hl|]. intros part [H | H]; unfold P.
    - apply String.eqb_neq in H. by rewrite H.
    - rewrite H. cbn. by rewrite andb_false_r. }
  split; [|split; [|split]].
  - unfold _extract_summary. destruct messages as [|m ms]; [cbn; lia|].
    destruct (find _ _) as [part|]; [|cbn; lia].
    destruct (Nat.ltb_spec 100 (Text.len (Text.strip (content part)))) as [Hlong | Hshort].
    + rewrite len_append. unfold Text.slice_to. rewrite len_to_string, length_take.
      change (Text.len "...") with 3%nat. lia.
    + lia.
  - by intros ->.
  - intros Hne Hall. unfold _extract_summary.
    destruct messages as [|m ms]; [done|]. fold P.
    by rewrite (find_none P) by (by apply HP).
  - intros pre part post Heq Hpre Hty Hc text. unfold _extract_summary.
    destruct messages as [|m ms]; [by destruct pre|]. fold P. rewrite Heq.
    rewrite (find_first P); [done | by apply HP |].
    unfold P. rewrite Hty. apply String.eqb_neq in Hc. by rewrite Hc.
Qed.

(** What [create_session] does to the store. *)
Lemma create_session_spec sessions sid uuid4 now1 now2 :
  let new_id :=
    match sid with
    | Some s => if String.eqb s "" then "session-" +:+ uuid4 else s
    | None => "session-" +:+ uuid4
    end in
  create_session sessions sid uuid4 now1 now2
  = (new_id,
     if str_truthy sid && bool_decide (is_Some (sessions !! new_id))
     then sessions
     else <[new_id := {| session_id := new_id; created_at := now1;
                         last_activity := now2; interactions := [] |}]> sessions).
Proof.
  unfold create_session. destruct sid as [s|]; cbn [str_truthy from_option id andb].
  - destruct (String.eqb s ""); cbn [negb andb]; [done|].
    by destruct (bool_decide _).
  - done.
Qed.

(** X18.  [create_session] never resets a session: called with the id of
    an existing session it returns the id and leaves the store as it is.
    Called with a new id it adds an empty session under that id; called
    without an id, or with the empty one, it adds one under
    "session-<uuid4>".  No other session changes. *)
Theorem create_session_keeps (sessions : gmap string session) (sid : option string)
    (uuid4 now1 now2 : string) :
  let '(new_id, sessions') := create_session sessions sid uuid4 now1 now2 in
  new_id = (if str_truthy sid then default "" sid else "session-" +:+ uuid4)
  /\ (str_truthy sid = true -> forall s, sessions !! new_id = Some s -> sessions' = sessions)
  /\ (sessions !! new_id = None ->
      sessions' !! new_id
      = Some {| session_id := new_id; created_at := now1; last_activity := now2;
                interactions := [] |})
  /\ (forall k, k <> new_id -> sessions' !! k = sessions !! k).
Proof.
  rewrite create_session_spec.
  set (new_id := match sid with
                 | Some s => if String.eqb s "" then "session-" +:+ uuid4 else s
                 | None => "session-" +:+ uuid4
                 end).
  split; [|split; [|split]].
  - unfold new_id. destruct sid as [s|]; cbn; [|done]. by destruct (String.eqb s "").
  - intros -> s Hs. cbn [andb]. rewrite bool_decide_eq_true_2; [done | by eexists].
  - intros Hnone. rewrite bool_decide_eq_false_2.
    + rewrite andb_false_r. apply lookup_insert_eq.
    + rewrite Hnone. by intros [? ?].
  - intros k Hk. destruct (_ && _); [done|]. by apply lookup_insert_ne.
Qed.

(** What [add_interaction] does for an id that is not empty. *)
Lemma add_interaction_spec sessions sid run input_messages output_messages st sur :
  sid <> "" ->
  let before :=
    default {| session_id := sid; created_at := now_created sur;
               last_activity := now_activity sur; interactions := [] |}
            (sessions !! sid) in
  add_interaction sessions sid run input_messages output_messages st sur
  = (Returned,
     <[sid := {| session_id := session_id before;
                created_at := created_at before;
                last_activity := now_last sur;
                interactions :=
                  interactions before
                  ++ [new_interaction run input_messages output_messages st sur] |}]>
       sessions).
Proof.
  intros Hne before. unfold add_interaction.
  destruct (sessions !! sid) as [s|] eqn:Hs.
  - rewrite bool_decide_eq_true_2 by (by eexists). by rewrite Hs.
  - rewrite bool_decide_eq_false_2 by (by intros [? ?]).
    rewrite create_session_spec. cbn [str_truthy]. apply String.eqb_neq in Hne.
    rewrite Hne. cbn [negb andb]. rewrite Hs.
    rewrite bool_decide_eq_false_2 by (by intros [? ?]). cbn [snd].
    rewrite lookup_insert_eq. by rewrite insert_insert_eq.
Qed.

(** X19.  [add_interaction] with a session id that is not empty returns
    and appends exactly one entry to the history of that session, which it
    creates first if it does not exist; the entry carries the run id, the
    status and the two summaries, and no other session changes.  With the
    empty id and no session of that name, it raises [KeyError] after having
    created a session under a generated id. *)
Theorem add_interaction_appends (sessions : gmap string session) (sid run : string)
    (input_messages output_messages : list Message) (st : RunStatus)
    (sur : surroundings) :
  let '(out, sessions') :=
    add_interaction sessions sid run input_messages output_messages st sur in
  (sid <> "" ->
   out = Returned
   /\ (exists s',
         get_session sessions' sid = Some s'
         /\ interactions s'
            = default [] (interactions <$> sessions !! sid)
              ++ [new_interaction run input_messages output_messages st sur]
         /\ last_activity s' = now_last sur
         /\ created_at s' = default (now_created sur) (created_at <$> sessions !! sid))
   /\ (forall k, k <> sid -> sessions' !! k = sessions !! k))
  /\ (sid = "" -> sessions !! "" = None ->
      out = KeyError ""
      /\ is_Some (sessions' !! ("session-" +:+ uuid4 sur))).
Proof.
  destruct (decide (sid = "")) as [-> | Hne].
  - unfold add_interaction.
    destruct (sessions !! "") as [s|] eqn:Hs.
    + rewrite bool_decide_eq_true_2 by (by eexists). rewrite Hs.
      split; [done|]. intros _ [=].
    + rewrite bool_decide_eq_false_2 by (by intros [? ?]).
      rewrite create_session_spec. cbn [str_truthy String.eqb negb andb snd].
      rewrite lookup_insert_ne by (by destruct (uuid4 sur)).
      rewrite Hs. split; [done|]. intros _ _. split; [done|].
      rewrite lookup_insert_eq. by eexists.
  - rewrite add_interaction_spec by done. split; [|done]. intros _.
    split; [done|]. split.
    + eexists. unfold get_session. rewrite lookup_insert_eq. split; [done|].
      by destruct (sessions !! sid).
    + intros k Hk. by apply lookup_insert_ne.
Qed.

(** X20.  The history of a session only grows: whatever call is made on
    the store, a session that exists keeps its id and its creation time,
    and its earlier interactions stay at the head of its list.  (The one
    exception would be [uuid.uuid4()] making up the id of a session that
    already exists.) *)
Theorem session_history_grows (sessions : gmap string session) (c : session_call)
    (sid : string) (s : session) :
  sessions !! sid = Some s ->
  sid <> generated_id c ->
  exists s',
    session_step sessions c !! sid = Some s'
    /\ session_id s' = session_id s
    /\ created_at s' = created_at s
    /\ interactions s `prefix_of` interactions s'.
Proof.
  intros Hs Hgen.
  assert (Hcreate : forall i u n1 n2,
            sid <> "session-" +:+ u ->
            (create_session sessions i u n1 n2).2 !! sid = Some s).
  { intros i u n1 n2 Hu. rewrite create_session_spec. cbn [snd].
    destruct (_ && _) eqn:Hb; [done|].
    rewrite lookup_insert_ne; [done|].
    intros <-. destruct i as [x|]; [|done].
    destruct (String.eqb x "") eqn:Hx; [done|].
    cbn [str_truthy] in Hb. rewrite Hx in Hb. cbn [negb andb] in Hb.
    rewrite bool_decide_eq_true_2 in Hb; [done | by eexists]. }
  destruct c as [i u n1 n2 | i run inp outp st sur]; cbn [session_step generated_id] in *.
  - exists s. by rewrite Hcreate.
  - destruct (decide (i = "")) as [-> | Hne].
    + unfold add_interaction.
      destruct (sessions !! "") as [s0|] eqn:H0.
      * rewrite bool_decide_eq_true_2 by (by eexists). rewrite H0. cbn [snd].
        destruct (decide (sid = "")) as [-> | Hid].
        -- rewrite lookup_insert_eq. rewrite H0 in Hs. injection Hs as ->.
           eexists. split; [done|]. cbn. split; [done|]. split; [done|].
           by apply prefix_app_r.
        -- rewrite lookup_insert_ne by done. by exists s.
      * rewrite bool_decide_eq_false_2 by (by intros [? ?]).
        rewrite create_session_spec. cbn [str_truthy String.eqb negb andb snd].
        rewrite lookup_insert_ne by (by destruct (uuid4 sur)).
        rewrite H0. cbn [snd]. exists s. split; [|done].
        by rewrite lookup_insert_ne.
    + rewrite add_interaction_spec by done. cbn [snd].
      destruct (decide (sid = i)) as [-> | Hid].
      * rewrite lookup_insert_eq, Hs. eexists. split; [done|]. cbn.
        split; [done|]. split; [done|]. by apply prefix_app_r.
      * rewrite lookup_insert_ne by done. by exists s.
Qed.

End Sessions.

(** ** Bearer authentication *)

Section Bearer.
Import Py A2A.

Lemma split_from_words s w :
  Forall (fun a => Str.is_space a = false) w ->
  Forall is_word (Text.split_from s w).
Proof.
  revert w. induction s as [|a s IH]; intros w Hw; cbn [Text.split_from].
  - destruct w as [|b w]; [constructor|]. constructor; [|constructor]. by split.
  - destruct (Str.is_space a) eqn:Ha.
    + destruct w as [|b w]; [by apply IH|].
      constructor; [by split | by apply IH].
    + apply IH. apply Forall_app. split; [done|]. by constructor.
Qed.

Lemma split_from_run u s w :
  Forall (fun a => Str.is_space a = false) u ->
  Text.split_from (u ++ s) w = Text.split_from s (w ++ u).
Proof.
  revert w. induction u as [|a u IH]; intros w Hu; cbn [app Text.split_from].
  - by rewrite app_nil_r.
  - apply Forall_cons in Hu as [Ha Hu]. rewrite Ha, IH by done.
    by rewrite <- app_assoc.
Qed.

Lemma split_two u v :
  is_word u -> is_word v ->
  Text.split_from (u ++ " "%char :: v) [] = [u; v].
Proof.
  intros [Hu1 Hu2] [Hv1 Hv2]. rewrite split_from_run by done. cbn [app Text.split_from].
  change (Str.is_space " ") with true. cbn match.
  destruct u as [|a u]; [done|].
  rewrite <- (app_nil_r v) at 1. rewrite split_from_run by done. cbn [app Text.split_from].
  by destruct v.
Qed.

Lemma lower_char_space a :
  Str.is_space (Str.lower_char a) = false -> Str.is_space a = false.
Proof. destruct a as [[] [] [] [] [] [] [] []]; cbv; congruence. Qed.

Lemma is_word_of_string s :
  is_word (Str.of_string s) <->
  s <> "" /\ Forall (fun a => Str.is_space a = false) (Str.of_string s).
Proof.
  unfold is_word. split; intros [H1 H2]; (split; [|done]).
  - intros ->. by apply H1.
  - intros H. apply H1. rewrite <- (to_of_string s), H. reflexivity.
Qed.

(** X21.  [verify_bearer_token] accepts a header exactly when it consists
    of two words, the first being "bearer" in any mix of cases and the
    second the configured token, with any white space around them; it then
    returns "authenticated-agent".  Every refusal is a 401 with the
    [WWW-Authenticate] header.  A configured token that is empty or has
    white space in it can therefore not be presented by anyone. *)
Theorem verify_bearer_token_accepts (environ : gmap string string)
    (authorization : option string) :
  (forall agent,
     verify_bearer_token environ authorization = inr agent <->
     agent = "authenticated-agent"
     /\ exists header scheme,
          authorization = Some header
          /\ Text.split header = [scheme; BEARER_TOKEN environ]
          /\ OnePasswordClient.str_lower scheme = "bearer")
  /\ (forall e,
        verify_bearer_token environ authorization = inl e ->
        status_code e = 401 /\ headers e = [("WWW-Authenticate", "Bearer")]
        /\ detail e = (if str_truthy authorization
                       then "Invalid authentication credentials"
                       else "Missing Authorization header"))
  /\ (~ is_word (Str.of_string (BEARER_TOKEN environ)) ->
      exists e, verify_bearer_token environ authorization = inl e)
  /\ (forall scheme,
        OnePasswordClient.str_lower scheme = "bearer" ->
        is_word (Str.of_string (BEARER_TOKEN environ)) ->
        verify_bearer_token environ (Some (scheme +:+ " " +:+ BEARER_TOKEN environ))
        = inr "authenticated-agent").
Proof.
  assert (Hacc : forall authorization agent,
     verify_bearer_token environ authorization = inr agent <->
     agent = "authenticated-agent"
     /\ exists header scheme,
          authorization = Some header
          /\ Text.split header = [scheme; BEARER_TOKEN environ]
          /\ OnePasswordClient.str_lower scheme = "bearer").
  { clear authorization. intros authorization agent. unfold verify_bearer_token. split.
    - destruct authorization as [header|]; cbn [str_truthy negb]; [|done].
      destruct (String.eqb header ""); cbn [negb]; [done|]. cbn [from_option id].
      destruct (Text.split header) as [|scheme [|token [|? ?]]] eqn:Hs; try done.
      destruct (String.eqb_spec (OnePasswordClient.str_lower scheme) "bearer")
        as [Hb|]; cbn [negb]; [|done].
      destruct (String.eqb_spec token (BEARER_TOKEN environ)) as [->|];
        cbn [negb]; [|done].
      intros [= <-]. split; [done|]. by exists header, scheme.
    - intros (-> & header & scheme & -> & Hs & Hb). cbn [str_truthy from_option id].
      destruct (String.eqb_spec header "") as [->|_]; [discriminate Hs|]. cbn [negb].
      rewrite Hs, Hb. cbn [String.eqb Ascii.eqb Bool.eqb negb].
      by rewrite String.eqb_refl. }
  split; [exact (Hacc authorization)|]. split; [|split].
  - intros e. unfold verify_bearer_token.
    destruct authorization as [header|]; cbn [str_truthy negb].
    + destruct (String.eqb header ""); cbn [negb from_option id]; [by intros [= <-]|].
      destruct (Text.split header) as [|scheme [|token [|? ?]]];
        try (by intros [= <-]).
      destruct (negb _); [by intros [= <-]|].
      destruct (negb _); [by intros [= <-] | done].
    + by intros [= <-].
  - intros Hbad.
    destruct (verify_bearer_token environ authorization) as [e|agent] eqn:Hv;
      [by exists e|].
    apply Hacc in Hv as (_ & header & scheme & _ & Hs & _).
    exfalso. apply Hbad.
    pose proof (split_from_words (Str.of_string header) [] ltac:(constructor)) as Hw.
    unfold Text.split in Hs.
    destruct (Text.split_from (Str.of_string header) []) as [|u [|v [|? ?]]];
      try discriminate Hs.
    injection Hs as _ <-. rewrite of_to_string.
    by apply Forall_cons in Hw as [_ [Hword _]%Forall_cons].
  - intros scheme Hb Htok. apply Hacc. split; [done|].
    exists (scheme +:+ " " +:+ BEARER_TOKEN environ), scheme.
    split; [done|]. split; [|done].
    assert (Hscheme : is_word (Str.of_string scheme)).
    { split.
      - intros H. apply (f_equal Str.to_string) in H. rewrite to_of_string in H.
        subst scheme. discriminate Hb.
      - unfold OnePasswordClient.str_lower in Hb.
        apply (f_equal Str.of_string) in Hb. rewrite of_to_string in Hb.
        unfold Str.lower in Hb.
        assert (Hall : Forall (fun b => Str.is_space b = false)
                         (map Str.lower_char (Str.of_string scheme))).
        { rewrite Hb. by repeat constructor. }
        apply List.Forall_map in Hall.
        eapply Forall_impl; [exact Hall|]. apply lower_char_space. }
    unfold Text.split.
    assert (Hcat : Str.of_string (scheme +:+ " " +:+ BEARER_TOKEN environ)
                   = Str.of_string scheme ++ " "%char :: Str.of_string (BEARER_TOKEN environ)).
    { unfold Str.of_string. clear. induction scheme as [|a s IH]; [done|].
      cbn [append list_ascii_of_string app]. by rewrite <- IH. }
    rewrite Hcat, split_two by done. cbn [map]. by rewrite !to_of_string.
Qed.

End Bearer.

(** ** The credential manager: failures of the lookup, and health *)

Section Failures.
Import Py Lib PyJWT OnePasswordClient CredentialManager Health.

(** X22.  For a valid resource type, [fetch_credentials] asks the vault
    for its list once.  If the request fails, the error of the Connect
    client is raised as it is; if no listed item has the name as its title,
    the error is the [ValueError] "Resource '<name>' not found in 1Password
    vault", and no item has been fetched. *)
Theorem fetch_credentials_failures `{L : Libs} (self : CredentialManager)
    (log : list call) (rtype rname : string) (vault : option string)
    (v : string) :
  rtype ∈ ["database"; "api"; "ssh"; "generic"] ->
  str_or vault (vault_id (op_client self)) = Some v -> v <> "" ->
  let requests := log ++ [CallGetItemByTitle rname vault; CallClientGetItems v] in
  (forall e,
     client_get_items (client (op_client self)) v = inl e ->
     fetch_credentials self log rtype rname vault = (inl e, requests))
  /\ (forall items,
        client_get_items (client (op_client self)) v = inr items ->
        Forall (fun i => String.eqb (str_lower (Item_title i)) (str_lower rname) = false)
          items ->
        fetch_credentials self log rtype rname vault
        = (inl (ValueError ("Resource '" +:+ rname +:+ "' not found in 1Password vault")),
           requests)).
Proof.
  intros Hty Hv Hne requests.
  assert (Hof : is_Some (ResourceType_of rtype)).
  { repeat (apply elem_of_cons in Hty as [-> | Hty]; [by eexists|]).
    by apply elem_of_nil in Hty. }
  destruct Hof as [ty Hof]. unfold fetch_credentials. rewrite Hof. split.
  - intros e He. unfold get_item_by_title. rewrite Hv.
    apply String.eqb_neq in Hne. cbn [str_truthy from_option id]. rewrite Hne.
    cbn [negb]. rewrite He. unfold requests. by rewrite <- app_assoc.
  - intros items Hitems Hnone.
    destruct (get_item_by_title_spec (op_client self) log rname vault v items Hv Hne Hitems)
      as (_ & Hnot & _).
    by rewrite (Hnot Hnone).
Qed.

Lemma op_health_status self client_get_vault :
  op_health_check self client_get_vault !! "status"
  = Some (PStr (match get_vault self client_get_vault None with
                | inr _ => "healthy"
                | inl _ => "unhealthy"
                end)).
Proof. unfold op_health_check. by destruct (get_vault _ _ _). Qed.

(** X23.  [CredentialManager.health_check] never fails and never reports
    "unhealthy": its status is "healthy" exactly when the client has a
    default vault and the Connect server returns it, and "degraded"
    otherwise; the token manager's part is always "healthy", and the
    client's part carries the text of the error. *)
Theorem health_check_status `{L : Libs} (self : CredentialManager)
    (client_get_vault : string -> result Vault) :
  let h := health_check self client_get_vault in
  let reachable :=
    exists v vault,
      vault_id (op_client self) = Some v /\ v <> "" /\ client_get_vault v = inr vault in
  (reachable -> h !! "status" = Some (PStr "healthy"))
  /\ (~ reachable -> h !! "status" = Some (PStr "degraded"))
  /\ (exists op tm,
        h !! "components"
        = Some (PDict (<["onepassword" := PDict op]> (<["token_manager" := PDict tm]> ∅)))
        /\ op = op_health_check (op_client self) client_get_vault
        /\ tm !! "status" = Some (PStr "healthy")
        /\ (forall e, get_vault (op_client self) client_get_vault None = inl e ->
                      op !! "status" = Some (PStr "unhealthy")
                      /\ op !! "error" = Some (PStr (exn_str e)))).
Proof.
  intros h reachable.
  assert (Hreach : reachable <-> exists vault,
             get_vault (op_client self) client_get_vault None = inr vault).
  { unfold reachable, get_vault. cbn [str_or].
    destruct (vault_id (op_client self)) as [v|]; cbn [str_truthy negb].
    - destruct (String.eqb_spec v "") as [->|Hv]; cbn [negb from_option id].
      + split; [intros (v' & vault & [= <-] & Hne & _); done | intros [vault [=]]].
      + split.
        * intros (v' & vault & [= <-] & _ & Hg). by exists vault.
        * intros [vault Hg]. by exists v, vault.
    - split; [intros (v' & vault & [=] & _) | intros [vault [=]]]. }
  assert (Hstatus : h !! "status"
            = Some (PStr (match get_vault (op_client self) client_get_vault None with
                          | inr _ => "healthy"
                          | inl _ => "degraded"
                          end))).
  { unfold h, health_check. rewrite lookup_insert_eq. unfold dict_get at 1.
    rewrite op_health_status. cbn [from_option id eq_str].
    by destruct (get_vault _ _ _). }
  split; [|split].
  - intros [vault Hg]%Hreach. by rewrite Hstatus, Hg.
  - intros Hno. rewrite Hstatus.
    destruct (get_vault _ _ _) as [e|vault] eqn:Hg; [done|].
    destruct Hno. apply Hreach. by exists vault.
  - eexists _, _. split.
    { unfold h, health_check. rewrite lookup_insert_ne by discriminate.
      by rewrite lookup_insert_eq. }
    split; [reflexivity|]. split; [by rewrite lookup_insert_eq|].
    intros e He. unfold op_health_check. rewrite He.
    split; [by rewrite lookup_insert_eq|].
    rewrite !lookup_insert_ne by discriminate. by rewrite lookup_insert_eq.
Qed.

End Failures.

(** ** From the parsed duration to the lifetime of the token *)

Section ParsedTTL.
Import Py Lib Re IntentParser TokenManager.
Context {L : Libs}.

Lemma parse_duration_range t : 0 <= parse_duration t <= 15.
Proof.
  destruct (search duration_pattern t) as [g|] eqn:E.
  - destruct (parse_duration_match t g E) as (pre & s & N & _ & HN & ->).
    destruct HN as (ws & u & suf & _ & _ & HNd & _).
    pose proof (py_int_nonneg N HNd). lia.
  - unfold parse_duration, search_group1. rewrite E. lia.
Qed.

(** X24.  A token that is issued with the duration that [parse_intent]
    read from a request, as the ACP server does, carries a TTL of 1 to 15
    minutes or the manager's default: the parsed duration when the request
    names one from 1 up (capped at 15), the default when the request names
    none that the parser recognises as positive, be it absent or 0. *)
Theorem parsed_duration_ttl `{!LibsOk L} (self : TokenManager) (text agent : string)
    (creds : pyval) (rtype rname : string) (now now' : Z) (iv : list byte)
    (tok : string) :
  let d := duration_minutes (parse_intent text) in
  generate_jwt self agent creds rtype rname (Some d) None now iv = inr tok ->
  now <= now' ->
  exists claims ttl,
    jwt_decode tok (jwt_secret self) [jwt_algorithm self] false now' = inr claims
    /\ claims !! "ttl_minutes" = Some (PInt ttl)
    /\ claims !! "exp" = Some (PInt (now / 1000000 + 60 * ttl))
    /\ ttl = (if d =? 0 then default_ttl_minutes self else d)
    /\ (1 <= ttl <= 15 \/ ttl = default_ttl_minutes self)
    /\ (1 <= default_ttl_minutes self <= 15 -> 1 <= ttl <= 15).
Proof.
  intros d Hgen Hnow.
  destruct (issued_token_decodes _ _ _ _ _ _ _ _ _ Hgen) as (enc & _ & Hdec).
  set (ttl := int_or (Some d) (default_ttl_minutes self)) in *.
  destruct (issued_claims_lookup agent enc rtype rname now ttl) as (_ & Hexp & Httl & _).
  exists (issued_claims agent enc rtype rname now ttl), ttl.
  split; [by apply Hdec|]. split; [done|].
  split; [rewrite Hexp; unfold expiry; do 2 f_equal; lia|].
  assert (Hd : 0 <= d <= 15).
  { unfold d. rewrite duration_minutes_parse. apply parse_duration_range. }
  unfold ttl. cbn [int_or].
  destruct (Z.eqb_spec d 0); (split; [done|]); split; lia.
Qed.

End ParsedTTL.

(** ** The audit logger: the shape of an event *)

Section Events.
Import Py Lib AuditLogger.
Context {L : Libs}.

Lemma truthy_dict (m : gmap string pyval) : truthy (PDict m) = true <-> m <> ∅.
Proof.
  cbn [truthy]. destruct (map_to_list m) as [|kv l] eqn:E.
  - apply map_to_list_empty_iff in E. split; [done | by intros []].
  - split; [|done]. intros _ ->. by rewrite map_to_list_empty in E.
Qed.

(** X25.  An event has the eight keys [timestamp], [event_type],
    [protocol], [agent_id], [resource], [outcome], [source] and [version],
    and the key [metadata] exactly when metadata was passed that is not
    empty.  The event of [log_token_generation] always has metadata: the
    caller's entries and the TTL under [ttl_minutes], unless the caller's
    metadata has that key, which then wins. *)
Theorem event_shape (now etype protocol agent resource outcome : string)
    (metadata : option (gmap string pyval)) :
  let ev := event_dict (_create_event_payload now etype protocol agent resource
                          outcome metadata) in
  (forall k, is_Some (ev !! k) <->
             k ∈ event_keys \/ k = "metadata" /\ exists m, metadata = Some m /\ m <> ∅)
  /\ ev !! "source" = Some (PStr "1password-credential-broker")
  /\ ev !! "version" = Some (PStr "1.0.0")
  /\ (forall m, metadata = Some m -> m <> ∅ -> ev !! "metadata" = Some (PDict m))
  /\ (forall self E w ttl,
        exists e m,
          log_token_generation self E w now protocol agent resource ttl metadata
          = emit self E w e
          /\ event_type e = "token_generation" /\ AuditLogger.outcome e = "success"
          /\ AuditLogger.metadata e = Some m
          /\ m !! "ttl_minutes"
             = Some (default (PInt ttl) (metadata ≫= (fun c => c !! "ttl_minutes")))
          /\ (forall k, k <> "ttl_minutes" -> m !! k = metadata ≫= (fun c => c !! k))).
Proof.
  intros ev.
  set (base := event_dict (_create_event_payload now etype protocol agent resource
                             outcome None)).
  assert (Hbase : forall k, is_Some (base !! k) <-> k ∈ event_keys).
  { intros k. unfold base, event_dict, _create_event_payload, event_keys.
    cbn [AuditLogger.metadata timestamp event_type AuditLogger.protocol agent_id
         AuditLogger.resource AuditLogger.outcome source version].
    rewrite !lookup_insert_is_Some. rewrite lookup_empty, is_Some_alt.
    rewrite !elem_of_cons, elem_of_nil. intuition congruence. }
  assert (Hev : ev = match metadata with
                     | Some m => if truthy (PDict m) then <["metadata" := PDict m]> base
                                 else base
                     | None => base
                     end).
  { unfold ev, base, event_dict, _create_event_payload.
    cbn [AuditLogger.metadata timestamp event_type AuditLogger.protocol agent_id
         AuditLogger.resource AuditLogger.outcome source version].
    destruct metadata as [m|]; [|done]. by destruct (truthy (PDict m)). }
  assert (Hnometa : base !! "metadata" = None).
  { apply eq_None_not_Some. rewrite Hbase. unfold event_keys.
    rewrite !elem_of_cons, elem_of_nil. intuition congruence. }
  split; [|split; [|split; [|split]]].
  - intros k. rewrite Hev. destruct metadata as [m|].
    + destruct (truthy (PDict m)) eqn:Ht.
      * apply truthy_dict in Ht. rewrite lookup_insert_is_Some, Hbase.
        split.
        -- intros [<- | [_ Hk]]; [right; split; [done|]; by exists m | by left].
        -- intros [Hk | [-> _]]; [|by left].
           destruct (decide ("metadata" = k)) as [<-|]; [by left | by right].
      * assert (m = ∅) as ->.
        { destruct (decide (m = ∅)); [done|]. by apply truthy_dict in n; congruence. }
        rewrite Hbase. split; [by left|]. intros [Hk | [_ (m' & [= <-] & Hm')]]; done.
    + rewrite Hbase. split; [by left|]. intros [Hk | [_ (m' & [=] & _)]]. done.
  - assert (Hs : base !! "source" = Some (PStr "1password-credential-broker")).
    { unfold base, event_dict. cbn.
      rewrite !lookup_insert_ne by discriminate. by rewrite lookup_insert_eq. }
    rewrite Hev. destruct metadata as [m|]; [|done].
    destruct (truthy (PDict m)); [|done]. by rewrite lookup_insert_ne.
  - assert (Hs : base !! "version" = Some (PStr "1.0.0")).
    { unfold base, event_dict. cbn.
      rewrite !lookup_insert_ne by discriminate. by rewrite lookup_insert_eq. }
    rewrite Hev. destruct metadata as [m|]; [|done].
    destruct (truthy (PDict m)); [|done]. by rewrite lookup_insert_ne.
  - intros m -> Hm. rewrite Hev. apply truthy_dict in Hm. rewrite Hm.
    apply lookup_insert_eq.
  - intros self E w ttl. unfold log_token_generation. eexists _, _.
    split; [reflexivity|]. split; [reflexivity|]. split; [reflexivity|].
    split.
    { cbn [AuditLogger.metadata _create_event_payload].
      match goal with |- context [truthy (PDict ?x)] =>
        assert (Hx : truthy (PDict x) = true); [|rewrite Hx; reflexivity] end.
      apply truthy_dict. destruct metadata as [m|].
      - destruct (truthy (PDict m)).
        + intros H. apply (f_equal (fun x => x !! "ttl_minutes")) in H.
          rewrite lookup_union, lookup_singleton_eq, lookup_empty in H.
          by destruct (m !! "ttl_minutes").
        + intros H. apply (f_equal (fun x => x !! "ttl_minutes")) in H.
          by rewrite lookup_singleton_eq, lookup_empty in H.
      - intros H. apply (f_equal (fun x => x !! "ttl_minutes")) in H.
        by rewrite lookup_singleton_eq, lookup_empty in H. }
    destruct metadata as [m|]; cbn [mbind option_bind].
    + destruct (truthy (PDict m)) eqn:Ht.
      * split.
        -- rewrite lookup_union, lookup_singleton_eq.
           by destruct (m !! "ttl_minutes").
        -- intros k Hk. rewrite lookup_union, lookup_singleton_ne by done.
           by destruct (m !! k).
      * assert (m = ∅) as ->.
        { destruct (decide (m = ∅)); [done|]. by apply truthy_dict in n; congruence. }
        split.
        -- by rewrite lookup_singleton_eq, lookup_empty.
        -- intros k Hk. by rewrite lookup_singleton_ne, lookup_empty.
    + split; [by rewrite lookup_singleton_eq|].
      intros k Hk. by rewrite lookup_singleton_ne.
Qed.

End Events.

(** ** The small implementation meets the contracts *)

Section RefLibsLaws.
Import Py Lib RefLibs.

Lemma dec_enc_str s rest : dec_str (enc_str s rest) = Some (s, rest).
Proof.
  induction s as [|a s IH]; [reflexivity|].
  cbn [enc_str]. change (dec_str (String "c" (String a (enc_str s rest))))
    with (match dec_str (enc_str s rest) with
          | Some (x, r) => Some (String a x, r)
          | None => None
          end).
  by rewrite IH.
Qed.

Lemma length_enc_str s rest :
  (String.length rest < String.length (enc_str s rest))%nat.
Proof. induction s; cbn [enc_str String.length]; lia. Qed.

Lemma str_to_pos_to_str p : str_to_pos (pos_to_str p) = Some p.
Proof. induction p as [p IH|p IH|]; cbn; by rewrite ?IH. Qed.

Lemma str_to_z_to_str z : str_to_z (z_to_str z) = Some z.
Proof.
  destruct z as [|p|p]; [reflexivity| |].
  - change (str_to_z (z_to_str (Z.pos p))) with (Zpos <$> str_to_pos (pos_to_str p)).
    by rewrite str_to_pos_to_str.
  - change (str_to_z (z_to_str (Z.neg p))) with (Zneg <$> str_to_pos (pos_to_str p)).
    by rewrite str_to_pos_to_str.
Qed.

Lemma dec_ser_flat v rest : dec_flat (ser_flat v rest) = Some (v, rest).
Proof.
  destruct v as [[]|[[]|[z|s]]]; try reflexivity.
  - change (dec_flat (ser_flat (inr (inr (inl z))) rest))
      with (match dec_str (enc_str (z_to_str z) rest) with
            | Some (x, r) => match str_to_z x with
                             | Some z' => Some (inr (inr (inl z')) : flat, r)
                             | None => None
                             end
            | None => None
            end).
    by rewrite dec_enc_str, str_to_z_to_str.
  - change (dec_flat (ser_flat (inr (inr (inr s))) rest))
      with (match dec_str (enc_str s rest) with
            | Some (x, r) => Some (inr (inr (inr x)) : flat, r)
            | None => None
            end).
    by rewrite dec_enc_str.
Qed.

Lemma length_ser_flat v rest :
  (String.length rest < String.length (ser_flat v rest))%nat.
Proof.
  destruct v as [[]|[[]|[z|s]]]; cbn [ser_flat String.length]; try lia.
  - pose proof (length_enc_str (z_to_str z) rest). lia.
  - pose proof (length_enc_str s rest). lia.
Qed.

Lemma length_ser_entries l : (length l < String.length (ser_entries l))%nat.
Proof.
  induction l as [|[k v] l IH]; cbn [ser_entries String.length length]; [lia|].
  pose proof (length_enc_str k (ser_flat v (ser_entries l))).
  pose proof (length_ser_flat v (ser_entries l)). lia.
Qed.

Lemma dec_ser_entries l n :
  (length l < n)%nat -> dec_entries n (ser_entries l) = Some l.
Proof.
  revert n. induction l as [|[k v] l IH]; intros n Hn.
  - destruct n; [cbn [length] in Hn; lia | reflexivity].
  - destruct n as [|n]; [cbn [length] in Hn; lia|].
    cbn [ser_entries].
    change (dec_entries (S n) (String "k" (enc_str k (ser_flat v (ser_entries l)))))
      with (match dec_str (enc_str k (ser_flat v (ser_entries l))) with
            | Some (k', r1) =>
                match dec_flat r1 with
                | Some (v', r2) =>
                    match dec_entries n r2 with
                    | Some l' => Some ((k', v') :: l')
                    | None => None
                    end
                | None => None
                end
            | None => None
            end).
    rewrite dec_enc_str, dec_ser_flat, IH; [done|]. cbn [length] in Hn. lia.
Qed.

Lemma dec_ser_dict m : dec_dict (ser_dict m) = Some m.
Proof.
  unfold dec_dict, ser_dict.
  rewrite dec_ser_entries by apply length_ser_entries.
  cbn. by rewrite list_to_map_to_list.
Qed.

Lemma of_to_flat v f : to_flat v = Some f -> of_flat f = v.
Proof. destruct v; intros [= <-]; reflexivity. Qed.

Lemma flatten_Some d m : flatten d = Some m -> of_flat <$> m = d.
Proof.
  unfold flatten.
  destruct (forallb _ _) eqn:Hall; [|discriminate]. intros [= <-].
  apply map_eq. intros k. rewrite lookup_fmap, lookup_omap.
  destruct (d !! k) as [v|] eqn:Hk; [|done]. cbn.
  rewrite forallb_forall in Hall.
  assert (Hin : In (k, v) (map_to_list d)).
  { apply list_elem_of_In. by apply elem_of_map_to_list. }
  specialize (Hall _ Hin). cbn in Hall. unfold is_flat in Hall.
  destruct (to_flat v) as [f|] eqn:Hf; [|discriminate]. cbn.
  by rewrite (of_to_flat v f Hf).
Qed.

Lemma flatten_str_dict (d : gmap string string) :
  exists m, flatten (PStr <$> d) = Some m.
Proof.
  unfold flatten.
  assert (forallb (fun kv : string * pyval => is_flat kv.2) (map_to_list (PStr <$> d)) = true)
    as ->; [|by eexists].
  apply forallb_forall. intros [k v] Hin. cbn.
  apply list_elem_of_In, elem_of_map_to_list in Hin.
  rewrite lookup_fmap in Hin.
  destruct (d !! k); [|discriminate]. cbn in Hin. by injection Hin as <-.
Qed.

Lemma unpair_pair_bytes k m : unpair_bytes (pair_bytes k m) = Some (k, m).
Proof.
  unfold pair_bytes. induction k as [|c k IH]; [reflexivity|].
  cbn [flat_map app].
  change (unpair_bytes (x01 :: c :: flat_map (fun c => [x01; c]) k ++ x00 :: m))
    with (match unpair_bytes (flat_map (fun c => [x01; c]) k ++ x00 :: m) with
          | Some (k', m') => Some (c :: k', m')
          | None => None
          end).
  by rewrite IH.
Qed.

Lemma ref_libs_ok : LibsOk RefLibs.libs.
Proof.
  split.
  - intros s. cbn. unfold bytes_decode, str_encode, Str.to_string, Str.of_string.
    rewrite map_map.
    rewrite (map_ext _ (fun a => a)) by apply ascii_of_byte_of_ascii.
    by rewrite map_id, string_of_list_ascii_of_string.
  - intros key iv data. cbn.
    exists (Str.to_string (map ascii_of_byte (fernet_encrypt key iv data))).
    split; [reflexivity|].
    unfold str_encode, Str.to_string, Str.of_string.
    rewrite list_ascii_of_string_of_list_ascii, map_map.
    rewrite (map_ext _ (fun a => a)) by apply byte_of_ascii_of_byte.
    by rewrite map_id.
  - intros key iv data. cbn. unfold fernet_decrypt, fernet_encrypt.
    rewrite unpair_pair_bytes, bool_decide_eq_true_2 by done.
    by rewrite unpair_pair_bytes.
  - intros d. cbn. unfold json_dumps, json_loads, str_dict.
    destruct (flatten_str_dict d) as [m Hm]. rewrite Hm.
    exists (ser_dict m). split; [reflexivity|].
    by rewrite dec_ser_dict, (flatten_Some _ _ Hm).
  - intros payload key alg tok now iat. cbn. unfold jwt_encode, jwt_decode.
    destruct (flatten (jwt_time_claims payload)) as [m|] eqn:Hm; [|discriminate].
    intros [= <-] _ _ _.
    rewrite !dec_enc_str, dec_ser_dict.
    rewrite !bool_decide_eq_true_2 by (done || by left). cbn.
    by rewrite (flatten_Some _ _ Hm).
Qed.

Lemma ref_libs_ideal : IdealCrypto RefLibs.libs.
Proof.
  split. intros key key' iv data Hne.
  cbn [Lib.fernet_decrypt Lib.fernet_encrypt Lib.urlsafe_b64encode libs] in *.
  unfold fernet_decrypt, fernet_encrypt, urlsafe_b64encode in *.
  rewrite unpair_pair_bytes, bool_decide_eq_false_2; [done|].
  congruence.
Qed.

(** So does the one with the real key derivation. *)
Lemma hmac_libs_ok : LibsOk RefLibs.hmac_libs.
Proof.
  destruct ref_libs_ok as [H1 H2 H3 H4 H5].
  split; [exact H1 | exact H2 | exact H3 | exact H4 | exact H5].
Qed.

(** In it the sample secret and the secret with U+0000 after it derive the
    same key. *)
Lemma padded_secret_same_key :
  TokenManager._initialize_fernet (L := RefLibs.hmac_libs) Sample.padded_secret
  = TokenManager._initialize_fernet (L := RefLibs.hmac_libs) Sample.secret.
Proof.
  assert (E : RefLibs.str_encode Sample.padded_secret
              = RefLibs.str_encode Sample.secret ++ [x00])
    by (vm_compute; reflexivity).
  assert (E' : length (RefLibs.str_encode Sample.secret) = 43%nat)
    by (vm_compute; reflexivity).
  unfold TokenManager._initialize_fernet.
  cbn [Lib.str_encode Lib.pbkdf2_hmac_sha256 Lib.urlsafe_b64encode RefLibs.hmac_libs].
  rewrite E, pbkdf2_zero_padded; [reflexivity|].
  rewrite E'. lia.
Qed.

End RefLibsLaws.

#[global] Existing Instance RefLibs.libs.
#[global] Existing Instance ref_libs_ok.
#[global] Existing Instance ref_libs_ideal.

(** ** The small implementation meets the further contracts *)

Section RefLibsLaws2.
Import Py Lib PyJWT RefLibs.

Lemma ref_libs_expiry : ExpiryOk RefLibs.libs.
Proof.
  constructor. intros tok key algs now claims e.
  cbn [Lib.jwt_decode libs]. unfold jwt_decode.
  destruct (dec_str tok) as [[k r1]|]; [|discriminate].
  destruct (dec_str r1) as [[alg r2]|]; [|discriminate].
  destruct (dec_dict r2) as [m|]; [|discriminate].
  destruct (bool_decide (k = key) && bool_decide (alg ∈ algs)); [|discriminate].
  cbn [andb]. intros [= <-] He. unfold expired. by rewrite He.
Qed.

Lemma ref_libs_fernet : FernetOk RefLibs.libs.
Proof.
  constructor. intros key iv data.
  cbn [Lib.bytes_decode Lib.fernet_encrypt libs]. unfold bytes_decode, fernet_encrypt.
  intros [= H]. apply (f_equal Str.of_string) in H.
  unfold Str.of_string, Str.to_string in H.
  rewrite list_ascii_of_string_of_list_ascii in H. cbn [list_ascii_of_string] in H.
  apply map_eq_nil in H. unfold pair_bytes in H.
  by apply app_eq_nil in H as [_ H].
Qed.

Lemma ref_floats_ok : FloatsOk RefFloats.floats.
Proof. constructor. reflexivity. Qed.

End RefLibsLaws2.

#[global] Existing Instance RefFloats.floats.
#[global] Existing Instance ref_libs_expiry.
#[global] Existing Instance ref_libs_fernet.
#[global] Existing Instance ref_floats_ok.

(** ** Running the model on the sample installation *)



Lemma retry_queue_bounded_witness :
  let self := AuditLogger.init (Some "https://events.example.com") (Some "my-token") 0
                true "logs/audit.log" in
  let E := {| AuditLogger.collector := fun _ => AuditLogger.RequestError;
              AuditLogger.writable := fun _ => true |} in
  let w := {| AuditLogger.files := ∅; AuditLogger.posts := [] |} in
  let calls := map (fun i => {| a_now := "2025-10-23T12:34:56Z";
                                a_protocol := "mcp";
                                a_agent_id := "agent-" +:+ pretty i;
                                a_resource := "test";
                                a_outcome := "success";
                                a_metadata := None |}) (seq 0 1100) in
  let queue := AuditLogger.failed_events_queue (log_all self E w calls).1 in
  length queue = 1000%nat /\ queue = map access_event (drop 100 calls).
Proof.
  intros self E w calls queue.
  assert (Hlen : length calls = 1100%nat).
  { unfold calls. rewrite length_map. apply length_seq. }
  assert (HE : AuditLogger.events_api_enabled self = false \/ rejecting E).
  { right. intros n. exact I. }
  pose proof (retry_queue_bounded self E w calls eq_refl HE) as [_ H].
  exact (H Hlen).
Defined.

Lemma generate_jwt_expiry_witness :
  exists tok claims iat exp ttl,
    TokenManager.generate_jwt Sample.token_mgr "agent-1"
      (Py.str_dict Sample.credentials) "database" "prod-db" (Some 10) None
      Sample.now Sample.iv = inr tok
    /\ Lib.jwt_decode tok Sample.secret ["HS256"] false (Sample.now + 1) = inr claims
    /\ claims !! "iat" = Some (Py.PInt iat)
    /\ claims !! "exp" = Some (Py.PInt exp)
    /\ claims !! "ttl_minutes" = Some (Py.PInt ttl)
    /\ exp = iat + 60 * ttl.
Proof.
  destruct (TokenManager.generate_jwt Sample.token_mgr "agent-1"
              (Py.str_dict Sample.credentials) "database" "prod-db" (Some 10) None
              Sample.now Sample.iv) as [e|tok] eqn:E; [vm_compute in E; discriminate E|].
  assert (Hnow : Sample.now <= Sample.now + 1) by lia.
  destruct (generate_jwt_expiry Sample.token_mgr _ _ _ _ _ _ _ _ _ E Hnow)
    as (claims & iat & exp & ttl & H).
  exists tok, claims, iat, exp, ttl. split; [reflexivity | exact H].
Defined.

Lemma zero_ttl_is_default_witness :
  exists tok claims iat,
    TokenManager.generate_jwt Sample.token_mgr "agent-1"
      (Py.str_dict Sample.credentials) "database" "my-db" (Some 0) None
      Sample.now Sample.iv = inr tok
    /\ Lib.jwt_decode tok Sample.secret ["HS256"] false (Sample.now + 1) = inr claims
    /\ claims !! "ttl_minutes" = Some (Py.PInt 5)
    /\ claims !! "iat" = Some (Py.PInt iat)
    /\ claims !! "exp" = Some (Py.PInt (iat + 300)).
Proof.
  destruct (TokenManager.generate_jwt Sample.token_mgr "agent-1"
              (Py.str_dict Sample.credentials) "database" "my-db" (Some 0) None
              Sample.now Sample.iv) as [e|tok] eqn:E; [vm_compute in E; discriminate E|].
  assert (Hnow : Sample.now <= Sample.now + 1) by lia.
  pose proof (zero_ttl_is_default Sample.token_mgr Sample.manager [] "agent-1"
                (Py.str_dict Sample.credentials) "database" "my-db" None
                Sample.now (Sample.now + 1) Sample.iv) as (_ & _ & _ & H & _).
  destruct (H tok E Hnow) as (claims & iat & Hdec & _ & Hiat & _ & Hdef).
  destruct (Hdef eq_refl) as [Httl Hexp].
  exists tok, claims, iat.
  split; [reflexivity|]. split; [exact Hdec|]. split; [exact Httl|].
  split; [exact Hiat | exact Hexp].
Defined.

Lemma verify_and_decrypt_composes_witness :
  (TokenManager.verify_jwt Sample.token_mgr Sample.bare_token Sample.now
   = inr Sample.bare_claims
   /\ Sample.bare_claims !! "credentials" = None
   /\ TokenManager.verify_and_decrypt Sample.token_mgr Sample.bare_token Sample.now
      = inl no_payload)
  /\ (TokenManager.verify_jwt Sample.token_mgr Sample.token (Sample.now + 1000000)
      = inr Sample.token_claims
      /\ TokenManager.verify_and_decrypt Sample.token_mgr Sample.token
           (Sample.now + 1000000)
         = inr (token_context Sample.token_claims (Py.str_dict Sample.credentials)))
  /\ (exists e,
        TokenManager.verify_jwt Sample.token_mgr Sample.token (Sample.now + 600000000)
        = inl e
        /\ TokenManager.verify_and_decrypt Sample.token_mgr Sample.token
             (Sample.now + 600000000) = inl e).
Proof.
  split; [|split].
  - assert (Hv : TokenManager.verify_jwt Sample.token_mgr Sample.bare_token Sample.now
                 = inr Sample.bare_claims) by (vm_compute; reflexivity).
    assert (Hc : Sample.bare_claims !! "credentials" = None) by (vm_compute; reflexivity).
    split; [exact Hv|]. split; [exact Hc|].
    pose proof (verify_and_decrypt_composes Sample.token_mgr Sample.bare_token Sample.now)
      as (_ & Hbare & _).
    exact (Hbare Sample.bare_claims Hv (or_introl Hc)).
  - assert (Hv : TokenManager.verify_jwt Sample.token_mgr Sample.token
                   (Sample.now + 1000000) = inr Sample.token_claims)
      by (vm_compute; reflexivity).
    split; [exact Hv|].
    pose proof (verify_and_decrypt_composes Sample.token_mgr Sample.token
                  (Sample.now + 1000000)) as (_ & _ & Hcomp).
    assert (Hc : Sample.token_claims !! "credentials"
                 = Some (Py.dict_get Sample.token_claims "credentials"))
      by (vm_compute; reflexivity).
    rewrite (Hcomp Sample.token_claims _ Hv Hc).
    assert (Ht : Py.truthy (Py.dict_get Sample.token_claims "credentials") = true)
      by (vm_compute; reflexivity).
    rewrite Ht.
    assert (Hd : TokenManager.decrypt_payload Sample.token_mgr
                   (Py.dict_get Sample.token_claims "credentials")
                 = inr (Py.str_dict Sample.credentials))
      by (vm_compute; reflexivity).
    rewrite Hd. reflexivity.
  - exists (Py.ExpiredSignatureError "Signature has expired").
    assert (Hv : TokenManager.verify_jwt Sample.token_mgr Sample.token
                   (Sample.now + 600000000)
                 = inl (Py.ExpiredSignatureError "Signature has expired"))
      by (vm_compute; reflexivity).
    split; [exact Hv|].
    pose proof (verify_and_decrypt_composes Sample.token_mgr Sample.token
                  (Sample.now + 600000000)) as (Herr & _).
    exact (Herr _ Hv).
Defined.

Lemma parse_intent_resource_name_witness :
  IntentParser.resource_name (IntentParser.parse_intent "Get API credentials for Stripe-API")
  = Some "stripe-api"
  /\ OnePasswordClient.str_lower "stripe-api" = "stripe-api".
Proof.
  assert (H : IntentParser.resource_name
                (IntentParser.parse_intent "Get API credentials for Stripe-API")
              = Some "stripe-api") by (vm_compute; reflexivity).
  split; [exact H|].
  exact (proj2 (proj2 (proj2 (parse_intent_resource_name _ _ H)))).
Defined.

Lemma get_item_by_title_first_match_witness :
  OnePasswordClient.get_item_by_title Sample.op_client [] "PRODUCTION-postgres" None
  = (inr (Some Sample.item_postgres),
     [OnePasswordClient.CallGetItemByTitle "PRODUCTION-postgres" None;
      OnePasswordClient.CallClientGetItems "vault-1";
      OnePasswordClient.CallClientGetItem "item-1" "vault-1"]).
Proof.
  pose proof (get_item_by_title_first_match Sample.op_client [] "PRODUCTION-postgres"
                None "vault-1" [Sample.item_postgres] eq_refl ltac:(discriminate) eq_refl)
    as (Hfound & _).
  exact (Hfound [] Sample.item_postgres [] eq_refl (List.Forall_nil _) eq_refl).
Defined.

Lemma vault_id_required_witness :
  let self := {| OnePasswordClient.connect_host := "http://localhost:8080";
                 OnePasswordClient.connect_token := "t";
                 OnePasswordClient.vault_id := None;
                 OnePasswordClient.client := Sample.connect |} in
  OnePasswordClient.get_item_by_title self [] "prod-db" (Some "")
  = (inl (Py.ValueError "vault_id is required"),
     [OnePasswordClient.CallGetItemByTitle "prod-db" (Some "")])
  /\ OnePasswordClient.get_item self [] "item-1" (Some "vault-9")
     = (inr Sample.item_postgres, [OnePasswordClient.CallClientGetItem "item-1" "vault-9"]).
Proof.
  intros self.
  destruct (vault_id_required self [] "item-1" "prod-db" (Some "")
              (fun _ => inl (Py.Exception "unreachable"))) as (Hgiven & Hnone).
  split.
  - exact (proj1 (proj2 (Hnone eq_refl eq_refl))).
  - exact (proj1 (Hgiven "vault-9" ltac:(discriminate))).
Defined.

Lemma extract_credential_fields_sound_witness :
  OnePasswordClient.extract_credential_fields Sample.item_postgres !! "password"
  = Some "s3cret"
  /\ "s3cret" <> "".
Proof.
  assert (H : OnePasswordClient.extract_credential_fields Sample.item_postgres
              !! "password" = Some "s3cret")
    by (vm_compute; reflexivity).
  split; [exact H|].
  refine (proj1 (extract_credential_fields_sound Sample.item_postgres "password" "s3cret" H _)).
  unfold metadata_keys. intros Hin.
  repeat (apply elem_of_cons in Hin as [Hin|Hin]; [discriminate Hin|]).
  by apply elem_of_nil in Hin.
Defined.

Lemma verify_bearer_token_accepts_witness :
  A2A.verify_bearer_token ∅ (Some "BEARER dev-token-change-in-production")
  = inr "authenticated-agent"
  /\ exists e, A2A.verify_bearer_token (<["A2A_BEARER_TOKEN" := "two words"]> ∅)
                 (Some "Bearer two words") = inl e.
Proof.
  split.
  - refine (proj2 (proj2 (proj2 (verify_bearer_token_accepts ∅ None))) "BEARER" eq_refl _).
    vm_compute. split; [discriminate|]. repeat constructor.
  - refine (proj1 (proj2 (proj2 (verify_bearer_token_accepts
              (<["A2A_BEARER_TOKEN" := "two words"]> ∅) (Some "Bearer two words")))) _).
    intros [_ H]. vm_compute in H.
    do 3 apply Forall_cons in H as [_ H]. apply Forall_cons in H as [H _]. discriminate H.
Defined.

(** ** The further theorems on the samples *)

Lemma post_event_to_api_attempts_witness :
  exists (n : nat) (ok : bool),
    AuditLogger._post_event_to_api Sample2.logger Sample2.flaky Sample2.world0
      Sample2.event1 0
    = (ok, with_client Sample2.logger,
       {| AuditLogger.files := ∅;
          AuditLogger.posts := replicate n (events_url Sample2.logger, Sample2.event1) |})
    /\ (1 <= n <= 4)%nat.
Proof.
  destruct (post_event_to_api_attempts Sample2.logger Sample2.flaky Sample2.world0
              Sample2.event1 0) as (n & ok & Heq & _ & Hen).
  exists n, ok. split; [exact Heq|]. exact (proj1 (Hen eq_refl)).
Defined.


Lemma log_credential_access_answered_witness :
  let ev := AuditLogger._create_event_payload "2025-10-23T12:34:56Z" "credential_access"
              "MCP" "agent-1" "database/prod-db" "success" None in
  let '(self', w') :=
    AuditLogger.log_credential_access Sample2.logger Sample2.unavailable Sample2.world0
      "2025-10-23T12:34:56Z" "MCP" "agent-1" "database/prod-db" "success" None in
  AuditLogger.posts w' = AuditLogger.posts Sample2.world0 ++ [(events_url Sample2.logger, ev)]
  /\ AuditLogger.http_client self' = true
  /\ AuditLogger.failed_events_queue self'
     = if bool_decide (503 ∈ [200; 201; 202])
       then AuditLogger.failed_events_queue Sample2.logger
       else AuditLogger.deque_append AuditLogger.QUEUE_MAXLEN
              (AuditLogger.failed_events_queue Sample2.logger) ev.
Proof.
  exact (log_credential_access_answered Sample2.logger Sample2.unavailable Sample2.world0
           "2025-10-23T12:34:56Z" "MCP" "agent-1" "database/prod-db" "success" None 503
           eq_refl eq_refl).
Defined.

Lemma retry_failed_events_conserves_witness :
  let self := AuditLogger.set_queue Sample2.logger [Sample2.event1; Sample2.event2] in
  AuditRetry.retry_failed_events self Sample2.once Sample2.world0
  = (1, AuditLogger.set_queue (with_client self) [Sample2.event2],
     {| AuditLogger.files := ∅;
        AuditLogger.posts := [(events_url self, Sample2.event1);
                              (events_url self, Sample2.event2)] |})
  /\ sublist [Sample2.event2] [Sample2.event1; Sample2.event2].
Proof.
  intros self.
  assert (E : AuditRetry.retry_failed_events self Sample2.once Sample2.world0
              = (1, AuditLogger.set_queue (with_client self) [Sample2.event2],
                 {| AuditLogger.files := ∅;
                    AuditLogger.posts := [(events_url self, Sample2.event1);
                                          (events_url self, Sample2.event2)] |}))
    by (vm_compute; reflexivity).
  split; [exact E|].
  pose proof (retry_failed_events_conserves self Sample2.once Sample2.world0
                ltac:(cbn; lia)) as H.
  rewrite E in H. exact (proj1 H).
Defined.

Lemma unconfigured_never_sends_witness :
  let calls := [LogCredentialAccess "2025-10-23T12:34:56Z" "MCP" "agent-1"
                  "database/prod-db" "success" None;
                RetryFailedEvents; Close] in
  let '(self', w') :=
    audit_run (AuditLogger.init None (Some "events-token") 3 true "logs/audit.log")
      Sample2.flaky Sample2.world0 calls in
  let events := omap call_event calls in
  AuditLogger.posts w' = AuditLogger.posts Sample2.world0
  /\ AuditLogger.http_client self' = false
  /\ AuditLogger.failed_events_queue self' = drop (length events - 1000) events.
Proof.
  intros calls.
  exact (unconfigured_never_sends None (Some "events-token") 3 true "logs/audit.log"
           Sample2.flaky Sample2.world0 calls eq_refl).
Defined.

Lemma sample_token_generated :
  TokenManager.generate_jwt Sample.token_mgr "agent-1" (Py.str_dict Sample.credentials)
    "database" "prod-db" (Some 10) None Sample.now Sample.iv = inr Sample.token.
Proof. vm_compute. reflexivity. Qed.

Lemma issued_token_lifetime_witness :
  TokenQueries.is_token_expired Sample.token_mgr Sample.token (Sample.now + 1000000)
  = inr false
  /\ TokenQueries.is_token_expired Sample.token_mgr Sample.token (Sample.now + 600000000)
     = inr true.
Proof.
  pose proof (issued_token_lifetime Sample.token_mgr "agent-1"
                (Py.str_dict Sample.credentials) "database" "prod-db" (Some 10)
                Sample.now Sample.iv Sample.token sample_token_generated) as H.
  cbv zeta in H. destruct H as [Hexp _].
  split.
  - rewrite (Hexp (Sample.now + 1000000) ltac:(lia)). reflexivity.
  - rewrite (Hexp (Sample.now + 600000000) ltac:(lia)). reflexivity.
Defined.

Lemma time_until_expiry_nonneg_witness :
  TokenQueries.get_time_until_expiry Sample.token_mgr Sample.token
    (Sample.now + 1000000) (Sample.now + 2000000) = Some 597750000
  /\ 0 <= 597750000.
Proof.
  pose proof (time_until_expiry_nonneg Sample.token_mgr Sample.token
                (Sample.now + 1000000) (Sample.now + 2000000)) as [Hpos Hissued].
  assert (E : TokenQueries.get_time_until_expiry Sample.token_mgr Sample.token
                (Sample.now + 1000000) (Sample.now + 2000000) = Some 597750000).
  { rewrite (Hissued "agent-1" (Py.str_dict Sample.credentials) "database" "prod-db"
               (Some 10) Sample.now Sample.iv sample_token_generated ltac:(lia)
               ltac:(discriminate)).
    reflexivity. }
  split; [exact E|]. exact (Hpos _ E).
Defined.

Lemma validate_token_issued_witness :
  exists v,
    TokenValidation.validate_token Sample.manager Sample.token (Sample.now + 1000000)
      (Sample.now + 1000001) (Sample.now + 2000000) = inr v
    /\ 0 <= TokenValidation.time_remaining v <= 600.
Proof.
  pose proof (validate_token_issued Sample.manager "agent-1"
                (Py.str_dict Sample.credentials) "database" "prod-db" (Some 10)
                Sample.now Sample.iv Sample.token (Sample.now + 1000000)
                (Sample.now + 1000001) (Sample.now + 2000000) sample_token_generated
                ltac:(unfold Sample.now; lia) ltac:(lia) ltac:(reflexivity)) as H.
  cbv zeta in H. destruct H as [Heq Hrange].
  assert (Hlive : (expiry Sample.now (Py.int_or (Some 10)
                    (TokenManager.default_ttl_minutes
                       (CredentialManager.token_mgr Sample.manager))) * 1000000
                  <=? Sample.now + 1000000) = false) by reflexivity.
  rewrite Hlive in Heq. eexists. split; [exact Heq|].
  exact (Hrange _ Heq).
Defined.

Lemma issue_ephemeral_token_fields_witness :
  exists td,
    CredentialManager.issue_ephemeral_token Sample.manager
      (Py.str_dict Sample.credentials) "agent-1" "database" "prod-db" (Some 10)
      Sample.now (Sample.now + 1000000) Sample.iv = inr td
    /\ CredentialManager.expires_in td = Py.PInt 600
    /\ CredentialManager.resource td = "database/prod-db".
Proof.
  set (r := CredentialManager.issue_ephemeral_token Sample.manager
              (Py.str_dict Sample.credentials) "agent-1" "database" "prod-db" (Some 10)
              Sample.now (Sample.now + 1000000) Sample.iv).
  set (td := match r with
             | inr td => td
             | inl _ => {| CredentialManager.token := ""; CredentialManager.expires_in := Py.PNone;
                           CredentialManager.resource := ""; CredentialManager.issued_at := Py.PNone;
                           CredentialManager.expires_at := Py.PNone;
                           CredentialManager.ttl_minutes := Py.PNone |}
             end).
  assert (E : r = inr td) by (vm_compute; reflexivity).
  exists td. split; [exact E|].
  pose proof (issue_ephemeral_token_fields Sample.manager (Py.str_dict Sample.credentials)
                "agent-1" "database" "prod-db" (Some 10) Sample.now (Sample.now + 1000000)
                Sample.iv ltac:(lia)) as H.
  cbv zeta in H. destruct H as [Hfields _].
  destruct (Hfields td E) as (iat & _ & Hin & _ & _ & Hres & _).
  split; [exact Hin | exact Hres].
Defined.

Lemma sample_issued :
  exists td log',
    Sample2.issued = (inr td, log') /\ CredentialManager.token td = Sample2.issued_token.
Proof.
  set (td := match Sample2.issued.1 with
             | inr td => td
             | inl _ => {| CredentialManager.token := ""; CredentialManager.expires_in := Py.PNone;
                           CredentialManager.resource := ""; CredentialManager.issued_at := Py.PNone;
                           CredentialManager.expires_at := Py.PNone;
                           CredentialManager.ttl_minutes := Py.PNone |}
             end).
  exists td, Sample2.issued.2. split; vm_compute; reflexivity.
Qed.

Lemma issued_token_round_trip_witness :
  exists creds,
    creds !! "password" = Some "s3cret"
    /\ exists v,
         TokenValidation.get_credentials_from_token Sample.manager
           Sample2.issued_token (Sample.now + 2000000) = inr v
         /\ TokenManager.credentials v = Py.str_dict creds.
Proof.
  destruct sample_issued as (td & log' & E & <-).
  pose proof (issued_token_round_trip Sample.manager [] log' "database"
                "production-postgres" "agent-1" (Some 10) None Sample.now
                (Sample.now + 1000000) Sample.iv td E ltac:(lia)) as H.
  cbv zeta in H. destruct H as (creds & Hfetch & Hget).
  exists creds. split.
  - assert (Hc : (CredentialManager.fetch_credentials Sample.manager [] "database"
                    "production-postgres" None).1
                 = inr (OnePasswordClient.extract_credential_fields Sample.item_postgres))
      by (vm_compute; reflexivity).
    rewrite Hfetch in Hc. cbn [fst] in Hc. injection Hc as ->.
    vm_compute. reflexivity.
  - rewrite (Hget (Sample.now + 2000000) ltac:(lia)).
    assert (Hlive : (expiry Sample.now (Py.int_or (Some 10)
                      (TokenManager.default_ttl_minutes
                         (CredentialManager.token_mgr Sample.manager))) * 1000000
                    <=? Sample.now + 2000000) = false) by reflexivity.
    rewrite Hlive. eexists. split; reflexivity.
Defined.

Lemma extract_summary_bounded_witness :
  SessionManager._extract_summary [Sample2.request]
  = "I need database credentials for prod-db"
  /\ (Text.len (SessionManager._extract_summary [Sample2.request]) <= 103)%nat.
Proof.
  destruct (extract_summary_bounded [Sample2.request]) as (Hlen & _ & _ & Hfirst).
  split; [|exact Hlen].
  rewrite (Hfirst [ {| SessionManager.content := "{}";
                       SessionManager.content_type := "application/json" |} ]
             {| SessionManager.content := "  I need database credentials for prod-db  ";
                SessionManager.content_type := "text/plain" |} []
             eq_refl).
  - reflexivity.
  - constructor; [left; discriminate | constructor].
  - reflexivity.
  - discriminate.
Defined.

Lemma create_session_keeps_witness :
  SessionManager.create_session {[ "s1" := Sample2.session1 ]} (Some "s1") "123e4567"
    "2025-10-23T12:34:56" "2025-10-23T12:34:56"
  = ("s1", {[ "s1" := Sample2.session1 ]}).
Proof.
  pose proof (create_session_keeps {[ "s1" := Sample2.session1 ]} (Some "s1") "123e4567"
                "2025-10-23T12:34:56" "2025-10-23T12:34:56") as H.
  destruct (SessionManager.create_session _ _ _ _ _) as [new_id sessions'].
  destruct H as (-> & Hsame & _).
  f_equal. exact (Hsame eq_refl Sample2.session1 (lookup_singleton_eq _ _)).
Defined.

Lemma add_interaction_appends_witness :
  let '(out, sessions') :=
    SessionManager.add_interaction {[ "s1" := Sample2.session1 ]} "s1" "run-1"
      [Sample2.request] [] SessionManager.COMPLETED Sample2.moment in
  out = SessionManager.Returned
  /\ exists s', SessionManager.get_session sessions' "s1" = Some s'
                /\ length (SessionManager.interactions s') = 1%nat.
Proof.
  pose proof (add_interaction_appends {[ "s1" := Sample2.session1 ]} "s1" "run-1"
                [Sample2.request] [] SessionManager.COMPLETED Sample2.moment) as H.
  destruct (SessionManager.add_interaction _ _ _ _ _ _ _) as [out sessions'].
  destruct H as [H _]. destruct (H ltac:(discriminate)) as (-> & (s' & Hs & Hi & _) & _).
  split; [done|]. exists s'. split; [exact Hs|]. rewrite Hi.
  rewrite lookup_singleton_eq. reflexivity.
Defined.

Lemma session_history_grows_witness :
  exists s',
    session_step {[ "s1" := Sample2.session1 ]}
      (AddInteraction "s1" "run-1" [Sample2.request] [] SessionManager.FAILED
         Sample2.moment) !! "s1" = Some s'
    /\ SessionManager.created_at s' = "2025-10-23T12:00:00".
Proof.
  destruct (session_history_grows {[ "s1" := Sample2.session1 ]}
              (AddInteraction "s1" "run-1" [Sample2.request] [] SessionManager.FAILED
                 Sample2.moment) "s1" Sample2.session1 (lookup_singleton_eq _ _)
              ltac:(discriminate)) as (s' & Hs & _ & Hc & _).
  exists s'. split; [exact Hs | exact Hc].
Defined.

Lemma fetch_credentials_failures_witness :
  CredentialManager.fetch_credentials Sample.manager [] "api" "stripe" None
  = (inl (Py.ValueError "Resource 'stripe' not found in 1Password vault"),
     [OnePasswordClient.CallGetItemByTitle "stripe" None;
      OnePasswordClient.CallClientGetItems "vault-1"]).
Proof.
  pose proof (fetch_credentials_failures Sample.manager [] "api" "stripe" None "vault-1"
                ltac:(set_solver) eq_refl ltac:(discriminate)) as H.
  cbv zeta in H. destruct H as [_ Hnone].
  refine (Hnone [Sample.item_postgres] eq_refl _).
  constructor; [reflexivity | constructor].
Defined.

Lemma health_check_status_witness :
  Health.health_check Sample.manager
    (fun v => inr {| Health.Vault_id := v; Health.Vault_name := "Demo" |}) !! "status"
  = Some (Py.PStr "healthy")
  /\ Health.health_check Sample.manager (fun _ => inl (Py.Exception "connection refused"))
       !! "status" = Some (Py.PStr "degraded").
Proof.
  split.
  - refine (proj1 (health_check_status Sample.manager _) _).
    exists "vault-1", {| Health.Vault_id := "vault-1"; Health.Vault_name := "Demo" |}.
    split; [reflexivity|]. split; [discriminate | reflexivity].
  - refine (proj1 (proj2 (health_check_status Sample.manager _)) _).
    intros (v & vault & _ & _ & H). discriminate H.
Defined.

Lemma parsed_duration_ttl_witness :
  exists tok claims,
    TokenManager.generate_jwt Sample.token_mgr "session-1" (Py.str_dict Sample.credentials)
      "database" "my-db"
      (Some (IntentParser.duration_minutes
               (IntentParser.parse_intent "need my-db database for 0 minutes")))
      None Sample.now Sample.iv = inr tok
    /\ Lib.jwt_decode tok Sample.secret ["HS256"] false (Sample.now + 1000000) = inr claims
    /\ claims !! "ttl_minutes" = Some (Py.PInt 5).
Proof.
  set (g := TokenManager.generate_jwt Sample.token_mgr "session-1"
              (Py.str_dict Sample.credentials) "database" "my-db"
              (Some (IntentParser.duration_minutes
                       (IntentParser.parse_intent "need my-db database for 0 minutes")))
              None Sample.now Sample.iv).
  set (tok := match g with inr t => t | inl _ => "" end).
  assert (E : g = inr tok) by (vm_compute; reflexivity).
  pose proof (parsed_duration_ttl Sample.token_mgr "need my-db database for 0 minutes"
                "session-1" (Py.str_dict Sample.credentials) "database" "my-db"
                Sample.now (Sample.now + 1000000) Sample.iv tok) as H.
  cbv zeta in H. destruct (H E ltac:(lia)) as (claims & ttl & Hdec & Httl & _ & Heq & _).
  exists tok, claims. split; [exact E|]. split; [exact Hdec|].
  rewrite Httl, Heq.
  assert (Hd : IntentParser.duration_minutes
                 (IntentParser.parse_intent "need my-db database for 0 minutes") = 0)
    by (vm_compute; reflexivity).
  rewrite Hd. reflexivity.
Defined.

Lemma event_shape_witness :
  let ev := AuditLogger.event_dict
              (AuditLogger._create_event_payload "2025-10-23T12:34:56Z" "credential_access"
                 "ACP" "session-1" "database/prod-db" "success"
                 (Some {[ "run_id" := Py.PStr "run-1" ]})) in
  ev !! "metadata" = Some (Py.PDict {[ "run_id" := Py.PStr "run-1" ]})
  /\ is_Some (ev !! "timestamp").
Proof.
  intros ev.
  pose proof (event_shape "2025-10-23T12:34:56Z" "credential_access" "ACP" "session-1"
                "database/prod-db" "success" (Some {[ "run_id" := Py.PStr "run-1" ]}))
    as H.
  cbv zeta in H. destruct H as (Hkeys & _ & _ & Hmeta & _).
  split.
  - apply (Hmeta _ eq_refl). intros H.
    apply (f_equal (fun m => m !! "run_id")) in H.
    by rewrite lookup_singleton_eq, lookup_empty in H.
  - apply Hkeys. left. unfold event_keys. apply list_elem_of_here.
Defined.
